(** * RIPS ingestion and aggregation core: a shallow embedding

    The development follows [src/utils/logic.ts] (identity and date
    normalisation), [src/unnamed/part_000] (the current [App]: ingestion,
    aggregation, duplicate remediation) and [src/App.tsx] (the earlier
    [App], whose classifier uses the explicit [rxSec] marker).

    JavaScript strings are sequences of UTF-16 code units; they are modelled
    as lists of [N].  Regular expressions are run by a small backtracking
    matcher that returns every way of matching in JavaScript's priority
    order, so that the first element is the match the engine reports. *)

From Stdlib Require Import List NArith ZArith Bool Arith Lia String Ascii Sorted
  Permutation DecimalString.
Import ListNotations.

(* ================================================================= *)
(** ** Strings *)

Module Js.

Local Open Scope N_scope.

Definition cu := N.
Definition jsstring := list cu.

(** An ASCII literal as a JavaScript string. *)
Definition lit (s : string) : jsstring :=
  List.map N_of_ascii (list_ascii_of_string s).

Definition cu_eqb : cu -> cu -> bool := N.eqb.

Fixpoint str_eqb (a b : jsstring) : bool :=
  match a, b with
  | [], [] => true
  | x :: a', y :: b' => cu_eqb x y && str_eqb a' b'
  | _, _ => false
  end.

(** A string is falsy exactly when it is empty. *)
Definition truthy (s : jsstring) : bool :=
  match s with [] => false | _ => true end.

(** [a || b] on strings. *)
Definition or_else (a b : jsstring) : jsstring :=
  if truthy a then a else b.

Definition in_range (lo hi c : cu) : bool := (lo <=? c) && (c <=? hi).

Definition is_digit (c : cu) : bool := in_range 48 57 c.
Definition is_upper (c : cu) : bool := in_range 65 90 c.
Definition is_lower (c : cu) : bool := in_range 97 122 c.
Definition is_alnum (c : cu) : bool := is_digit c || is_upper c || is_lower c.

(** [\w]: the characters around which [\b] finds no boundary. *)
Definition is_word (c : cu) : bool := is_alnum c || cu_eqb c 95.

(** WhiteSpace and LineTerminator code units: what [trim] removes and what
    [\s] matches. *)
Definition is_space (c : cu) : bool :=
  in_range 9 13 c || cu_eqb c 32 || cu_eqb c 160 || cu_eqb c 5760
  || in_range 8192 8202 c || cu_eqb c 8232 || cu_eqb c 8233
  || cu_eqb c 8239 || cu_eqb c 8287 || cu_eqb c 12288 || cu_eqb c 65279.

Fixpoint dropWhile (p : cu -> bool) (s : jsstring) : jsstring :=
  match s with
  | [] => []
  | c :: s' => if p c then dropWhile p s' else s
  end.

Definition trimStart (s : jsstring) : jsstring := dropWhile is_space s.
Definition trimEnd (s : jsstring) : jsstring := rev (dropWhile is_space (rev s)).
Definition trim (s : jsstring) : jsstring := trimEnd (trimStart s).

(** [String.prototype.toUpperCase] on the code units U+0000..U+00FF, where
    it is a per-character map: the ASCII and Latin-1 small letters move to
    their capitals, U+00DF becomes SS, U+00B5 and U+00FF leave Latin-1. *)
Definition upper_cu (c : cu) : jsstring :=
  if is_lower c then [c - 32]
  else if cu_eqb c 181 then [924]
  else if cu_eqb c 223 then [83; 83]
  else if cu_eqb c 247 then [c]
  else if cu_eqb c 255 then [376]
  else if in_range 224 254 c then [c - 32]
  else [c].

Definition toUpperCaseL1 (s : jsstring) : jsstring := flat_map upper_cu s.

Fixpoint startsWith (s p : jsstring) : bool :=
  match p, s with
  | [], _ => true
  | x :: p', y :: s' => cu_eqb x y && startsWith s' p'
  | _ :: _, [] => false
  end.

(** [s.includes(p)] *)
Fixpoint includes (s p : jsstring) : bool :=
  startsWith s p ||
  match s with
  | [] => false
  | _ :: s' => includes s' p
  end.

(** [s.split(sep)] for a one-character separator. *)
Fixpoint split_on (sep : cu) (s : jsstring) : list jsstring :=
  match s with
  | [] => [[]]
  | c :: s' =>
      if cu_eqb c sep then [] :: split_on sep s'
      else match split_on sep s' with
           | [] => [[c]]
           | p :: ps => (c :: p) :: ps
           end
  end.

(** [xs.join(sep)] *)
Fixpoint join (sep : jsstring) (xs : list jsstring) : jsstring :=
  match xs with
  | [] => []
  | [x] => x
  | x :: xs' => x ++ sep ++ join sep xs'
  end.

(** [xs.find(p)] with the empty-string default: the first element that
    passes, the empty string when none does. *)
Definition find_or_empty (p : jsstring -> bool) (xs : list jsstring) : jsstring :=
  match List.find p xs with
  | Some x => x
  | None => []
  end.

End Js.

(* ================================================================= *)
(** ** Regular expressions *)

Module Regex.
Import Js.
Local Open Scope N_scope.

(** The constructs the program's patterns use.  Every quantified operand in
    the sources is a single character class, so [Rep] repeats a class. *)
Inductive regex : Type :=
| Eps
| Chr (p : cu -> bool)                         (* one character of a class *)
| Seq (r1 r2 : regex)
| Alt (r1 r2 : regex)                          (* r1|r2, r1 tried first *)
| Opt (r : regex)                              (* r?  greedy *)
| Rep (p : cu -> bool) (lo : nat) (hi : option nat)  (* p{lo,hi}, p*, p+ greedy *)
| Grp (n : nat) (r : regex)                    (* capture group number n *)
| WordB                                        (* \b *)
| Bol                                          (* ^ *)
| Eol.                                         (* $ *)

(** A position in the subject: the characters already passed (most recent
    first), the characters still ahead, and the captures made so far. *)
Record mstate : Type := MState {
  before : jsstring;
  after : jsstring;
  caps : list (nat * jsstring)
}.

Definition word_at (s : jsstring) : bool :=
  match s with
  | [] => false
  | c :: _ => is_word c
  end.

Definition hi_allows (hi : option nat) : bool :=
  match hi with
  | Some O => false
  | _ => true
  end.

Definition hi_pred (hi : option nat) : option nat :=
  match hi with
  | Some n => Some (pred n)
  | None => None
  end.

Definition hi_ok (hi : option nat) (n : nat) : Prop :=
  match hi with
  | Some h => (n <= h)%nat
  | None => True
  end.

(** Greedy repetition of a class: the longest run first, then shorter ones
    down to [lo] characters. *)
Fixpoint rep (p : cu -> bool) (lo : nat) (hi : option nat)
    (bef : jsstring) (cs : list (nat * jsstring)) (s : jsstring) : list mstate :=
  (match s with
   | c :: s' =>
       if p c && hi_allows hi
       then rep p (pred lo) (hi_pred hi) (c :: bef) cs s'
       else []
   | [] => []
   end)
  ++ (match lo with
      | O => [MState bef s cs]
      | S _ => []
      end).

(** The text between two positions of one subject. *)
Definition consumed (st st' : mstate) : jsstring :=
  firstn (List.length (after st) - List.length (after st')) (after st).

Definition moved (st st' : mstate) : bool :=
  negb (Nat.eqb (List.length (after st')) (List.length (after st))).

(** Every way of matching [r] at [st], in backtracking priority order. *)
Fixpoint exec (r : regex) (st : mstate) : list mstate :=
  match r with
  | Eps => [st]
  | Chr p =>
      match after st with
      | c :: s' => if p c then [MState (c :: before st) s' (caps st)] else []
      | [] => []
      end
  | Seq r1 r2 => flat_map (exec r2) (exec r1 st)
  | Alt r1 r2 => exec r1 st ++ exec r2 st
  | Opt r1 => filter (moved st) (exec r1 st) ++ [st]
  | Rep p lo hi => rep p lo hi (before st) (caps st) (after st)
  | Grp n r1 =>
      List.map (fun st' => MState (before st') (after st')
                             ((n, consumed st st') :: caps st'))
               (exec r1 st)
  | WordB => if xorb (word_at (before st)) (word_at (after st)) then [st] else []
  | Bol => match before st with [] => [st] | _ :: _ => [] end
  | Eol => match after st with [] => [st] | _ :: _ => [] end
  end.

(** A successful match: where it starts, the matched text [m[0]] and the
    captures. *)
Record rmatch : Type := RMatch {
  m_pre : jsstring;       (* the subject before the match, reversed *)
  m_text : jsstring;      (* m[0] *)
  m_post : jsstring;      (* the subject after the match *)
  m_caps : list (nat * jsstring)
}.

(** The leftmost match: positions are tried from left to right and the
    first way of matching at the first position that has one wins. *)
Fixpoint search_from (r : regex) (bef s : jsstring) : option rmatch :=
  match exec r (MState bef s []) with
  | e :: _ => Some (RMatch bef (consumed (MState bef s []) e) (after e) (caps e))
  | [] =>
      match s with
      | [] => None
      | c :: s' => search_from r (c :: bef) s'
      end
  end.

Definition search (r : regex) (s : jsstring) : option rmatch := search_from r [] s.

(** [re.test(s)] *)
Definition test (r : regex) (s : jsstring) : bool :=
  match search r s with Some _ => true | None => false end.

(** [s.match(re)] for a pattern without the g flag; [Some m[0]]. *)
Definition match0 (r : regex) (s : jsstring) : option jsstring :=
  option_map m_text (search r s).

(** [m[n]] of a match; [None] is [undefined]. *)
Fixpoint cap (n : nat) (cs : list (nat * jsstring)) : option jsstring :=
  match cs with
  | [] => None
  | (k, v) :: cs' => if Nat.eqb k n then Some v else cap n cs'
  end.

(** [s.replace(re, '')] for a pattern without the g flag. *)
Definition remove_first (r : regex) (s : jsstring) : jsstring :=
  match search r s with
  | Some m => rev (m_pre m) ++ m_post m
  | None => s
  end.

(** Pattern building blocks: a literal character, and a letter under the
    i flag, which stands for either case. *)
Definition same (c x : cu) : bool := cu_eqb x c.
Definition anycase (c x : cu) : bool := cu_eqb x c || cu_eqb x (c + 32).

Definition ch (c : cu) : regex := Chr (same c).
Definition ci (c : cu) : regex := Chr (anycase c).

(** A literal word, character by character. *)
Fixpoint word (f : cu -> cu -> bool) (s : jsstring) : regex :=
  match s with
  | [] => Eps
  | c :: s' => Seq (Chr (f c)) (word f s')
  end.

(** What is left of [s] once the literal word [w] has been read off its
    front, and the same for the first of several words that fits. *)
Fixpoint strip_word (f : cu -> cu -> bool) (w s : jsstring) : option jsstring :=
  match w, s with
  | [], _ => Some s
  | c :: w', x :: s' => if f c x then strip_word f w' s' else None
  | _ :: _, [] => None
  end.

Fixpoint strip_any (f : cu -> cu -> bool) (ws : list jsstring) (s : jsstring) :
    option jsstring :=
  match ws with
  | [] => None
  | w :: ws' =>
      match strip_word f w s with
      | Some rest => Some rest
      | None => strip_any f ws' s
      end
  end.

Fixpoint alts (rs : list regex) : regex :=
  match rs with
  | [] => Eps
  | [r] => r
  | r :: rs' => Alt r (alts rs')
  end.

Definition exactly (p : cu -> bool) (n : nat) : regex := Rep p n (Some n).
Definition between (p : cu -> bool) (lo hi : nat) : regex := Rep p lo (Some hi).
Definition at_least (p : cu -> bool) (lo : nat) : regex := Rep p lo None.

(** The document-type prefixes CC TI RC CE PA PE CN MS, in source order. *)
Definition doc_prefixes : list jsstring :=
  List.map lit ["CC"; "TI"; "RC"; "CE"; "PA"; "PE"; "CN"; "MS"]%string.

End Regex.

(* ================================================================= *)
(** ** src/utils/logic.ts *)

Module Logic.
Import Js Regex.
Local Open Scope N_scope.

(** The class [[-\s]]. *)
Definition is_sep (c : cu) : bool := cu_eqb c 45 || is_space c.

(** [/^(CC|TI|RC|CE|PA|PE|CN|MS)[-\s]*/i] *)
Definition rx_prefix : regex :=
  Seq Bol
    (Seq (Grp 1 (alts (List.map (word anycase) doc_prefixes)))
         (at_least is_sep 0)).

(** [normalizeId]; [None] stands for [null] and [undefined].  After the
    second replacement only [0-9A-Za-z] is left, where [toUpperCase] is the
    per-character map [toUpperCaseL1]. *)
Definition normalizeId (v : option jsstring) : jsstring :=
  match v with
  | None => []
  | Some v =>
      let x := trim v in
      let x := remove_first rx_prefix x in
      let x := filter is_alnum x in
      toUpperCaseL1 x
  end.

(** What the first replacement of [normalizeId] leaves, read off the
    string directly. *)
Definition strip_prefix (z : jsstring) : jsstring :=
  match strip_any anycase doc_prefixes z with
  | Some rest => dropWhile is_sep rest
  | None => z
  end.

(** The characters of a normalised identifier. *)
Definition is_upnum (c : cu) : bool := is_digit c || is_upper c.

(** The string begins with one of CC TI RC CE PA PE CN MS. *)
Definition has_doc_prefix (y : jsstring) : bool :=
  existsb (startsWith y) doc_prefixes.

Definition iso_date : regex :=
  Seq (exactly is_digit 4) (Seq (ch 45) (Seq (exactly is_digit 2)
      (Seq (ch 45) (exactly is_digit 2)))).

Definition dmy_date : regex :=
  Seq (exactly is_digit 2) (Seq (ch 47) (Seq (exactly is_digit 2)
      (Seq (ch 47) (exactly is_digit 4)))).

(** [/\b(\d{4}-\d{2}-\d{2})\b|\b(\d{2}\/\d{2}\/\d{4})\b/] *)
Definition rx_date_line : regex :=
  Alt (Seq WordB (Seq (Grp 1 iso_date) WordB))
      (Seq WordB (Seq (Grp 2 dmy_date) WordB)).

Definition cap_or_empty (n : nat) (m : rmatch) : jsstring :=
  match cap n (m_caps m) with
  | Some v => v
  | None => []
  end.

Definition parseDateFromLine (l : jsstring) : jsstring :=
  match search rx_date_line l with
  | None => []
  | Some m => or_else (cap_or_empty 1 m) (or_else (cap_or_empty 2 m) [])
  end.

(** *** Ages

    [new Date(fn)] and the clock are the host's: the parser is a parameter
    that gives the local calendar fields of a date, or [None] for an
    Invalid Date, and [hoy] is [new Date()], which the calls made while one
    bracket is computed are taken to read on the same day. *)
Record LocalDate : Type := {
  fullYear : Z;      (* getFullYear() *)
  month : Z;         (* getMonth(), 0..11 *)
  date : Z           (* getDate(), 1..31 *)
}.

(** The bracket labels; the sixth character of the fourth is U+00D3. *)
Definition PRIMERA_INFANCIA : jsstring := Eval cbv in lit "PRIMERA INFANCIA (0m-5a)".
Definition INFANCIA : jsstring := Eval cbv in lit "INFANCIA (6-11)".
Definition ADOLESCENCIA : jsstring := Eval cbv in lit "ADOLESCENCIA (12-17)".
Definition JOVENES : jsstring := Eval cbv in 74 :: 211 :: lit "VENES (18-28)".
Definition ADULTEZ : jsstring := Eval cbv in lit "ADULTEZ (29-59)".
Definition VEJEZ : jsstring := Eval cbv in lit "VEJEZ (60+)".

Section Ages.
Local Open Scope Z_scope.

Variable Date_parse : jsstring -> option LocalDate.
Variable hoy : LocalDate.

Definition edadMeses (fn : jsstring) : option Z :=
  if negb (truthy fn) then None
  else match Date_parse fn with
       | None => None
       | Some f =>
           Some ((fullYear hoy - fullYear f) * 12 + (month hoy - month f))
       end.

Definition edadAnios (fn : jsstring) : option Z :=
  if negb (truthy fn) then None
  else match Date_parse fn with
       | None => None
       | Some f =>
           let e := fullYear hoy - fullYear f in
           if (month hoy <? month f)
              || ((month hoy =? month f) && (date hoy <? date f))
           then Some (e - 1) else Some e
       end.

Definition grupoEtarioDesdeFN (fn : jsstring) : jsstring :=
  if negb (truthy fn) then []
  else match edadMeses fn, edadAnios fn with
       | Some m, Some a =>
           if m <=? 60 then PRIMERA_INFANCIA
           else if a <=? 11 then INFANCIA
           else if a <=? 17 then ADOLESCENCIA
           else if a <=? 28 then JOVENES
           else if a <=? 59 then ADULTEZ
           else VEJEZ
       | _, _ => []
       end.

End Ages.

(** The bracket the thresholds 11, 17, 28, 59 give to an age in years. *)
Definition grupo_por_anios (a : Z) : jsstring :=
  if (a <=? 11)%Z then INFANCIA
  else if (a <=? 17)%Z then ADOLESCENCIA
  else if (a <=? 28)%Z then JOVENES
  else if (a <=? 59)%Z then ADULTEZ
  else VEJEZ.

End Logic.

(* ================================================================= *)
(** ** Keyed collections *)

(** A [Map<string, V>]: the keys in insertion order; [set] on a key that
    is present keeps its place. *)
Module JsMap.
Import Js.

Definition t (V : Type) : Type := list (jsstring * V).

Fixpoint get {V} (m : t V) (k : jsstring) : option V :=
  match m with
  | [] => None
  | (k', v) :: m' => if str_eqb k' k then Some v else get m' k
  end.

Definition has {V} (m : t V) (k : jsstring) : bool :=
  match get m k with Some _ => true | None => false end.

Fixpoint set {V} (m : t V) (k : jsstring) (v : V) : t V :=
  match m with
  | [] => [(k, v)]
  | (k', v') :: m' =>
      if str_eqb k' k then (k', v) :: m' else (k', v') :: set m' k v
  end.

Definition size {V} (m : t V) : nat := List.length m.

End JsMap.

(** A plain object used as a dictionary: its own properties, in the order
    in which they were created.  [entries] is [Object.entries]: the array
    indices first, in ascending numeric order, then the other keys in
    creation order.  [get] and [set] are [o[k]] and [o[k] = v] for a key
    that names no property of [Object.prototype]; for the other keys
    ([constructor], [__proto__], [toString], ...) the code reads the
    inherited value, creates no property of its own and may throw, and
    these definitions do not describe it.  The service codes and patient
    identifiers the extractor writes are made of digits and capital
    letters ([Shapes.record_ok]) and name no such property
    ([record_ok_own_keys]); the theorems about the rankings, the audit
    and the top-line figures are stated for such records. *)
Module JsObj.
Import Js.
Local Open Scope N_scope.

Definition t (V : Type) : Type := list (jsstring * V).

Definition get {V} (o : t V) (k : jsstring) : option V := JsMap.get o k.
Definition set {V} (o : t V) (k : jsstring) (v : V) : t V := JsMap.set o k v.

Fixpoint digits_value (acc : N) (s : jsstring) : N :=
  match s with
  | [] => acc
  | c :: s' => digits_value (acc * 10 + (c - 48)) s'
  end.

(** The array index a key denotes, when it is one: a canonical numeric
    string (no sign, no leading zero) of value below 2^32 - 1. *)
Definition array_index (k : jsstring) : option N :=
  match k with
  | [] => None
  | c :: k' =>
      if forallb is_digit k
         && (negb (cu_eqb c 48) || match k' with [] => true | _ => false end)
      then let v := digits_value 0 k in
           if v <? 4294967295 then Some v else None
      else None
  end.

Definition is_index (k : jsstring) : bool :=
  match array_index k with Some _ => true | None => false end.

Definition index_of (k : jsstring) : N :=
  match array_index k with Some v => v | None => 0 end.

Fixpoint insert_index {V} (e : jsstring * V) (l : list (jsstring * V)) :
    list (jsstring * V) :=
  match l with
  | [] => [e]
  | e' :: l' =>
      if index_of (fst e) <=? index_of (fst e') then e :: l
      else e' :: insert_index e l'
  end.

Definition sort_index {V} (l : list (jsstring * V)) : list (jsstring * V) :=
  fold_right insert_index [] l.

(** The same order on the keys alone. *)
Fixpoint insert_key (k : jsstring) (l : list jsstring) : list jsstring :=
  match l with
  | [] => [k]
  | k' :: l' =>
      if index_of k <=? index_of k' then k :: l
      else k' :: insert_key k l'
  end.

Definition sort_keys (l : list jsstring) : list jsstring :=
  fold_right insert_key [] l.

Definition key_order (ks : list jsstring) : list jsstring :=
  sort_keys (filter is_index ks) ++ filter (fun k => negb (is_index k)) ks.

Definition entries {V} (o : t V) : list (jsstring * V) :=
  sort_index (filter (fun e => is_index (fst e)) o)
  ++ filter (fun e => negb (is_index (fst e))) o.

End JsObj.

(** [Array.prototype.sort] with the comparator [(a, b) => key b - key a]:
    descending by key, elements of equal key in their original order. *)
Module Sort.

Section Desc.
Context {A : Type}.
Variable key : A -> nat.

Fixpoint insert_desc (x : A) (l : list A) : list A :=
  match l with
  | [] => [x]
  | y :: l' => if (key x <? key y)%nat then y :: insert_desc x l' else x :: l
  end.

Definition sort_desc (l : list A) : list A := fold_right insert_desc [] l.

End Desc.

End Sort.

(* ================================================================= *)
(** ** src/unnamed/part_000: the current [App] *)

Module App.
Import Js Regex Logic.
Local Open Scope N_scope.

Record RipsRecord : Type := {
  cups : jsstring;
  paciente : jsstring;
  tipo : jsstring;
  nombre : jsstring;
  fecha : jsstring
}.

Record UserRecord : Type := {
  u_id : jsstring;
  u_sexo : jsstring;
  u_fnac : jsstring;
  u_nombre : jsstring
}.

Record MaestroCupItem : Type := {
  c_cups : jsstring;
  c_tipo : jsstring;
  c_nombre : jsstring
}.

(** A row of the catalog sheet: the three cells the loader reads, each as
    [String(x[col] || '')] gives it. *)
Record MaestroRow : Type := {
  CUPS_VIGENTE : jsstring;
  Tipo_Ser : jsstring;
  NOMBRE_CUPS : jsstring
}.

(** What an awaited read gives: a value, or a thrown exception. *)
Inductive outcome (A : Type) : Type :=
| Returns (a : A)
| Throws.
Arguments Returns {A} a.
Arguments Throws {A}.

Record RipsFile : Type := {
  f_name : jsstring;
  f_text : outcome jsstring        (* await file.text() *)
}.

(** The texts [setMessage] is given, with the numbers they interpolate. *)
Inductive Message : Type :=
| MsgSeleccione                       (* 'Seleccione archivos RIPS ...' *)
| MsgProcesado (registros pacientes : nat)
| MsgErrorFormato                     (* 'Error en formato de archivos.' *)
| MsgLimpiezaMasiva (removed : nat).  (* 'Limpieza masiva completada ...' *)

(** The component state the handlers read and set. *)
Record AppState : Type := {
  registros : list RipsRecord;
  usuariosMap : JsMap.t UserRecord;
  maestro : JsMap.t MaestroCupItem;
  message : option Message;
  showDuplicates : bool
}.

Definition USUARIOS : jsstring := Eval cbv in lit "USUARIOS".
Definition SERVICIOS : jsstring := Eval cbv in lit "SERVICIOS".
Definition SIN_ID : jsstring := Eval cbv in lit "SIN_ID".

(** *** The patterns of [processFiles] *)

(** [/[|]$/] *)
Definition rx_trailing_pipe : regex := Seq (ch 124) Eol.

(** [/\d{4}-\d{2}-\d{2}|\d{2}\/\d{2}\/\d{4}/] *)
Definition rx_hasDate : regex := Alt iso_date dmy_date.

(** [/\b(M|F)\b/i] *)
Definition rx_hasSex : regex :=
  Seq WordB (Seq (Grp 1 (Alt (ci 77) (ci 70))) WordB).

(** [/^\d+$/] *)
Definition rx_numeric : regex := Seq Bol (Seq (at_least is_digit 1) Eol).

(** [/^(?:CC|TI|RC|CE|PA|PE|CN|MS)?-?\d{3,20}$/i] *)
Definition rx_idCand : regex :=
  Seq Bol (Seq (Opt (alts (List.map (word anycase) doc_prefixes)))
          (Seq (Opt (ch 45)) (Seq (between is_digit 3 20) Eol))).

(** [/^(M|F)$/i] *)
Definition rx_sexo : regex := Seq Bol (Seq (Grp 1 (Alt (ci 77) (ci 70))) Eol).

(** [/^\d{4}-\d{2}-\d{2}$/] and [/^\d{2}\/\d{2}\/\d{4}$/] *)
Definition rx_fnac_iso : regex := Seq Bol (Seq iso_date Eol).
Definition rx_fnac_dmy : regex := Seq Bol (Seq dmy_date Eol).

(** [/[A-Za-zÁÉÍÓÚÑ]/] *)
Definition is_letra (c : cu) : bool :=
  is_upper c || is_lower c || cu_eqb c 193 || cu_eqb c 201 || cu_eqb c 205
  || cu_eqb c 211 || cu_eqb c 218 || cu_eqb c 209.
Definition rx_letra : regex := Chr is_letra.

(** [/\b\d{6}\b/] *)
Definition rx_cups : regex := Seq WordB (Seq (exactly is_digit 6) WordB).

(** [/\b(?:CC|TI|RC|CE|PA|PE|CN|MS)-?\d{4,15}\b|\b\d{6,15}\b/] *)
Definition rx_paciente : regex :=
  Alt (Seq WordB (Seq (alts (List.map (word same) doc_prefixes))
         (Seq (Opt (ch 45)) (Seq (between is_digit 4 15) WordB))))
      (Seq WordB (Seq (between is_digit 6 15) WordB)).

(** [txt.split(/\r?\n/)]: the text is cut at every line feed, and a
    carriage return that stands just before the line feed goes with it. *)
Fixpoint split_lines (s : jsstring) : list jsstring :=
  match s with
  | [] => [[]]
  | c :: s' =>
      if cu_eqb c 10 then [] :: split_lines s'
      else
        match s' with
        | d :: s'' =>
            if cu_eqb c 13 && cu_eqb d 10 then
              match split_lines s' with
              | _ :: ps => [] :: ps
              | [] => [[]]
              end
            else
              match split_lines s' with
              | p :: ps => (c :: p) :: ps
              | [] => [[c]]
              end
        | [] => [[c]]
        end
  end.

(** *** The catalog *)

Definition add_row (m : JsMap.t MaestroCupItem) (x : MaestroRow) :
    JsMap.t MaestroCupItem :=
  let c := trim (CUPS_VIGENTE x) in
  if truthy c
  then JsMap.set m c {| c_cups := c; c_tipo := trim (Tipo_Ser x);
                        c_nombre := trim (NOMBRE_CUPS x) |}
  else m.

Definition build_cupsMap (rows : list MaestroRow) : JsMap.t MaestroCupItem :=
  fold_left add_row rows [].

(** *** [processFiles]

    The lines and the file names are arbitrary text, for which
    [String.prototype.toUpperCase] is the host's Unicode mapping: it is a
    parameter of the ingestion.  The arguments of the other calls of
    [toUpperCase] lie in Latin-1, where [toUpperCaseL1] is that mapping. *)
Section Ingest.

Variable toUpperCase : jsstring -> jsstring.

Definition getSectionFromFilename (name : jsstring) : jsstring :=
  let n := toUpperCase name in
  if startsWith n (lit "US") then USUARIOS
  else if startsWith n (lit "AC") || startsWith n (lit "AP")
          || startsWith n (lit "AM") || startsWith n (lit "AT")
  then SERVICIOS
  else [].

(** The state of the loop over the lines of the batch. *)
Record Loop : Type := {
  section : jsstring;
  newRegistros : list RipsRecord;
  newUsuariosMap : JsMap.t UserRecord
}.

Definition set_section (s : jsstring) (st : Loop) : Loop :=
  {| section := s; newRegistros := newRegistros st;
     newUsuariosMap := newUsuariosMap st |}.

Definition is_usuarios_header (upperLine : jsstring) : bool :=
  includes upperLine USUARIOS
  && (includes upperLine [42] || includes upperLine [176]
      || includes upperLine [45]).

Definition is_servicios_header (upperLine : jsstring) : bool :=
  includes upperLine (lit "CONSULTAS")
  || includes upperLine (lit "PROCEDIMIENTOS")
  || includes upperLine (lit "MEDICAMENTOS")
  || includes upperLine (lit "OTROS SERVICIOS").

Definition count_occ_cu (c : cu) (l : jsstring) : nat :=
  List.length (filter (cu_eqb c) l).

(** The separator in effect; [None] is the [continue] of a line that has
    neither. *)
Definition split_parts (l : jsstring) : option (list jsstring) :=
  if includes l [44] && (3 <=? count_occ_cu 44%N l)%nat
  then Some (List.map (fun x => remove_first rx_trailing_pipe (trim x))
                      (split_on 44 l))
  else if includes l [124]
  then Some (List.map trim (split_on 124 l))
  else None.

Definition hasDate (l : jsstring) : bool := test rx_hasDate l.
Definition hasSex (l : jsstring) : bool := test rx_hasSex l.

(** The section after the content heuristic has looked at the line. *)
Definition heuristic_section (sec l : jsstring) : jsstring :=
  if negb (str_eqb sec USUARIOS) && (hasDate l && hasSex l)
  then USUARIOS else sec.

(** What the roster branch reads off the fields of a line. *)
Definition idCand_of (parts : list jsstring) : jsstring :=
  let idCand := nth 1 parts [] in
  if negb (truthy idCand) || negb (test rx_numeric idCand)
  then find_or_empty (test rx_idCand) parts
  else idCand.

Definition sexo_of (parts : list jsstring) : jsstring :=
  toUpperCaseL1 (find_or_empty (test rx_sexo) parts).

Definition fnac_of (parts : list jsstring) : jsstring :=
  find_or_empty (fun p => test rx_fnac_iso p || test rx_fnac_dmy p) parts.

Definition posiblesNombre (parts : list jsstring) : list jsstring :=
  filter (fun p => test rx_letra p && negb (test rx_sexo p)
                   && negb (test rx_numeric p) && (2 <? List.length p)%nat)
         parts.

Definition nombre_of (parts : list jsstring) : jsstring :=
  join [32] (firstn 4 (posiblesNombre parts)).

(** The merge of the roster branch: each field takes the new value when it
    is not empty and the previous one otherwise. *)
Definition merge_usuario (m : JsMap.t UserRecord)
    (id sexo fnac nombre : jsstring) : JsMap.t UserRecord :=
  let prev := match JsMap.get m id with
              | Some u => u
              | None => {| u_id := id; u_sexo := []; u_fnac := [];
                           u_nombre := [] |}
              end in
  JsMap.set m id {| u_id := id;
                    u_sexo := or_else sexo (u_sexo prev);
                    u_fnac := or_else fnac (u_fnac prev);
                    u_nombre := or_else nombre (u_nombre prev) |}.

Definition procesar_usuario (parts : list jsstring)
    (m : JsMap.t UserRecord) : JsMap.t UserRecord :=
  let id := normalizeId (Some (idCand_of parts)) in
  if negb (truthy id) || (List.length id <? 3)%nat then m
  else merge_usuario m id (sexo_of parts) (fnac_of parts) (nombre_of parts).

(** The service branch: the record the line gives, if any. *)
Definition procesar_servicio (cupsMap : JsMap.t MaestroCupItem)
    (l : jsstring) : option RipsRecord :=
  match match0 rx_cups l with
  | None => None
  | Some cups =>
      match JsMap.get cupsMap cups with
      | None => None
      | Some info =>
          let pacienteRaw := match match0 rx_paciente l with
                             | Some m => m
                             | None => SIN_ID
                             end in
          let paciente := or_else (normalizeId (Some pacienteRaw)) SIN_ID in
          Some {| cups := cups; paciente := paciente; tipo := c_tipo info;
                  nombre := c_nombre info; fecha := parseDateFromLine l |}
      end
  end.

(** One turn of [for (const raw of lines)]. *)
Definition process_line (cupsMap : JsMap.t MaestroCupItem)
    (st : Loop) (raw : jsstring) : Loop :=
  let l := trim raw in
  if negb (truthy l) then st
  else
    let upperLine := toUpperCase l in
    if is_usuarios_header upperLine then set_section USUARIOS st
    else if is_servicios_header upperLine then set_section SERVICIOS st
    else
      match split_parts l with
      | None => st
      | Some parts =>
          if (List.length parts <? 2)%nat then st
          else
            let sec := heuristic_section (section st) l in
            if includes sec USUARIOS
            then {| section := sec;
                    newRegistros := newRegistros st;
                    newUsuariosMap := procesar_usuario parts (newUsuariosMap st) |}
            else
              match procesar_servicio cupsMap l with
              | None => set_section sec st
              | Some r => {| section := sec;
                             newRegistros := newRegistros st ++ [r];
                             newUsuariosMap := newUsuariosMap st |}
              end
      end.

(** The loop over the files of the batch; a read that throws leaves the
    [try] block. *)
Fixpoint process_rips (cupsMap : JsMap.t MaestroCupItem)
    (files : list RipsFile) (regs : list RipsRecord)
    (umap : JsMap.t UserRecord) :
    outcome (list RipsRecord * JsMap.t UserRecord) :=
  match files with
  | [] => Returns (regs, umap)
  | file :: files' =>
      match f_text file with
      | Throws => Throws
      | Returns txt =>
          let st0 := {| section := getSectionFromFilename (f_name file);
                        newRegistros := regs; newUsuariosMap := umap |} in
          let st := fold_left (process_line cupsMap) (split_lines txt) st0 in
          process_rips cupsMap files' (newRegistros st) (newUsuariosMap st)
      end
  end.

Definition set_message (m : Message) (st : AppState) : AppState :=
  {| registros := registros st; usuariosMap := usuariosMap st;
     maestro := maestro st; message := Some m;
     showDuplicates := showDuplicates st |}.

(** [processFiles]: the state once the handler has run.  [cupsFile] is
    [None] when no catalog file is chosen; otherwise it holds what reading
    the workbook gives. *)
Definition processFiles (st : AppState)
    (ripsFiles : option (list RipsFile))
    (cupsFile : option (outcome (list MaestroRow))) : AppState :=
  match ripsFiles, cupsFile with
  | None, _ | Some [], _ | _, None => set_message MsgSeleccione st
  | Some files, Some sheet =>
      match sheet with
      | Throws => set_message MsgErrorFormato st
      | Returns rows =>
          let cupsMap := build_cupsMap rows in
          (* setMaestro(cupsMap) *)
          match process_rips cupsMap files [] (usuariosMap st) with
          | Throws =>
              {| registros := registros st; usuariosMap := usuariosMap st;
                 maestro := cupsMap; message := Some MsgErrorFormato;
                 showDuplicates := showDuplicates st |}
          | Returns (regs, umap) =>
              {| registros := regs; usuariosMap := umap;
                 maestro := cupsMap;
                 message := Some (MsgProcesado (List.length regs)
                                               (JsMap.size umap));
                 showDuplicates := showDuplicates st |}
          end
      end
  end.

End Ingest.

(** An exception leaves the [try] block of [processFiles]: reading the
    workbook throws, or reading one of the files does. *)
Definition batch_throws (files : list RipsFile)
    (sheet : outcome (list MaestroRow)) : Prop :=
  sheet = Throws \/ Exists (fun f => f_text f = Throws) files.

(** *** [handleRemoveAllDuplicates] *)

(** The template [`${r.paciente}|${r.cups}|${r.fecha}`]. *)
Definition dupKey (r : RipsRecord) : jsstring :=
  paciente r ++ [124] ++ cups r ++ [124] ++ fecha r.

Definition seen_has (seen : list jsstring) (key : jsstring) : bool :=
  existsb (str_eqb key) seen.

(** [registros.filter(...)] with the set [seen] and the counter
    [removedCount] the callback updates: the records kept and the final
    counter. *)
Fixpoint filter_seen (seen : list jsstring) (removedCount : nat)
    (rs : list RipsRecord) : list RipsRecord * nat :=
  match rs with
  | [] => ([], removedCount)
  | r :: rs' =>
      let key := dupKey r in
      if seen_has seen key
      then filter_seen seen (S removedCount) rs'
      else let (kept, n) := filter_seen (key :: seen) removedCount rs' in
           (r :: kept, n)
  end.

Definition removeAllDuplicates (rs : list RipsRecord) : list RipsRecord * nat :=
  filter_seen [] 0 rs.

(** The (patientId, serviceCode, serviceDate) triple of a record. *)
Definition triple (r : RipsRecord) : jsstring * jsstring * jsstring :=
  (paciente r, cups r, fecha r).

Definition same_triple (a b : RipsRecord) : bool :=
  str_eqb (paciente a) (paciente b) && str_eqb (cups a) (cups b)
  && str_eqb (fecha a) (fecha b).

(** The remediation in the words of its description: a record stays when
    no record before it in the list has its triple. *)
Fixpoint keep_first_from (earlier rs : list RipsRecord) : list RipsRecord :=
  match rs with
  | [] => []
  | r :: rs' =>
      if existsb (same_triple r) earlier
      then keep_first_from (r :: earlier) rs'
      else r :: keep_first_from (r :: earlier) rs'
  end.

Definition keep_first_occurrences (rs : list RipsRecord) : list RipsRecord :=
  keep_first_from [] rs.

(** The shape of the records the extractor emits that the key relies on:
    no [|] inside the patient identifier or the service code. *)
Definition no_pipe (s : jsstring) : bool := negb (existsb (cu_eqb 124) s).

Definition extractor_shaped (r : RipsRecord) : bool :=
  no_pipe (paciente r) && no_pipe (cups r).

(** [confirmed] is the answer of the [confirm] dialog. *)
Definition handleRemoveAllDuplicates (confirmed : bool) (st : AppState) :
    AppState :=
  if negb confirmed then st
  else
    let (newRegistros, removedCount) := removeAllDuplicates (registros st) in
    {| registros := newRegistros; usuariosMap := usuariosMap st;
       maestro := maestro st;
       message := Some (MsgLimpiezaMasiva removedCount);
       showDuplicates := false |}.

(** *** The aggregation behind [rankingCUPS] *)

Record ServiceTypeMeta : Type := {
  type : jsstring;
  monthlyGoal : nat;
  active : bool
}.

Definition activeTypes (metas : list ServiceTypeMeta) : list jsstring :=
  List.map type (filter active metas).

Definition filteredRegistros (metas : list ServiceTypeMeta)
    (regs : list RipsRecord) : list RipsRecord :=
  filter (fun r => existsb (str_eqb (tipo r)) (activeTypes metas)) regs.

Record CupsInfo : Type := {
  i_count : nat;
  i_name : jsstring;
  i_type : jsstring
}.

(** [cupsCount[r.cups]]: created at the first record of a code, counted up
    at each one. *)
Definition add_cupsCount (o : JsObj.t CupsInfo) (r : RipsRecord) :
    JsObj.t CupsInfo :=
  let info := match JsObj.get o (cups r) with
              | Some i => i
              | None => {| i_count := 0; i_name := nombre r; i_type := tipo r |}
              end in
  JsObj.set o (cups r)
    {| i_count := S (i_count info); i_name := i_name info;
       i_type := i_type info |}.

(** [cupsPacCount[r.cups][r.paciente]] *)
Definition add_cupsPacCount (o : JsObj.t (JsObj.t nat)) (r : RipsRecord) :
    JsObj.t (JsObj.t nat) :=
  let pacs := match JsObj.get o (cups r) with Some x => x | None => [] end in
  let n := match JsObj.get pacs (paciente r) with Some n => n | None => O end in
  JsObj.set o (cups r) (JsObj.set pacs (paciente r) (S n)).

(** [cupsPacDates[r.cups][r.paciente]], a [Set] of dates in insertion
    order. *)
Definition set_add (s : list jsstring) (x : jsstring) : list jsstring :=
  if existsb (str_eqb x) s then s else s ++ [x].

Definition add_cupsPacDates (o : JsObj.t (JsObj.t (list jsstring)))
    (r : RipsRecord) : JsObj.t (JsObj.t (list jsstring)) :=
  let pacs := match JsObj.get o (cups r) with Some x => x | None => [] end in
  let ds := match JsObj.get pacs (paciente r) with Some d => d | None => [] end in
  JsObj.set o (cups r) (JsObj.set pacs (paciente r) (set_add ds (fecha r))).

Definition cupsCount (regs : list RipsRecord) : JsObj.t CupsInfo :=
  fold_left add_cupsCount regs [].
Definition cupsPacCount (regs : list RipsRecord) : JsObj.t (JsObj.t nat) :=
  fold_left add_cupsPacCount regs [].
Definition cupsPacDates (regs : list RipsRecord) :
    JsObj.t (JsObj.t (list jsstring)) :=
  fold_left add_cupsPacDates regs [].

(** The default [sort()] of an array of strings: by code units. *)
Fixpoint str_leb (a b : jsstring) : bool :=
  match a, b with
  | [], _ => true
  | _ :: _, [] => false
  | x :: a', y :: b' => (x <? y) || (cu_eqb x y && str_leb a' b')
  end.

Fixpoint insert_str (x : jsstring) (l : list jsstring) : list jsstring :=
  match l with
  | [] => [x]
  | y :: l' => if str_leb x y then x :: l else y :: insert_str x l'
  end.

Definition sort_str (l : list jsstring) : list jsstring :=
  fold_right insert_str [] l.

(** A row of the ranking.  [PacienteTop_Edad] and
    [PacienteTop_GrupoEtario] are [edadDetallada(fn)] and
    [grupoEtarioDesdeFN(fn)] of the birth date [PacienteTop_fn] kept
    here. *)
Record RankingCupsItem : Type := {
  CUPS : jsstring;
  Nombre : jsstring;
  TipoSer : jsstring;
  Cantidad : nat;
  PacienteTop : jsstring;
  PacienteTop_Cant : nat;
  PacienteTop_Nombre : jsstring;
  PacienteTop_Sexo : jsstring;
  PacienteTop_fn : jsstring;
  PacienteTop_Fechas : jsstring
}.

(** [cupsPacCount[code] || {}] *)
Definition pacs_of (o : JsObj.t (JsObj.t nat)) (code : jsstring) : JsObj.t nat :=
  match JsObj.get o code with
  | Some x => x
  | None => []
  end.

(** [Object.entries(pacs).sort((a,b) => b[1] - a[1])[0]] *)
Definition topPacEntry (pacs : JsObj.t nat) : option (jsstring * nat) :=
  hd_error (Sort.sort_desc snd (JsObj.entries pacs)).

Definition ranking_row (umap : JsMap.t UserRecord)
    (pacCount : JsObj.t (JsObj.t nat))
    (pacDates : JsObj.t (JsObj.t (list jsstring)))
    (e : jsstring * CupsInfo) : RankingCupsItem :=
  let (code, info) := e in
  let top := topPacEntry (pacs_of pacCount code) in
  let topPid := match top with Some t => fst t | None => [] end in
  let topCnt := match top with Some t => snd t | None => O end in
  let user := JsMap.get umap topPid in
  let datesSet :=
    match JsObj.get pacDates code with
    | Some x => match JsObj.get x topPid with Some d => d | None => [] end
    | None => []
    end in
  {| CUPS := code; Nombre := i_name info; TipoSer := i_type info;
     Cantidad := i_count info;
     PacienteTop := topPid; PacienteTop_Cant := topCnt;
     PacienteTop_Nombre := match user with Some u => u_nombre u | None => [] end;
     PacienteTop_Sexo := match user with Some u => u_sexo u | None => [] end;
     PacienteTop_fn := match user with Some u => u_fnac u | None => [] end;
     PacienteTop_Fechas := join (lit ", ") (sort_str datesSet) |}.

(** [Object.entries(cupsCount).map(...)], the rows before the sort. *)
Definition unsorted_rows (metas : list ServiceTypeMeta)
    (umap : JsMap.t UserRecord) (regs : list RipsRecord) :
    list RankingCupsItem :=
  let fr := filteredRegistros metas regs in
  List.map (ranking_row umap (cupsPacCount fr) (cupsPacDates fr))
           (JsObj.entries (cupsCount fr)).

Definition rankingCUPS (metas : list ServiceTypeMeta)
    (umap : JsMap.t UserRecord) (regs : list RipsRecord) :
    list RankingCupsItem :=
  Sort.sort_desc Cantidad (unsorted_rows metas umap regs).

(** The distinct values of a list in the order of their first occurrence. *)
Definition first_seen (xs : list jsstring) : list jsstring :=
  fold_left set_add xs [].

End App.

(* ================================================================= *)
(** ** src/App.tsx: the earlier [App] and its explicit section marker *)

Module AppTsx.
Import Js Regex Logic.
Local Open Scope N_scope.

(** The class [[A-ZÁÉÍÓÚÑ_ ]] under the i flag. *)
Definition is_nombre_seccion (c : cu) : bool :=
  is_upper c || is_lower c || cu_eqb c 95 || cu_eqb c 32
  || existsb (fun k => cu_eqb c k || cu_eqb c (k + 32))
             [193; 201; 205; 211; 218; 209].

(** [/°----\s*ARCHIVO-([A-ZÁÉÍÓÚÑ_ ]+)\s*----°\|/i] *)
Definition rxSec : regex :=
  Seq (word same (176 :: lit "----"))
  (Seq (at_least is_space 0)
  (Seq (word anycase (lit "ARCHIVO"))
  (Seq (ch 45)
  (Seq (Grp 1 (at_least is_nombre_seccion 1))
  (Seq (at_least is_space 0)
       (word same (lit "----" ++ [176; 124]))))))).

(** [/^(?:CC|TI|RC|CE|PA|PE|CN|MS)?-?\d{4,20}$/i] *)
Definition rx_idCand : regex :=
  Seq Bol (Seq (Opt (alts (List.map (word anycase) doc_prefixes)))
          (Seq (Opt (ch 45)) (Seq (between is_digit 4 20) Eol))).

(** [/^\d/] *)
Definition rx_leading_digit : regex := Seq Bol (Chr is_digit).

Definition idCand_of (parts : list jsstring) : jsstring :=
  or_else (find_or_empty (test rx_idCand) parts) (nth 1 parts []).

Definition posiblesNombre (parts : list jsstring) : list jsstring :=
  filter (fun p => test App.rx_letra p && negb (test App.rx_sexo p)
                   && negb (test rx_leading_digit p))
         parts.

Definition procesar_usuario (parts : list jsstring)
    (m : JsMap.t App.UserRecord) : JsMap.t App.UserRecord :=
  let id := normalizeId (Some (idCand_of parts)) in
  if negb (truthy id) then m
  else App.merge_usuario m id (App.sexo_of parts) (App.fnac_of parts)
         (join [32] (firstn 4 (posiblesNombre parts))).

(** One turn of the loop over the lines in this version: the section is
    whatever the last marker named. *)
Definition process_line (cupsMap : JsMap.t App.MaestroCupItem)
    (st : App.Loop) (raw : jsstring) : App.Loop :=
  let l := trim raw in
  if negb (truthy l) then st
  else
    match search rxSec l with
    | Some ms =>
        App.set_section (toUpperCaseL1 (trim (cap_or_empty 1 ms))) st
    | None =>
        if negb (includes l [124]) then st
        else
          let parts := List.map trim (split_on 124 l) in
          if (List.length parts <? 2)%nat then st
          else if includes (App.section st) App.USUARIOS
          then {| App.section := App.section st;
                  App.newRegistros := App.newRegistros st;
                  App.newUsuariosMap :=
                    procesar_usuario parts (App.newUsuariosMap st) |}
          else
            match App.procesar_servicio cupsMap l with
            | None => st
            | Some r => {| App.section := App.section st;
                           App.newRegistros := App.newRegistros st ++ [r];
                           App.newUsuariosMap := App.newUsuariosMap st |}
            end
    end.

End AppTsx.

(* ================================================================= *)
(** ** Sample inputs *)

Module Samples.
Import Js Regex Logic App.
Local Open Scope N_scope.

Definition catalogo : list MaestroRow :=
  [ {| CUPS_VIGENTE := lit "890201"; Tipo_Ser := lit "CONSULTA";
       NOMBRE_CUPS := lit "CONSULTA DE PRIMERA VEZ" |} ].

Definition cupsMap : JsMap.t MaestroCupItem := build_cupsMap catalogo.

Definition en_servicios : Loop :=
  {| section := SERVICIOS; newRegistros := []; newUsuariosMap := [] |}.

Definition en_usuarios : Loop :=
  {| section := USUARIOS; newRegistros := []; newUsuariosMap := [] |}.

Definition sin_seccion : Loop :=
  {| section := []; newRegistros := []; newUsuariosMap := [] |}.

(** A service-section line that has the shape of a roster line, and a plain
    service line. *)
Definition linea_con_forma_de_usuario : jsstring :=
  lit "1|CC|12345678|F|1990-01-01|ANA MARIA".
Definition linea_de_servicio : jsstring := lit "CC-12345678|890201|x".

(** The explicit marker of [src/App.tsx] for a section OTROS, and a starred
    roster header. *)
Definition marcador_otros : jsstring :=
  176 :: lit "----ARCHIVO-OTROS----" ++ [176; 124].
Definition encabezado_usuarios : jsstring := lit "*** USUARIOS ***".

Definition servicio (c p f : string) : RipsRecord :=
  {| cups := lit c; paciente := lit p; tipo := lit "CONSULTA";
     nombre := lit "CONSULTA DE PRIMERA VEZ"; fecha := lit f |}.

(** The records A and B of the remediation example. *)
Definition reg_A : RipsRecord := servicio "100001" "1" "2024-01-01".
Definition reg_B : RipsRecord := servicio "100001" "1" "2024-01-02".

Definition estado_vacio : AppState :=
  {| registros := []; usuariosMap := []; maestro := []; message := None;
     showDuplicates := false |}.

Definition estado_previo : AppState :=
  {| registros := [reg_A; reg_A; reg_B];
     usuariosMap := [(lit "1", {| u_id := lit "1"; u_sexo := lit "F";
                                  u_fnac := lit "1990-01-01";
                                  u_nombre := lit "ANA" |})];
     maestro := []; message := None; showDuplicates := true |}.

Definition archivo_legible : RipsFile :=
  {| f_name := lit "AC001.txt";
     f_text := Returns (lit "CC-12345678|890201|2024-02-03") |}.
Definition archivo_ilegible : RipsFile :=
  {| f_name := lit "US001.txt"; f_text := Throws |}.

(** Two codes seen in the order 200000, 100000, two records each; the
    patients of 200000 seen in the order 9, 5. *)
Definition metas_activas : list ServiceTypeMeta :=
  [ {| type := lit "CONSULTA"; monthlyGoal := 10; active := true |} ].
Definition registros_empatados : list RipsRecord :=
  [ servicio "200000" "9" "2024-01-01"; servicio "200000" "5" "2024-01-02";
    servicio "100000" "7" "2024-01-03"; servicio "100000" "7" "2024-01-04" ].

(** Two roster lines for one identifier, already split. *)
Definition usuario_1 : list jsstring :=
  List.map lit ["US"; "12345678"; "F"; "1990-01-01"; "ANA MARIA"]%string.
Definition usuario_2 : list jsstring :=
  [lit "US"; lit "12345678"; []; []; lit "ANA MARIA PEREZ"].

(** A host whose [Date] reads two birth dates, and a day to stand for
    today: 10 March 2024. *)
Definition Date_de_muestra (fn : jsstring) : option LocalDate :=
  if str_eqb fn (lit "2019-03-15")
  then Some {| fullYear := 2019; month := 2; date := 15 |}
  else if str_eqb fn (lit "2019-02-15")
  then Some {| fullYear := 2019; month := 1; date := 15 |}
  else None.
Definition hoy_de_muestra : LocalDate :=
  {| fullYear := 2024; month := 2; date := 10 |}.

(** A marker line of [src/App.tsx] that names the roster. *)
Definition marcador_usuarios : jsstring :=
  176 :: lit "----ARCHIVO-USUARIOS----" ++ [176; 124].

(** The record the plain service line gives. *)
Definition registro_de_servicio : RipsRecord :=
  {| cups := lit "890201"; paciente := lit "12345678"; tipo := lit "CONSULTA";
     nombre := lit "CONSULTA DE PRIMERA VEZ"; fecha := [] |}.

End Samples.

(* ================================================================= *)
(** ** src/utils/logic.ts: [diffDays] and [edadDetallada] *)

Module Edad.
Import Js Regex Logic.
Local Open Scope Z_scope.

(** [Math.floor((b.getTime() - a.getTime()) / 86400000)] on the
    millisecond counts of two dates.  For counts of magnitude up to 2^51
    the difference and the floor of the quotient are exact in double
    precision, so the integer quotient is what the code computes. *)
Definition diffDays (a b : Z) : Z := (b - a) / 86400000.

(** A non-negative integer in a template or a concatenation: its decimal
    digits. *)
Definition dec (n : Z) : jsstring :=
  lit (NilZero.string_of_uint (N.to_uint (Z.to_N n))).

Definition DIAS : jsstring := Eval cbv in 32%N :: 100%N :: 237%N :: lit "as".
Definition MESES : jsstring := Eval cbv in lit " meses".
Definition ANIOS : jsstring := Eval cbv in 32%N :: 97%N :: 241%N :: lit "os".

Section Detallada.

(** [new Date(fn).getTime()], [None] when it is NaN, and
    [new Date().getTime()]. *)
Variable Date_getTime : jsstring -> option Z.
Variable ahora : Z.

(** [Math.floor(days / 30.4375)]: the divisor is 487/16 exactly, and the
    floor of the double quotient is the integer quotient of [16 * days] by
    487 for every day count the first step can give. *)
Definition edadDetallada (fn : jsstring) : jsstring :=
  if negb (truthy fn) then []
  else match Date_getTime fn with
       | None => []
       | Some f =>
           let days := diffDays f ahora in
           if days <? 0 then []
           else if days <? 30 then dec days ++ DIAS
           else
             let months := (16 * days) / 487 in
             if months <? 24 then dec months ++ MESES
             else
               let years := months / 12 in
               let remM := months mod 12 in
               dec years ++ ANIOS
               ++ (if remM =? 0 then [] else [32%N] ++ dec remM ++ MESES)
       end.

End Detallada.

End Edad.

(* ================================================================= *)
(** ** src/unnamed/part_000: the other handlers and views *)

Module Views.
Import Js Regex Logic App.
Local Open Scope N_scope.

(** *** [handleRemoveDuplicate] *)

(** [r.field === x] where [x] is an element of a destructured array:
    [None] is [undefined], which no field equals. *)
Definition field_is (field : jsstring) (x : option jsstring) : bool :=
  match x with
  | Some s => str_eqb field s
  | None => false
  end.

(** The test of the callback, for [[pat, cup, date] = dupId.split('|')]. *)
Definition is_target (dupId : jsstring) (r : RipsRecord) : bool :=
  let parts := split_on 124 dupId in
  field_is (paciente r) (nth_error parts 0)
  && field_is (cups r) (nth_error parts 1)
  && field_is (fecha r) (nth_error parts 2).

(** [registros.filter(...)] with the flag [keptOne] and the counter
    [removedCount] of the closure. *)
Fixpoint filter_kept (target : RipsRecord -> bool) (keptOne : bool)
    (removedCount : nat) (rs : list RipsRecord) : list RipsRecord * nat :=
  match rs with
  | [] => ([], removedCount)
  | r :: rs' =>
      if target r then
        if negb keptOne
        then let (kept, n) := filter_kept target true removedCount rs' in
             (r :: kept, n)
        else filter_kept target keptOne (S removedCount) rs'
      else let (kept, n) := filter_kept target keptOne removedCount rs' in
           (r :: kept, n)
  end.

(** What [handleRemoveDuplicate] gives to [setRegistros] and the number its
    message reports. *)
Definition removeDuplicate (dupId : jsstring) (rs : list RipsRecord) :
    list RipsRecord * nat :=
  filter_kept (is_target dupId) false 0 rs.

(** *** [duplicatesList] *)

Record DupEntry : Type := {
  d_count : nat;
  d_record : RipsRecord
}.

Definition add_duplicate (m : JsMap.t DupEntry) (r : RipsRecord) :
    JsMap.t DupEntry :=
  match JsMap.get m (dupKey r) with
  | Some currDup =>
      JsMap.set m (dupKey r)
        {| d_count := S (d_count currDup); d_record := d_record currDup |}
  | None => JsMap.set m (dupKey r) {| d_count := 1; d_record := r |}
  end.

Definition duplicateMap (fr : list RipsRecord) : JsMap.t DupEntry :=
  fold_left add_duplicate fr [].

Record DuplicateItem : Type := {
  dup_id : jsstring;
  dup_paciente : jsstring;
  dup_nombre_paciente : jsstring;
  dup_cups : jsstring;
  dup_nombre_cups : jsstring;
  dup_fecha : jsstring;
  repeticiones : nat
}.

Definition NO_REGISTRADO : jsstring := Eval cbv in lit "NO REGISTRADO".

(** [u?.nombre || "NO REGISTRADO"] *)
Definition nombre_o_no_registrado (u : option UserRecord) : jsstring :=
  or_else (match u with Some u => u_nombre u | None => [] end) NO_REGISTRADO.

Definition duplicate_items (umap : JsMap.t UserRecord)
    (e : jsstring * DupEntry) : list DuplicateItem :=
  let (key, val) := e in
  if (1 <? d_count val)%nat
  then [ {| dup_id := key;
            dup_paciente := paciente (d_record val);
            dup_nombre_paciente :=
              nombre_o_no_registrado
                (JsMap.get umap (paciente (d_record val)));
            dup_cups := cups (d_record val);
            dup_nombre_cups := nombre (d_record val);
            dup_fecha := fecha (d_record val);
            repeticiones := d_count val |} ]
  else [].

Definition duplicatesList (metas : list ServiceTypeMeta)
    (umap : JsMap.t UserRecord) (regs : list RipsRecord) :
    list DuplicateItem :=
  flat_map (duplicate_items umap)
           (duplicateMap (filteredRegistros metas regs)).

(** *** [rankingPacientes] *)

(** [pacCount[r.paciente]] *)
Definition add_pacCount (o : JsObj.t nat) (r : RipsRecord) : JsObj.t nat :=
  let n := match JsObj.get o (paciente r) with Some n => n | None => O end in
  JsObj.set o (paciente r) (S n).

Record PacMeta : Type := {
  pm_dates : list jsstring;
  pm_cups : list jsstring
}.

(** [pacMeta[r.paciente]], with the two pushes. *)
Definition add_pacMeta (o : JsObj.t PacMeta) (r : RipsRecord) : JsObj.t PacMeta :=
  let pm := match JsObj.get o (paciente r) with
            | Some pm => pm
            | None => {| pm_dates := []; pm_cups := [] |}
            end in
  JsObj.set o (paciente r)
    {| pm_dates := pm_dates pm ++ [fecha r]; pm_cups := pm_cups pm ++ [cups r] |}.

Definition pacCount (fr : list RipsRecord) : JsObj.t nat :=
  fold_left add_pacCount fr [].
Definition pacMeta (fr : list RipsRecord) : JsObj.t PacMeta :=
  fold_left add_pacMeta fr [].

(** A row of the patient ranking.  [Edad] and [GrupoEtario] are
    [edadDetallada(fn) || "-"] and [grupoEtarioDesdeFN(fn) || "-"] of the
    birth date [Paciente_fn] kept here. *)
Record RankingPatientItem : Type := {
  PacienteId : jsstring;
  Pac_Nombre : jsstring;
  Pac_Sexo : jsstring;
  Paciente_fn : jsstring;
  TotalAtenciones : nat;
  ListaCUPS : list jsstring;
  ListaFechas : list jsstring
}.

Definition patient_row (umap : JsMap.t UserRecord) (meta : JsObj.t PacMeta)
    (e : jsstring * nat) : RankingPatientItem :=
  let (pid, count) := e in
  let user := JsMap.get umap pid in
  let pMeta := match JsObj.get meta pid with
               | Some pm => pm
               | None => {| pm_dates := []; pm_cups := [] |}
               end in
  {| PacienteId := pid;
     Pac_Nombre := nombre_o_no_registrado user;
     Pac_Sexo := or_else (match user with Some u => u_sexo u | None => [] end) [45];
     Paciente_fn := match user with Some u => u_fnac u | None => [] end;
     TotalAtenciones := count;
     ListaCUPS := pm_cups pMeta;
     ListaFechas := pm_dates pMeta |}.

Definition rankingPacientes (metas : list ServiceTypeMeta)
    (umap : JsMap.t UserRecord) (regs : list RipsRecord) :
    list RankingPatientItem :=
  let fr := filteredRegistros metas regs in
  Sort.sort_desc TotalAtenciones
    (List.map (patient_row umap (pacMeta fr)) (JsObj.entries (pacCount fr))).

(** *** The top-line figures *)

Record ProcessingStats : Type := {
  totalActivities : nat;
  totalPatients : nat;
  topCupsCode : jsstring;
  topCupsName : jsstring;
  topCupsCount : nat;
  topPatientId : jsstring;
  topPatientName : jsstring;
  topPatientCount : nat
}.

(** The em dash U+2014 shown when there is no top row. *)
Definition RAYA : jsstring := [8212].

Definition stats (metas : list ServiceTypeMeta) (umap : JsMap.t UserRecord)
    (regs : list RipsRecord) : ProcessingStats :=
  let topCup := hd_error (rankingCUPS metas umap regs) in
  let topPat := hd_error (rankingPacientes metas umap regs) in
  {| totalActivities := List.length (filteredRegistros metas regs);
     totalPatients := JsMap.size umap;
     topCupsCode := or_else (match topCup with Some c => CUPS c | None => [] end) RAYA;
     topCupsName := match topCup with Some c => Nombre c | None => [] end;
     topCupsCount := match topCup with Some c => Cantidad c | None => O end;
     topPatientId :=
       or_else (match topPat with Some p => PacienteId p | None => [] end) RAYA;
     topPatientName := match topPat with Some p => Pac_Nombre p | None => [] end;
     topPatientCount := match topPat with Some p => TotalAtenciones p | None => O end |}.

(** *** Pagination *)

Definition ITEMS_PER_PAGE : nat := 20.

(** [Math.ceil(length / ITEMS_PER_PAGE)] *)
Definition totalPages {A} (l : list A) : nat :=
  (List.length l + (ITEMS_PER_PAGE - 1)) / ITEMS_PER_PAGE.

(** [l.slice(start, end)]: a negative bound counts from the end, and both
    are clamped to the array. *)
Definition slice {A} (l : list A) (start fin : Z) : list A :=
  let len := Z.of_nat (List.length l) in
  let k := if (start <? 0)%Z then Z.max (len + start) 0 else Z.min start len in
  let final := if (fin <? 0)%Z then Z.max (len + fin) 0 else Z.min fin len in
  firstn (Z.to_nat (final - k)) (skipn (Z.to_nat k) l).

Definition currentData {A} (l : list A) (page : Z) : list A :=
  slice l ((page - 1) * Z.of_nat ITEMS_PER_PAGE) (page * Z.of_nat ITEMS_PER_PAGE).

(** The two buttons: [Math.max(1, p - 1)] and [Math.min(totalPages, p + 1)]. *)
Definition prevPage (p : Z) : Z := Z.max 1 (p - 1).
Definition nextPage (total : nat) (p : Z) : Z := Z.min (Z.of_nat total) (p + 1).

(** When the second button is disabled: [page === totalPages] in the two
    rankings, and also [totalPages === 0] in the list of records. *)
Definition next_disabled (total : nat) (p : Z) : bool := (p =? Z.of_nat total)%Z.
Definition next_disabled_rips (total : nat) (p : Z) : bool :=
  (p =? Z.of_nat total)%Z || (total =? 0)%nat.

(** *** The session *)

(** [Array.from(usuariosMap.values())], what [handleSaveSession] stores,
    and the map [initData] builds back from the stored list. *)
Definition usuarios_values (m : JsMap.t UserRecord) : list UserRecord :=
  List.map snd m.

Definition rehydrate (us : list UserRecord) : JsMap.t UserRecord :=
  fold_left (fun uMap u => JsMap.set uMap (u_id u) u) us [].

(** *** The exports *)

(** [p.ListaCUPS.join("\n")] *)
Definition export_list (xs : list jsstring) : jsstring := join [10] xs.

Section Organizados.

Variable toUpperCase : jsstring -> jsstring.

Definition es_consulta (t : jsstring) : bool :=
  includes t (lit "CONSULTA") || includes t (lit "MEDICINA GENERAL")
  || includes t (lit "ESPECIALIZADA") || includes t (lit "URGENCIA").

Definition es_procedimiento (t : jsstring) : bool :=
  includes t (lit "LABORATORIO") || includes t (lit "IMAGEN")
  || includes t (lit "ODONTOLOGIA") || includes t (lit "PROCEDIMIENTO")
  || includes t (lit "QUIRURGICO") || includes t (lit "APOYO").

(** The three arrays of [handleExportRipsOrganizados] after the loop over
    [registros]; a row carries the fields of its record. *)
Record Hojas : Type := {
  consultas : list RipsRecord;
  procedimientos : list RipsRecord;
  otros : list RipsRecord
}.

Definition repartir (h : Hojas) (r : RipsRecord) : Hojas :=
  let t := toUpperCase (tipo r) in
  if es_consulta t
  then {| consultas := consultas h ++ [r]; procedimientos := procedimientos h;
          otros := otros h |}
  else if es_procedimiento t
  then {| consultas := consultas h; procedimientos := procedimientos h ++ [r];
          otros := otros h |}
  else {| consultas := consultas h; procedimientos := procedimientos h;
          otros := otros h ++ [r] |}.

Definition organizar (regs : list RipsRecord) : Hojas :=
  fold_left repartir regs
    {| consultas := []; procedimientos := []; otros := [] |}.

End Organizados.

End Views.

(* ================================================================= *)
(** ** Shapes of the extracted values *)

Module Shapes.
Import Js Regex Logic App.
Local Open Scope N_scope.

(** A string read against a list of character classes, one per position. *)
Fixpoint has_shape (sh : list (cu -> bool)) (d : jsstring) : bool :=
  match sh, d with
  | [], [] => true
  | p :: sh', c :: d' => p c && has_shape sh' d'
  | _, _ => false
  end.

(** YYYY-MM-DD and DD/MM/YYYY. *)
Definition iso_shape : list (cu -> bool) :=
  repeat is_digit 4 ++ [same 45] ++ repeat is_digit 2 ++ [same 45]
  ++ repeat is_digit 2.
Definition dmy_shape : list (cu -> bool) :=
  repeat is_digit 2 ++ [same 47] ++ repeat is_digit 2 ++ [same 47]
  ++ repeat is_digit 4.

Definition is_date (d : jsstring) : bool :=
  has_shape iso_shape d || has_shape dmy_shape d.

(** The catalog row that decides a code: the last one that carries it. *)
Definition last_row (rows : list MaestroRow) (c : jsstring) : option MaestroRow :=
  find (fun x => str_eqb (trim (CUPS_VIGENTE x)) c) (rev rows).

Definition item_of_row (x : MaestroRow) : MaestroCupItem :=
  {| c_cups := trim (CUPS_VIGENTE x); c_tipo := trim (Tipo_Ser x);
     c_nombre := trim (NOMBRE_CUPS x) |}.

(** A service record as the extractor writes it. *)
Definition record_ok (r : RipsRecord) : bool :=
  has_shape (repeat is_digit 6) (cups r)
  && forallb is_upnum (paciente r) && truthy (paciente r)
  && (negb (truthy (fecha r)) || is_date (fecha r)).

(** A roster entry as the extractor writes it, under its own identifier. *)
Definition sexo_ok (s : jsstring) : bool :=
  negb (truthy s) || str_eqb s [77] || str_eqb s [70].

Definition usuario_ok (e : jsstring * UserRecord) : bool :=
  str_eqb (u_id (snd e)) (fst e)
  && forallb is_upnum (fst e) && (3 <=? List.length (fst e))%nat
  && sexo_ok (u_sexo (snd e))
  && (negb (truthy (u_fnac (snd e))) || is_date (u_fnac (snd e))).

Definition roster_ok (m : JsMap.t UserRecord) : Prop :=
  NoDup (List.map fst m) /\ forallb usuario_ok m = true.

(** One roster keeps what another knows: every patient stays, and no field
    that had a value loses it. *)
Definition keeps (m m' : JsMap.t UserRecord) : Prop :=
  forall id u, JsMap.get m id = Some u ->
    exists u', JsMap.get m' id = Some u'
      /\ (truthy (u_sexo u) = true -> truthy (u_sexo u') = true)
      /\ (truthy (u_fnac u) = true -> truthy (u_fnac u') = true)
      /\ (truthy (u_nombre u) = true -> truthy (u_nombre u') = true).

(** How many records carry a key, a code, a patient. *)
Definition count_if {A} (p : A -> bool) (l : list A) : nat :=
  List.length (filter p l).

Definition has_key (k : jsstring) (r : RipsRecord) : bool := str_eqb (dupKey r) k.
Definition has_code (c : jsstring) (r : RipsRecord) : bool := str_eqb (cups r) c.
Definition has_patient (p : jsstring) (r : RipsRecord) : bool :=
  str_eqb (paciente r) p.

(** The count the duplicate map holds for a key. *)
Definition dup_count (m : JsMap.t Views.DupEntry) (k : jsstring) : nat :=
  match JsMap.get m k with Some e => Views.d_count e | None => O end.

(** The names of the properties of [Object.prototype], which a plain
    object inherits. *)
Definition inherited_names : list jsstring :=
  List.map lit
    [ "constructor"; "hasOwnProperty"; "isPrototypeOf"; "propertyIsEnumerable";
      "toLocaleString"; "toString"; "valueOf"; "__proto__";
      "__defineGetter__"; "__defineSetter__"; "__lookupGetter__";
      "__lookupSetter__" ]%string.

Definition own_key (k : jsstring) : bool :=
  negb (existsb (str_eqb k) inherited_names).

(** The order of the default [sort()] on strings: [a] comes no later than
    [b] when [a] is the beginning of [b], or when at the first place where
    they differ the code unit of [a] is the smaller. *)
Definition code_unit_le (a b : jsstring) : Prop :=
  (exists t, b = a ++ t)
  \/ (exists p x y a' b', a = p ++ x :: a' /\ b = p ++ y :: b' /\ x < y).

End Shapes.

(** Further sample data: the audit item of the repeated record A. *)
Module MoreSamples.
Import Js Regex Logic App Views.
Local Open Scope N_scope.

Definition registros_repetidos : list RipsRecord :=
  [Samples.reg_A; Samples.reg_A; Samples.reg_B].

Definition duplicado_A : DuplicateItem :=
  {| dup_id := dupKey Samples.reg_A;
     dup_paciente := paciente Samples.reg_A;
     dup_nombre_paciente := NO_REGISTRADO;
     dup_cups := cups Samples.reg_A;
     dup_nombre_cups := nombre Samples.reg_A;
     dup_fecha := fecha Samples.reg_A;
     repeticiones := 2 |}.

(** A roster of one patient whose birth date is not known, and a roster
    file that completes her entry and brings a second patient. *)
Definition roster_previo : JsMap.t UserRecord :=
  [(lit "12345678", {| u_id := lit "12345678"; u_sexo := lit "F";
                       u_fnac := []; u_nombre := lit "ANA" |})].

Definition estado_con_roster : AppState :=
  {| registros := []; usuariosMap := roster_previo; maestro := [];
     message := None; showDuplicates := false |}.

Definition archivo_usuarios : RipsFile :=
  {| f_name := lit "US001.txt";
     f_text := Returns (lit "CC|12345678||1990-01-01|ANA MARIA" ++ [10]
                        ++ lit "TI|87654321|M|2010-05-06|LUIS") |}.

(** Three records of one patient and one code, the later date first. *)
Definition registros_desordenados : list RipsRecord :=
  [ Samples.servicio "100000" "7" "2024-01-04";
    Samples.servicio "100000" "7" "2024-01-03";
    Samples.servicio "100000" "7" "2024-01-04" ].

End MoreSamples.

(* ================================================================= *)
(** * Properties *)

Import Js Regex Logic App.
Local Open Scope N_scope.

(** ** Strings *)

Lemma str_eqb_eq a b : str_eqb a b = true <-> a = b.
Proof.
  revert b; induction a as [|x a IH]; intros [|y b]; simpl; split;
    try congruence; try reflexivity.
  - intros H. apply andb_true_iff in H as [H1 H2].
    apply N.eqb_eq in H1. apply IH in H2. congruence.
  - intros H. inversion H; subst. apply andb_true_iff. split.
    + apply N.eqb_refl.
    + apply IH. reflexivity.
Qed.

Lemma str_eqb_refl a : str_eqb a a = true.
Proof. apply str_eqb_eq. reflexivity. Qed.

Lemma str_eqb_neq a b : str_eqb a b = false <-> a <> b.
Proof.
  split.
  - intros H E. apply str_eqb_eq in E. congruence.
  - intros H. destruct (str_eqb a b) eqn:E; [|reflexivity].
    apply str_eqb_eq in E. contradiction.
Qed.


(** ** Keyed collections and the sort *)

Lemma str_eqb_sym a b : str_eqb a b = str_eqb b a.
Proof.
  destruct (str_eqb a b) eqn:E.
  - apply str_eqb_eq in E. subst. symmetry. apply str_eqb_refl.
  - symmetry. apply str_eqb_neq. apply str_eqb_neq in E. congruence.
Qed.

Lemma JsMap_get_set {V} (m : JsMap.t V) k v k' :
  JsMap.get (JsMap.set m k v) k' = if str_eqb k k' then Some v else JsMap.get m k'.
Proof.
  induction m as [|[k0 v0] m IH]; cbn [JsMap.set JsMap.get].
  - reflexivity.
  - destruct (str_eqb k0 k) eqn:E0.
    + apply str_eqb_eq in E0. subst k0. cbn [JsMap.get].
      destruct (str_eqb k k'); reflexivity.
    + cbn [JsMap.get]. destruct (str_eqb k0 k') eqn:E1.
      * apply str_eqb_eq in E1. subst k'. rewrite str_eqb_sym, E0. reflexivity.
      * exact IH.
Qed.

Lemma JsMap_keys_set {V} (m : JsMap.t V) k v :
  List.map fst (JsMap.set m k v) = set_add (List.map fst m) k.
Proof.
  unfold set_add. induction m as [|[k0 v0] m IH]; cbn [JsMap.set List.map fst existsb].
  - reflexivity.
  - rewrite (str_eqb_sym k k0). destruct (str_eqb k0 k); cbn [List.map fst orb].
    + reflexivity.
    + rewrite IH. destruct (existsb (str_eqb k) (List.map fst m)); reflexivity.
Qed.

Section SortFacts.
Context {A : Type} (key : A -> nat).

Lemma insert_desc_In x y l : In y (Sort.insert_desc key x l) <-> y = x \/ In y l.
Proof.
  induction l as [|z l IH]; cbn [Sort.insert_desc].
  - cbn. intuition.
  - destruct (key x <? key z)%nat; cbn [In]; [|intuition congruence].
    destruct IH as [I1 I2]. split.
    + intros [H|H]; [auto|]. destruct (I1 H); auto.
    + intros [H|[H|H]]; auto.
Qed.

Lemma sort_desc_In y l : In y (Sort.sort_desc key l) <-> In y l.
Proof.
  induction l as [|x l IH]; [cbn; tauto|].
  cbn [Sort.sort_desc fold_right In]. destruct IH as [I1 I2]. split.
  - intros H. apply insert_desc_In in H as [H|H]; auto.
  - intros [H|H]; apply insert_desc_In; auto.
Qed.

Lemma insert_desc_sorted x l :
  StronglySorted (fun a b => (key b <= key a)%nat) l ->
  StronglySorted (fun a b => (key b <= key a)%nat) (Sort.insert_desc key x l).
Proof.
  induction 1 as [|z l S IH F]; cbn [Sort.insert_desc].
  - constructor; constructor.
  - destruct (key x <? key z)%nat eqn:E.
    + constructor; [exact IH|]. apply Forall_forall. intros y Hy.
      apply insert_desc_In in Hy as [->|Hy].
      * apply Nat.ltb_lt in E. lia.
      * rewrite Forall_forall in F. auto.
    + apply Nat.ltb_ge in E. constructor; [constructor; assumption|].
      constructor; [exact E|]. apply Forall_forall. intros y Hy.
      rewrite Forall_forall in F. specialize (F y Hy). lia.
Qed.

Lemma sort_desc_sorted l :
  StronglySorted (fun a b => (key b <= key a)%nat) (Sort.sort_desc key l).
Proof.
  induction l as [|x l IH]; cbn; [constructor|]. apply insert_desc_sorted. exact IH.
Qed.

Lemma filter_insert_desc n x l :
  filter (fun y => Nat.eqb (key y) n) (Sort.insert_desc key x l)
  = filter (fun y => Nat.eqb (key y) n) (x :: l).
Proof.
  induction l as [|z l IH]; [reflexivity|].
  cbn [Sort.insert_desc]. destruct (key x <? key z)%nat eqn:E; [|reflexivity].
  cbn [filter] in *. rewrite IH. apply Nat.ltb_lt in E.
  destruct (Nat.eqb (key x) n) eqn:X, (Nat.eqb (key z) n) eqn:Z; try reflexivity.
  apply Nat.eqb_eq in X, Z. lia.
Qed.

(** The sort is stable: the elements of any one key keep their order. *)
Lemma filter_sort_desc n l :
  filter (fun y => Nat.eqb (key y) n) (Sort.sort_desc key l)
  = filter (fun y => Nat.eqb (key y) n) l.
Proof.
  induction l as [|x l IH]; [reflexivity|].
  cbn [Sort.sort_desc fold_right]. rewrite filter_insert_desc.
  cbn [filter]. unfold Sort.sort_desc in IH. rewrite IH. reflexivity.
Qed.

Lemma find_hd_filter (p : A -> bool) l : find p l = hd_error (filter p l).
Proof.
  induction l as [|x l IH]; [reflexivity|]. cbn. destruct (p x); [reflexivity|exact IH].
Qed.

(** The head of the sorted array is the first element of greatest key. *)
Lemma sort_desc_hd l x :
  hd_error (Sort.sort_desc key l) = Some x ->
  (forall y, In y l -> (key y <= key x)%nat)
  /\ find (fun y => Nat.eqb (key y) (key x)) l = Some x.
Proof.
  intros H. pose proof (sort_desc_sorted l) as S.
  pose proof (filter_sort_desc (key x) l) as F.
  destruct (Sort.sort_desc key l) as [|z t] eqn:E; [discriminate|].
  cbn in H. inversion H; subst z. split.
  - intros y Hy. apply sort_desc_In in Hy. rewrite E in Hy.
    destruct Hy as [<-|Hy]; [lia|].
    inversion S as [|? ? _ Fa]; subst. rewrite Forall_forall in Fa. auto.
  - rewrite find_hd_filter, <- F. cbn. rewrite Nat.eqb_refl. reflexivity.
Qed.

End SortFacts.

(** ** The matcher *)

Lemma exec_word f w : forall bef s cs,
  exec (word f w) (MState bef s cs) =
  match strip_word f w s with
  | Some rest => [MState (rev (firstn (List.length w) s) ++ bef) rest cs]
  | None => []
  end.
Proof.
  induction w as [|c w IH]; intros bef s cs.
  - reflexivity.
  - cbn [word exec strip_word after before caps].
    destruct s as [|x s]; [reflexivity|].
    destruct (f c x); [|reflexivity].
    cbn [flat_map]. rewrite IH, app_nil_r.
    destruct (strip_word f w s); [|reflexivity].
    cbn [List.length firstn rev]. rewrite <- app_assoc. reflexivity.
Qed.

Lemma exec_alts (rs : list regex) r st :
  exec (alts (r :: rs)) st = flat_map (fun x => exec x st) (r :: rs).
Proof.
  revert r; induction rs as [|r' rs IH]; intros r.
  - cbn. rewrite app_nil_r. reflexivity.
  - change (alts (r :: r' :: rs)) with (Alt r (alts (r' :: rs))).
    cbn [exec]. rewrite IH. reflexivity.
Qed.

Lemma strip_word_length f w : forall s rest,
  strip_word f w s = Some rest -> List.length s = (List.length w + List.length rest)%nat.
Proof.
  induction w as [|c w IH]; intros s rest H; cbn in H.
  - inversion H. reflexivity.
  - destruct s as [|x s]; [discriminate|].
    destruct (f c x); [|discriminate]. cbn. f_equal. apply IH. exact H.
Qed.

Lemma rep_star_hd p : forall bef cs s,
  exists e l, rep p 0 None bef cs s = e :: l /\ after e = dropWhile p s /\ caps e = cs.
Proof.
  intros bef cs s; revert bef; induction s as [|c s IH]; intros bef.
  - cbn. eauto.
  - cbn [rep dropWhile hi_allows hi_pred pred]. rewrite andb_true_r.
    destruct (p c).
    + destruct (IH (c :: bef)) as (e & l & E & A & C). rewrite E.
      exists e, (l ++ [MState bef (c :: s) cs]). auto.
    + cbn. eauto.
Qed.

Lemma exec_alts_words f cs bef s : forall ps,
  match strip_any f ps s with
  | None => flat_map (fun x => exec x (MState bef s cs)) (List.map (word f) ps) = []
  | Some rest => exists b l,
      flat_map (fun x => exec x (MState bef s cs)) (List.map (word f) ps)
      = MState b rest cs :: l
  end.
Proof.
  induction ps as [|p ps IH]; [reflexivity|].
  cbn [strip_any List.map flat_map]. rewrite exec_word.
  destruct (strip_word f p s) as [rest|].
  - cbn. eauto.
  - exact IH.
Qed.

Lemma search_from_eq r bef s :
  search_from r bef s =
  match exec r (MState bef s []) with
  | e :: _ => Some (RMatch bef (consumed (MState bef s []) e) (after e) (caps e))
  | [] => match s with
          | [] => None
          | c :: s' => search_from r (c :: bef) s'
          end
  end.
Proof. destruct s; reflexivity. Qed.

Lemma search_from_bol r c bef s : search_from (Seq Bol r) (c :: bef) s = None.
Proof.
  revert c bef; induction s as [|x s IH]; intros c bef; cbn; auto.
Qed.

Lemma remove_first_rx_prefix z : remove_first rx_prefix z = strip_prefix z.
Proof.
  unfold remove_first, strip_prefix, search.
  assert (E : exec rx_prefix (MState [] z []) =
              flat_map (exec (at_least is_sep 0))
                (List.map (fun st' => MState (before st') (after st')
                    ((1%nat, consumed (MState [] z []) st') :: caps st'))
                  (flat_map (fun x => exec x (MState [] z []))
                     (List.map (word anycase) doc_prefixes)))).
  { unfold rx_prefix. cbn [exec before flat_map]. rewrite app_nil_r.
    unfold doc_prefixes at 1. cbn [List.map]. rewrite exec_alts. reflexivity. }
  pose proof (exec_alts_words anycase [] [] z doc_prefixes) as H.
  destruct (strip_any anycase doc_prefixes z) as [rest|].
  - destruct H as (b & l & H). rewrite H in E. cbn [List.map flat_map] in E.
    cbn [exec at_least before after caps] in E.
    destruct (rep_star_hd is_sep b ((1%nat, consumed (MState [] z []) (MState b rest [])) :: []) rest)
      as (e & l' & R & A & _).
    unfold at_least in E. cbn [exec before after caps] in E. rewrite R in E.
    rewrite search_from_eq, E. cbn. rewrite A. reflexivity.
  - rewrite H in E. cbn [List.map flat_map] in E.
    rewrite search_from_eq, E.
    destruct z as [|c z]; [reflexivity|].
    unfold rx_prefix. rewrite search_from_bol. reflexivity.
Qed.

(** The ways of matching a repeated class are its runs of allowed length. *)
Lemma rep_In p e : forall s lo hi bef cs,
  In e (rep p lo hi bef cs s) <->
  exists m, s = m ++ after e /\ before e = rev m ++ bef /\ caps e = cs
            /\ forallb p m = true /\ (lo <= List.length m)%nat
            /\ hi_ok hi (List.length m).
Proof.
  induction s as [|c s IH]; intros lo hi bef cs.
  - cbn [rep app]. split.
    + destruct lo; [|intros []]. intros [<-|[]]. exists []. cbn.
      repeat split; auto. destruct hi; cbn; lia.
    + intros (m & E & B & C & F & L & H).
      destruct m; [|discriminate]. cbn in *.
      destruct lo; [|lia]. left. destruct e; cbn in *; subst. reflexivity.
  - cbn [rep]. rewrite in_app_iff. split.
    + intros [H|H].
      * destruct (p c) eqn:P; [|destruct H].
        destruct hi as [[|h]|]; cbn [hi_allows andb] in H; try destruct H.
        -- apply IH in H as (m & E & B & C & F & L & K).
           exists (c :: m). cbn. rewrite P, E, B, <- app_assoc. cbn in *.
           repeat split; auto; lia.
        -- apply IH in H as (m & E & B & C & F & L & K).
           exists (c :: m). cbn. rewrite P, E, B, <- app_assoc. cbn in *.
           repeat split; auto; lia.
      * destruct lo; [|destruct H]. destruct H as [<-|[]].
        exists []. cbn. repeat split; auto. destruct hi; cbn; lia.
    + intros (m & E & B & C & F & L & K). destruct m as [|x m].
      * right. cbn in *. destruct lo; [|lia]. left.
        destruct e; cbn in *; subst. reflexivity.
      * left. cbn in E, F, L, B. injection E as Ex Es. subst x.
        apply andb_true_iff in F as [P F]. rewrite P.
        assert (A : hi_allows hi = true).
        { destruct hi as [[|h]|]; cbn in *; auto; lia. }
        rewrite A. cbn [andb]. apply (proj2 (IH _ _ _ _)). exists m.
        rewrite <- app_assoc in B. cbn in B.
        repeat split; auto; [lia|].
        destruct hi as [h|]; cbn in *; [lia|exact I].
Qed.

(** Matching moves forward in the subject. *)
Lemma exec_span r : forall st e,
  In e (exec r st) ->
  exists m, after st = m ++ after e /\ before e = rev m ++ before st.
Proof.
  induction r; intros st e H; cbn [exec] in H.
  - destruct H as [<-|[]]. exists []. auto.
  - destruct (after st) as [|c s] eqn:A; [destruct H|].
    destruct (p c); [|destruct H]. destruct H as [<-|[]].
    exists [c]. cbn. auto.
  - apply in_flat_map in H as (e1 & H1 & H2).
    apply IHr1 in H1 as (m1 & A1 & B1). apply IHr2 in H2 as (m2 & A2 & B2).
    exists (m1 ++ m2). rewrite A1, A2, B2, B1, rev_app_distr, !app_assoc. auto.
  - apply in_app_iff in H as [H|H]; [apply IHr1|apply IHr2]; exact H.
  - apply in_app_iff in H as [H|H].
    + apply filter_In in H as [H _]. apply IHr. exact H.
    + destruct H as [<-|[]]. exists []. auto.
  - apply rep_In in H as (m & E & B & _). exists m. auto.
  - apply in_map_iff in H as (e1 & <- & H). cbn. apply IHr. exact H.
  - destruct (xorb _ _); [|destruct H]. destruct H as [<-|[]]. exists []. auto.
  - destruct (before st) eqn:B; [|destruct H]. destruct H as [<-|[]].
    exists []. cbn. auto.
  - destruct (after st) eqn:A; [|destruct H]. destruct H as [<-|[]].
    exists []. cbn. auto.
Qed.

Lemma consumed_span st e m : after st = m ++ after e -> consumed st e = m.
Proof.
  intros E. unfold consumed. rewrite E, length_app.
  replace (List.length m + List.length (after e) - List.length (after e))%nat
    with (List.length m + 0)%nat by lia.
  rewrite firstn_app_2. cbn. apply app_nil_r.
Qed.

Lemma search_from_Some r : forall s bef m,
  search_from r bef s = Some m ->
  exists s1 s2 e l,
    s = s1 ++ s2 /\ exec r (MState (rev s1 ++ bef) s2 []) = e :: l
    /\ m_text m = consumed (MState (rev s1 ++ bef) s2 []) e.
Proof.
  induction s as [|c s IH]; intros bef m H; cbn [search_from] in H.
  - destruct (exec r (MState bef [] [])) as [|e l] eqn:E; [discriminate|].
    inversion H; subst. exists [], [], e, l. cbn. auto.
  - destruct (exec r (MState bef (c :: s) [])) as [|e l] eqn:E.
    + apply IH in H as (s1 & s2 & e & l & A & B & C).
      exists (c :: s1), s2, e, l. cbn. rewrite <- app_assoc. cbn.
      subst s. auto.
    + inversion H; subst. exists [], (c :: s), e, l. cbn. auto.
Qed.

(** A pattern that matches wherever another does is found whenever the
    other is. *)
Lemma search_from_mono r1 r2 :
  (forall bef s, exec r1 (MState bef s []) <> [] -> exec r2 (MState bef s []) <> []) ->
  forall s bef, search_from r1 bef s <> None -> search_from r2 bef s <> None.
Proof.
  intros M. induction s as [|c s IH]; intros bef H; cbn [search_from] in *.
  - specialize (M bef []).
    destruct (exec r1 (MState bef [] [])); [congruence|].
    destruct (exec r2 (MState bef [] [])); [|discriminate].
    exfalso. apply M; [discriminate|reflexivity].
  - specialize (M bef (c :: s)).
    destruct (exec r2 (MState bef (c :: s) [])); [|discriminate].
    destruct (exec r1 (MState bef (c :: s) [])); [auto|].
    exfalso. apply M; [discriminate|reflexivity].
Qed.

Lemma exec_Seq_In r1 r2 st e :
  In e (exec (Seq r1 r2) st) <-> exists e1, In e1 (exec r1 st) /\ In e (exec r2 e1).
Proof. cbn [exec]. apply in_flat_map. Qed.

Lemma exec_Alt_In r1 r2 st e :
  In e (exec (Alt r1 r2) st) <-> In e (exec r1 st) \/ In e (exec r2 st).
Proof. cbn [exec]. apply in_app_iff. Qed.

Lemma exec_WordB_In st e : In e (exec WordB st) -> e = st.
Proof.
  cbn [exec]. destruct (xorb _ _); [|intros []]. intros [<-|[]]. reflexivity.
Qed.

Lemma exec_cups_paciente st e : In e (exec rx_cups st) -> In e (exec rx_paciente st).
Proof.
  unfold rx_cups, rx_paciente, exactly, between. intros H.
  apply exec_Alt_In. right.
  apply exec_Seq_In in H as (e1 & H1 & H). apply exec_Seq_In in H as (e2 & H2 & H3).
  apply exec_Seq_In. exists e1. split; [exact H1|].
  apply exec_Seq_In. exists e2. split; [|exact H3].
  cbn [exec] in *.
  apply rep_In in H2 as (m & E & B & C & F & L & K). cbn in K.
  apply rep_In. exists m. cbn. repeat split; auto. lia.
Qed.

Lemma rx_cups_digits st e :
  In e (exec rx_cups st) -> forallb is_digit (consumed st e) = true.
Proof.
  unfold rx_cups, exactly. intros H.
  apply exec_Seq_In in H as (e1 & H1 & H). apply exec_Seq_In in H as (e2 & H2 & H3).
  apply exec_WordB_In in H1, H3. subst e1 e2.
  cbn [exec] in H2.
  apply rep_In in H2 as (m & E & B & C & F & L & K).
  rewrite (consumed_span st e m E). exact F.
Qed.

Lemma rep_ends p lo hi st e :
  (1 <= lo)%nat -> In e (exec (Rep p lo hi) st) ->
  exists m d, after st = (m ++ [d]) ++ after e /\ p d = true.
Proof.
  intros L H. cbn [exec] in H.
  apply rep_In in H as (m & E & B & C & F & L' & K).
  destruct (exists_last (l:=m)) as (m' & d & ->).
  { intros ->. cbn in L'. lia. }
  exists m', d. split; [exact E|].
  rewrite forallb_app in F. apply andb_true_iff in F as [_ F]. cbn in F.
  rewrite andb_true_r in F. exact F.
Qed.

Lemma rx_paciente_ends_digit st e :
  In e (exec rx_paciente st) ->
  exists m d, consumed st e = m ++ [d] /\ is_digit d = true.
Proof.
  unfold rx_paciente, between. intros H.
  apply exec_Alt_In in H as [H|H].
  - apply exec_Seq_In in H as (e1 & H1 & H).
    apply exec_Seq_In in H as (e2 & H2 & H).
    apply exec_Seq_In in H as (e3 & H3 & H).
    apply exec_Seq_In in H as (e4 & H4 & H5).
    apply exec_WordB_In in H5. subst e4.
    apply exec_span in H1 as (m1 & A1 & _).
    apply exec_span in H2 as (m2 & A2 & _).
    apply exec_span in H3 as (m3 & A3 & _).
    apply rep_ends in H4 as (m & d & E & D); [|lia].
    exists (m1 ++ m2 ++ m3 ++ m), d. split; [|exact D].
    apply consumed_span. rewrite A1, A2, A3, E, <- !app_assoc. reflexivity.
  - apply exec_Seq_In in H as (e1 & H1 & H).
    apply exec_Seq_In in H as (e4 & H4 & H5).
    apply exec_WordB_In in H5. subst e4.
    apply exec_span in H1 as (m1 & A1 & _).
    apply rep_ends in H4 as (m & d & E & D); [|lia].
    exists (m1 ++ m), d. split; [|exact D].
    apply consumed_span. rewrite A1, E, <- !app_assoc. reflexivity.
Qed.

(** ** [normalizeId] *)

Lemma upper_cu_alnum c : is_alnum c = true ->
  exists d, upper_cu c = [d] /\ is_upnum d = true.
Proof.
  unfold is_alnum, upper_cu, is_upnum, is_digit, is_upper, is_lower, in_range, cu_eqb.
  intros H.
  destruct ((97 <=? c) && (c <=? 122)) eqn:L.
  - exists (c - 32). split; [reflexivity|].
    apply andb_true_iff in L as [L1 L2]. apply N.leb_le in L1, L2.
    apply orb_true_iff. right. apply andb_true_iff. split; apply N.leb_le; lia.
  - rewrite orb_false_r in H.
    assert (c < 97).
    { apply orb_true_iff in H as [H|H]; apply andb_true_iff in H as [H1 H2];
        apply N.leb_le in H1, H2; lia. }
    replace (c =? 181) with false by (symmetry; apply N.eqb_neq; lia).
    replace (c =? 223) with false by (symmetry; apply N.eqb_neq; lia).
    replace (c =? 247) with false by (symmetry; apply N.eqb_neq; lia).
    replace (c =? 255) with false by (symmetry; apply N.eqb_neq; lia).
    replace (224 <=? c) with false by (symmetry; apply N.leb_gt; lia).
    cbn. exists c. auto.
Qed.

Lemma normalizeId_upnum v : forallb is_upnum (normalizeId v) = true.
Proof.
  destruct v as [v|]; [|reflexivity]. unfold normalizeId.
  generalize (remove_first rx_prefix (trim v)). intros x.
  induction x as [|c x IH]; [reflexivity|].
  cbn [filter]. destruct (is_alnum c) eqn:A; [|exact IH].
  cbn [toUpperCaseL1 flat_map].
  destruct (upper_cu_alnum c A) as (d & -> & D).
  cbn. rewrite D. exact IH.
Qed.

Lemma upnum_bounds c : is_upnum c = true -> 48 <= c <= 90.
Proof.
  unfold is_upnum, is_digit, is_upper, in_range. intros H.
  apply orb_true_iff in H as [H|H]; apply andb_true_iff in H as [H1 H2];
    apply N.leb_le in H1, H2; lia.
Qed.

Lemma upnum_not_space c : is_upnum c = true -> is_space c = false.
Proof.
  intros H. apply upnum_bounds in H.
  unfold is_space, in_range, cu_eqb.
  repeat match goal with
  | |- context [?a <=? ?b] =>
      first [ replace (a <=? b) with false by (symmetry; apply N.leb_gt; lia)
            | replace (a <=? b) with true by (symmetry; apply N.leb_le; lia) ]
  | |- context [?a =? ?b] =>
      replace (a =? b) with false by (symmetry; apply N.eqb_neq; lia)
  end.
  reflexivity.
Qed.

Lemma upnum_not_sep c : is_upnum c = true -> is_sep c = false.
Proof.
  intros H. unfold is_sep. rewrite (upnum_not_space _ H).
  apply upnum_bounds in H. unfold cu_eqb.
  replace (c =? 45) with false by (symmetry; apply N.eqb_neq; lia).
  reflexivity.
Qed.

Lemma upnum_alnum c : is_upnum c = true -> is_alnum c = true.
Proof.
  unfold is_upnum, is_alnum. intros H. rewrite H. reflexivity.
Qed.

Lemma upnum_upper_cu c : is_upnum c = true -> upper_cu c = [c].
Proof.
  intros H. apply upnum_bounds in H.
  unfold upper_cu, is_lower, in_range, cu_eqb.
  replace (97 <=? c) with false by (symmetry; apply N.leb_gt; lia).
  replace (c =? 181) with false by (symmetry; apply N.eqb_neq; lia).
  replace (c =? 223) with false by (symmetry; apply N.eqb_neq; lia).
  replace (c =? 247) with false by (symmetry; apply N.eqb_neq; lia).
  replace (c =? 255) with false by (symmetry; apply N.eqb_neq; lia).
  replace (224 <=? c) with false by (symmetry; apply N.leb_gt; lia).
  reflexivity.
Qed.

Lemma dropWhile_head p s :
  match s with c :: _ => p c = false | [] => True end -> dropWhile p s = s.
Proof. destruct s as [|c s]; cbn; [reflexivity|]. intros ->. reflexivity. Qed.

Lemma dropWhile_upnum p s :
  (forall c, is_upnum c = true -> p c = false) ->
  forallb is_upnum s = true -> dropWhile p s = s.
Proof.
  intros Hp H. apply dropWhile_head. destruct s as [|c s]; [exact I|].
  cbn in H. apply andb_true_iff in H as [H _]. auto.
Qed.

Lemma forallb_rev {A} (f : A -> bool) l : forallb f (rev l) = forallb f l.
Proof.
  induction l as [|x l IH]; [reflexivity|].
  cbn. rewrite forallb_app, IH. cbn. rewrite andb_true_r. apply andb_comm.
Qed.

Lemma trim_upnum y : forallb is_upnum y = true -> trim y = y.
Proof.
  intros H. unfold trim, trimEnd, trimStart.
  rewrite (dropWhile_upnum _ _ upnum_not_space H).
  rewrite (dropWhile_upnum is_space (rev y) upnum_not_space).
  - apply rev_involutive.
  - rewrite forallb_rev. exact H.
Qed.

Lemma filter_alnum_upnum y : forallb is_upnum y = true -> filter is_alnum y = y.
Proof.
  induction y as [|c y IH]; [reflexivity|]. cbn. intros H.
  apply andb_true_iff in H as [H1 H2]. rewrite (upnum_alnum _ H1), (IH H2).
  reflexivity.
Qed.

Lemma toUpperCaseL1_upnum y : forallb is_upnum y = true -> toUpperCaseL1 y = y.
Proof.
  induction y as [|c y IH]; [reflexivity|]. cbn. intros H.
  apply andb_true_iff in H as [H1 H2].
  unfold toUpperCaseL1 in IH. rewrite (upnum_upper_cu _ H1), (IH H2).
  reflexivity.
Qed.

Lemma strip_word_suffix f w : forall s rest,
  strip_word f w s = Some rest -> s = firstn (List.length w) s ++ rest.
Proof.
  induction w as [|c w IH]; intros s rest H; cbn in H.
  - inversion H. reflexivity.
  - destruct s as [|x s]; [discriminate|].
    destruct (f c x); [|discriminate]. cbn. f_equal. apply IH. exact H.
Qed.

Lemma strip_any_In f ws s rest :
  strip_any f ws s = Some rest -> exists w, In w ws /\ strip_word f w s = Some rest.
Proof.
  induction ws as [|w ws IH]; cbn; [discriminate|].
  destruct (strip_word f w s) as [r|] eqn:E.
  - intros H. inversion H; subst. exists w. auto.
  - intros H. destruct (IH H) as (w' & I & S). exists w'. auto.
Qed.

Lemma strip_any_None f ws s :
  strip_any f ws s = None <-> forall w, In w ws -> strip_word f w s = None.
Proof.
  induction ws as [|w ws IH]; cbn.
  - split; [intros _ w []|reflexivity].
  - destruct (strip_word f w s) as [r|] eqn:E.
    + split; [discriminate|]. intros H. rewrite (H w) in E by auto. discriminate.
    + rewrite IH. split.
      * intros H w' [<-|I]; auto.
      * intros H w' I. apply H. auto.
Qed.

(** On an upper-case subject, reading an upper-case word under the i flag
    is [startsWith]. *)
Lemma strip_word_startsWith w : forall y,
  forallb is_upper w = true -> forallb is_upnum y = true ->
  (startsWith y w = true <-> strip_word anycase w y <> None).
Proof.
  induction w as [|c w IH]; intros y Hw Hy.
  - destruct y; cbn; split; solve [discriminate|reflexivity].
  - destruct y as [|x y]; cbn; [split; [discriminate|congruence]|].
    cbn in Hw, Hy.
    apply andb_true_iff in Hw as [Hc Hw]. apply andb_true_iff in Hy as [Hx Hy].
    assert (A : anycase c x = cu_eqb c x).
    { unfold anycase, cu_eqb. apply upnum_bounds in Hx.
      unfold is_upper, in_range in Hc. apply andb_true_iff in Hc as [C1 C2].
      apply N.leb_le in C1, C2.
      replace (x =? c + 32) with false by (symmetry; apply N.eqb_neq; lia).
      rewrite orb_false_r. apply N.eqb_sym. }
    rewrite A. destruct (cu_eqb c x); cbn.
    + apply IH; assumption.
    + split; [discriminate|congruence].
Qed.

Lemma doc_prefixes_upper : forallb (forallb is_upper) doc_prefixes = true.
Proof. reflexivity. Qed.

Lemma doc_prefixes_length w : In w doc_prefixes -> List.length w = 2%nat.
Proof.
  cbn. intros H.
  repeat (destruct H as [<-|H]; [reflexivity|]). destruct H.
Qed.

Lemma normalizeId_again (y : jsstring) :
  forallb is_upnum y = true ->
  normalizeId (Some y) =
  match strip_any anycase doc_prefixes y with Some rest => rest | None => y end.
Proof.
  intros H. unfold normalizeId. rewrite (trim_upnum _ H), remove_first_rx_prefix.
  unfold strip_prefix.
  destruct (strip_any anycase doc_prefixes y) as [rest|] eqn:E.
  - apply strip_any_In in E as (w & _ & E).
    pose proof (strip_word_suffix _ _ _ _ E) as S.
    assert (R : forallb is_upnum rest = true).
    { rewrite S, forallb_app in H. apply andb_true_iff in H as [_ H]. exact H. }
    rewrite (dropWhile_upnum _ _ upnum_not_sep R).
    rewrite (filter_alnum_upnum _ R). apply toUpperCaseL1_upnum. exact R.
  - rewrite (filter_alnum_upnum _ H). apply toUpperCaseL1_upnum. exact H.
Qed.

Lemma normalizeId_idempotent_iff (v : option jsstring) :
  normalizeId (Some (normalizeId v)) = normalizeId v
  <-> has_doc_prefix (normalizeId v) = false.
Proof.
  pose proof (normalizeId_upnum v) as U.
  rewrite (normalizeId_again _ U).
  generalize dependent (normalizeId v). intros y U.
  split.
  - intros H. unfold has_doc_prefix.
    destruct (existsb (startsWith y) doc_prefixes) eqn:E; [|reflexivity].
    exfalso. apply existsb_exists in E as (w & I & S).
    assert (Wu : forallb is_upper w = true).
    { pose proof doc_prefixes_upper as D. rewrite forallb_forall in D. auto. }
    apply (strip_word_startsWith w y Wu U) in S.
    destruct (strip_any anycase doc_prefixes y) as [rest|] eqn:A.
    + apply strip_any_In in A as (w' & I' & A).
      apply strip_word_length in A. rewrite (doc_prefixes_length _ I') in A.
      subst rest. lia.
    + rewrite strip_any_None in A. apply S. auto.
  - intros H. unfold has_doc_prefix in H.
    destruct (strip_any anycase doc_prefixes y) as [rest|] eqn:A; [|reflexivity].
    exfalso. apply strip_any_In in A as (w & I & A).
    assert (Wu : forallb is_upper w = true).
    { pose proof doc_prefixes_upper as D. rewrite forallb_forall in D. auto. }
    assert (S : startsWith y w = true).
    { apply (strip_word_startsWith w y Wu U). congruence. }
    assert (E : existsb (startsWith y) doc_prefixes = true).
    { apply existsb_exists. exists w. auto. }
    congruence.
Qed.

(** C1 (amended).  [normalizeId] applied to its own result gives that result
    again exactly when the result does not itself begin with one of the
    document-type prefixes CC TI RC CE PA PE CN MS: the function removes one
    leading prefix, so a second application removes a second one.  The
    sample values agree: [normalizeId("cc-123.456")], [normalizeId("123456")]
    and ["123456"] are equal. *)
Theorem normalizeId_idempotent_unless_prefixed (v : option jsstring) :
  (normalizeId (Some (normalizeId v)) = normalizeId v
   <-> has_doc_prefix (normalizeId v) = false)
  /\ normalizeId (Some (lit "cc-123.456")) = lit "123456"
  /\ normalizeId (Some (lit "123456")) = lit "123456".
Proof.
  split; [apply normalizeId_idempotent_iff|]. split; reflexivity.
Qed.

(** C1, as stated, fails at ["CCCC123"]: the first application gives
    ["CC123"], the second ["123"]. *)
Lemma normalizeId_not_idempotent :
  normalizeId (Some (lit "CCCC123")) = lit "CC123"
  /\ normalizeId (Some (normalizeId (Some (lit "CCCC123")))) = lit "123"
  /\ normalizeId (Some (normalizeId (Some (lit "CCCC123"))))
     <> normalizeId (Some (lit "CCCC123")).
Proof.
  split; [reflexivity|]. split; [reflexivity|]. vm_compute. discriminate.
Qed.

(** ** Ages *)

(** C7.  For a birth date the host parses, the bracket is PRIMERA INFANCIA
    exactly when the month difference taken from the years and months alone
    is at most 60; otherwise it is the bracket the thresholds 11, 17, 28, 59
    give to the calendar-aware difference in years.  An empty or unparsable
    birth date gives the empty bracket.  (Nothing here needs the date to lie
    in the past.) *)
Theorem grupoEtario_thresholds (Date_parse : jsstring -> option LocalDate)
    (hoy : LocalDate) (fn : jsstring) :
  (truthy fn = false \/ Date_parse fn = None ->
     grupoEtarioDesdeFN Date_parse hoy fn = [])
  /\ (forall f, truthy fn = true -> Date_parse fn = Some f ->
      let m := ((fullYear hoy - fullYear f) * 12 + (month hoy - month f))%Z in
      let e := (fullYear hoy - fullYear f)%Z in
      let a := if ((month hoy <? month f)
                   || ((month hoy =? month f) && (date hoy <? date f)))%Z
               then (e - 1)%Z else e in
      edadMeses Date_parse hoy fn = Some m
      /\ edadAnios Date_parse hoy fn = Some a
      /\ (grupoEtarioDesdeFN Date_parse hoy fn = PRIMERA_INFANCIA <-> (m <= 60)%Z)
      /\ ((60 < m)%Z -> grupoEtarioDesdeFN Date_parse hoy fn = grupo_por_anios a)).
Proof.
  split.
  - intros [H|H]; unfold grupoEtarioDesdeFN, edadMeses.
    + rewrite H. reflexivity.
    + destruct (truthy fn); [|reflexivity]. cbn. rewrite H. reflexivity.
  - intros f T P m e a.
    assert (M : edadMeses Date_parse hoy fn = Some m).
    { unfold edadMeses. rewrite T, P. reflexivity. }
    assert (A : edadAnios Date_parse hoy fn = Some a).
    { unfold edadAnios. rewrite T, P. cbn [negb]. subst a e.
      destruct ((month hoy <? month f) || (month hoy =? month f) && (date hoy <? date f))%Z;
        reflexivity. }
    split; [exact M|]. split; [exact A|].
    unfold grupoEtarioDesdeFN. rewrite T, M, A. cbn [negb].
    destruct (m <=? 60)%Z eqn:E.
    + apply Z.leb_le in E. split; [tauto|lia].
    + apply Z.leb_gt in E. split.
      * split; [|lia]. unfold grupo_por_anios.
        destruct (a <=? 11)%Z; [discriminate|].
        destruct (a <=? 17)%Z; [discriminate|].
        destruct (a <=? 28)%Z; [discriminate|].
        destruct (a <=? 59)%Z; discriminate.
      * intros _. reflexivity.
Qed.


(** At ten March 2024 a birth date of fifteen March 2019 is 60 months old
    and one of fifteen February 2019 is 61 months old. *)
Lemma grupoEtario_thresholds_witness :
  grupoEtarioDesdeFN Samples.Date_de_muestra Samples.hoy_de_muestra
    (lit "2019-03-15") = PRIMERA_INFANCIA
  /\ grupoEtarioDesdeFN Samples.Date_de_muestra Samples.hoy_de_muestra
       (lit "2019-02-15") = INFANCIA
  /\ grupoEtarioDesdeFN Samples.Date_de_muestra Samples.hoy_de_muestra
       (lit "15/03/2019") = [].
Proof.
  split; [|split].
  - apply (proj2 (grupoEtario_thresholds Samples.Date_de_muestra
                    Samples.hoy_de_muestra (lit "2019-03-15"))
             {| fullYear := 2019; month := 2; date := 15 |}
             eq_refl eq_refl).
    vm_compute. discriminate.
  - apply (proj2 (grupoEtario_thresholds Samples.Date_de_muestra
                    Samples.hoy_de_muestra (lit "2019-02-15"))
             {| fullYear := 2019; month := 1; date := 15 |}
             eq_refl eq_refl).
    reflexivity.
  - apply (proj1 (grupoEtario_thresholds Samples.Date_de_muestra
                    Samples.hoy_de_muestra (lit "15/03/2019"))).
    right. reflexivity.
Defined.

(** ** The service branch *)

Lemma dropWhile_keeps_last p (m : jsstring) d :
  p d = false -> exists x, dropWhile p (m ++ [d]) = x ++ [d].
Proof.
  intros P. induction m as [|c m IH]; cbn.
  - rewrite P. exists []. reflexivity.
  - destruct (p c); [exact IH|]. exists (c :: m). reflexivity.
Qed.

Lemma digit_not_space d : is_digit d = true -> is_space d = false.
Proof. intros H. apply upnum_not_space. unfold is_upnum. rewrite H. reflexivity. Qed.

Lemma digit_not_sep d : is_digit d = true -> is_sep d = false.
Proof. intros H. apply upnum_not_sep. unfold is_upnum. rewrite H. reflexivity. Qed.

Lemma trim_keeps_last (m : jsstring) d :
  is_digit d = true -> exists x, trim (m ++ [d]) = x ++ [d].
Proof.
  intros D. unfold trim, trimStart, trimEnd.
  destruct (dropWhile_keeps_last is_space m d (digit_not_space d D)) as (x & ->).
  exists x. rewrite rev_app_distr. cbn. rewrite (digit_not_space d D).
  cbn. rewrite rev_involutive. reflexivity.
Qed.

Lemma strip_word_keeps_last w : forall (x : jsstring) d rest,
  forallb is_upper w = true -> is_digit d = true ->
  strip_word anycase w (x ++ [d]) = Some rest -> exists r, rest = r ++ [d].
Proof.
  induction w as [|c w IH]; intros x d rest W D H.
  - cbn in H. inversion H. exists x. reflexivity.
  - cbn in W. apply andb_true_iff in W as [C W].
    destruct x as [|y x]; cbn in H.
    + exfalso. unfold anycase, cu_eqb in H.
      unfold is_upper, in_range in C. apply andb_true_iff in C as [C1 C2].
      unfold is_digit, in_range in D. apply andb_true_iff in D as [D1 D2].
      apply N.leb_le in C1, C2, D1, D2.
      replace (d =? c) with false in H by (symmetry; apply N.eqb_neq; lia).
      replace (d =? c + 32) with false in H by (symmetry; apply N.eqb_neq; lia).
      discriminate.
    + destruct (anycase c y); [|discriminate]. eapply IH; eauto.
Qed.

Lemma strip_prefix_keeps_last (x : jsstring) d :
  is_digit d = true -> exists r, strip_prefix (x ++ [d]) = r ++ [d].
Proof.
  intros D. unfold strip_prefix.
  destruct (strip_any anycase doc_prefixes (x ++ [d])) as [rest|] eqn:E.
  - apply strip_any_In in E as (w & I & E).
    assert (Wu : forallb is_upper w = true).
    { pose proof doc_prefixes_upper as U. rewrite forallb_forall in U. auto. }
    destruct (strip_word_keeps_last w x d rest Wu D E) as (r & ->).
    apply dropWhile_keeps_last. apply digit_not_sep. exact D.
  - exists x. reflexivity.
Qed.

Lemma normalizeId_ends_digit (m : jsstring) d :
  is_digit d = true -> truthy (normalizeId (Some (m ++ [d]))) = true.
Proof.
  intros D. unfold normalizeId.
  destruct (trim_keeps_last m d D) as (x & ->).
  rewrite remove_first_rx_prefix.
  destruct (strip_prefix_keeps_last x d D) as (r & ->).
  rewrite filter_app. cbn [filter].
  assert (A : is_alnum d = true) by (unfold is_alnum; rewrite D; reflexivity).
  rewrite A. unfold toUpperCaseL1. rewrite flat_map_app. cbn [flat_map].
  rewrite upnum_upper_cu by (unfold is_upnum; rewrite D; reflexivity).
  destruct (flat_map upper_cu (filter is_alnum r)); reflexivity.
Qed.

Lemma search_exec_In r s m :
  search r s = Some m ->
  exists st e, In e (exec r st) /\ m_text m = consumed st e.
Proof.
  unfold search. intros H.
  apply search_from_Some in H as (s1 & s2 & e & l & _ & E & T).
  exists (MState (rev s1 ++ []) s2 []), e. rewrite E. split; [left; reflexivity|exact T].
Qed.

Lemma cups_found_paciente_found l :
  match0 rx_cups l <> None -> match0 rx_paciente l <> None.
Proof.
  unfold match0, search. intros H.
  assert (S1 : search_from rx_cups [] l <> None).
  { destruct (search_from rx_cups [] l); [discriminate|]. exfalso. apply H. reflexivity. }
  pose proof (search_from_mono rx_cups rx_paciente) as M.
  assert (S2 : search_from rx_paciente [] l <> None).
  { apply M; [|exact S1]. intros bef s N.
    destruct (exec rx_cups (MState bef s [])) as [|e t] eqn:E; [congruence|].
    assert (I : In e (exec rx_paciente (MState bef s []))).
    { apply exec_cups_paciente. rewrite E. left. reflexivity. }
    intros Z. rewrite Z in I. destruct I. }
  destruct (search_from rx_paciente [] l); [discriminate|]. exfalso. apply S2. reflexivity.
Qed.

Lemma upnum_not_SIN_ID (y : jsstring) : forallb is_upnum y = true -> y <> SIN_ID.
Proof.
  intros H ->. discriminate H.
Qed.

(** C9.  Whenever the service branch emits a record, the patient pattern
    has matched the line (the six-digit code itself is a match of its
    second alternative), the normalised match is not empty, and the
    record's patient is that normal form: never the placeholder SIN_ID. *)
Theorem sin_id_unreachable (cupsMap : JsMap.t MaestroCupItem) (l : jsstring) (r : RipsRecord) :
  procesar_servicio cupsMap l = Some r ->
  (exists m, match0 rx_paciente l = Some m
             /\ truthy (normalizeId (Some m)) = true
             /\ paciente r = normalizeId (Some m))
  /\ paciente r <> SIN_ID.
Proof.
  unfold procesar_servicio. intros H.
  destruct (match0 rx_cups l) as [c|] eqn:C; [|discriminate].
  destruct (JsMap.get cupsMap c) as [info|]; [|discriminate].
  assert (P : match0 rx_paciente l <> None).
  { apply cups_found_paciente_found. congruence. }
  destruct (match0 rx_paciente l) as [m|] eqn:M; [|congruence].
  assert (T : truthy (normalizeId (Some m)) = true).
  { unfold match0 in M. destruct (search rx_paciente l) as [mm|] eqn:S; [|discriminate].
    cbn in M. inversion M; subst m.
    apply search_exec_In in S as (st & e & I & ->).
    apply rx_paciente_ends_digit in I as (x & d & -> & D).
    apply normalizeId_ends_digit. exact D. }
  cbv beta iota zeta in H. unfold or_else in H. rewrite T in H.
  injection H as <-. cbn [paciente].
  split.
  - exists m. auto.
  - apply upnum_not_SIN_ID. exact (normalizeId_upnum (Some m)).
Qed.


Lemma sin_id_unreachable_witness :
  procesar_servicio Samples.cupsMap Samples.linea_de_servicio
    = Some Samples.registro_de_servicio
  /\ paciente Samples.registro_de_servicio <> SIN_ID.
Proof.
  split; [reflexivity|].
  apply (sin_id_unreachable Samples.cupsMap Samples.linea_de_servicio
           Samples.registro_de_servicio).
  reflexivity.
Defined.
Lemma no_pipe_forall (p : cu -> bool) (s : jsstring) :
  (forall c, p c = true -> cu_eqb 124 c = false) ->
  forallb p s = true -> no_pipe s = true.
Proof.
  intros P H. unfold no_pipe. apply negb_true_iff.
  induction s as [|c s IH]; [reflexivity|]. cbn in *.
  apply andb_true_iff in H as [H1 H2]. rewrite (P c H1), (IH H2). reflexivity.
Qed.

Lemma digit_not_pipe c : is_digit c = true -> cu_eqb 124 c = false.
Proof.
  unfold is_digit, in_range, cu_eqb. intros H.
  apply andb_true_iff in H as [H1 H2]. apply N.leb_le in H1, H2.
  apply N.eqb_neq. lia.
Qed.

Lemma upnum_not_pipe c : is_upnum c = true -> cu_eqb 124 c = false.
Proof.
  intros H. apply upnum_bounds in H. unfold cu_eqb. apply N.eqb_neq. lia.
Qed.

(** The service branch only emits records of the shape the duplicate key
    relies on. *)
Lemma procesar_servicio_shaped cupsMap l r :
  procesar_servicio cupsMap l = Some r -> extractor_shaped r = true.
Proof.
  unfold procesar_servicio. intros H.
  destruct (match0 rx_cups l) as [c|] eqn:C; [|discriminate].
  destruct (JsMap.get cupsMap c) as [info|]; [|discriminate].
  injection H as <-. unfold extractor_shaped. cbn [paciente cups].
  apply andb_true_iff. split.
  - cbv beta zeta. unfold or_else.
    match goal with |- context [truthy ?x] => destruct (truthy x) end;
      [|reflexivity].
    apply (no_pipe_forall is_upnum); [exact upnum_not_pipe|].
    exact (normalizeId_upnum (Some _)).
  - unfold match0 in C. destruct (search rx_cups l) as [m|] eqn:S; [|discriminate].
    cbn in C. injection C as <-.
    apply search_exec_In in S as (st & e & I & ->).
    apply (no_pipe_forall is_digit); [exact digit_not_pipe|].
    apply rx_cups_digits. exact I.
Qed.

Lemma process_line_shaped up cupsMap st raw :
  forallb extractor_shaped (newRegistros st) = true ->
  forallb extractor_shaped (newRegistros (process_line up cupsMap st raw)) = true.
Proof.
  intros H. unfold process_line.
  destruct (truthy (trim raw)); cbn [negb]; [|exact H].
  destruct (is_usuarios_header _); [exact H|].
  destruct (is_servicios_header _); [exact H|].
  destruct (split_parts (trim raw)) as [parts|]; [|exact H].
  destruct (List.length parts <? 2)%nat; [exact H|].
  destruct (includes _ USUARIOS); [exact H|].
  destruct (procesar_servicio cupsMap (trim raw)) as [r|] eqn:P; [|exact H].
  cbn [newRegistros]. rewrite forallb_app, H. cbn.
  rewrite (procesar_servicio_shaped _ _ _ P). reflexivity.
Qed.

Lemma fold_process_line_shaped up cupsMap lines : forall st,
  forallb extractor_shaped (newRegistros st) = true ->
  forallb extractor_shaped
    (newRegistros (fold_left (process_line up cupsMap) lines st)) = true.
Proof.
  induction lines as [|l lines IH]; intros st H; [exact H|].
  cbn [fold_left]. apply IH. apply process_line_shaped. exact H.
Qed.

Lemma process_rips_shaped up cupsMap files : forall regs umap regs' umap',
  forallb extractor_shaped regs = true ->
  process_rips up cupsMap files regs umap = Returns (regs', umap') ->
  forallb extractor_shaped regs' = true.
Proof.
  induction files as [|f files IH]; intros regs umap regs' umap' H E; cbn [process_rips] in E.
  - injection E as <- _. exact H.
  - destruct (f_text f) as [txt|]; [|discriminate].
    eapply IH; [|exact E]. apply fold_process_line_shaped. exact H.
Qed.

(** Every record list [processFiles] commits has that shape. *)
Lemma processFiles_shaped up st ripsFiles cupsFile :
  forallb extractor_shaped (registros st) = true ->
  forallb extractor_shaped (registros (processFiles up st ripsFiles cupsFile)) = true.
Proof.
  intros H. unfold processFiles.
  destruct ripsFiles as [[|f files]|]; try exact H.
  destruct cupsFile as [[rows|]|]; try exact H.
  destruct (process_rips up (build_cupsMap rows) (f :: files) [] (usuariosMap st))
    as [[regs umap]|] eqn:E; [|exact H].
  cbn [registros]. eapply process_rips_shaped; [|exact E]. reflexivity.
Qed.

(** ** The batch *)

Lemma process_rips_throws up cupsMap files : forall regs umap,
  Exists (fun f => f_text f = Throws) files ->
  process_rips up cupsMap files regs umap = Throws.
Proof.
  induction files as [|f files IH]; intros regs umap H.
  - inversion H.
  - cbn [process_rips]. destruct (f_text f) as [txt|] eqn:T; [|reflexivity].
    inversion H as [? ? H1|? ? H1]; subst; [congruence|]. apply IH. exact H1.
Qed.

(** C2 (amended).  When an exception leaves the [try] block of a batch,
    the service-record list and the patient roster are those of before the
    batch and the message is the generic failure.  The catalog is the one
    of before only when it is the workbook that could not be read: a
    catalog that was read is set before the first file is opened and stays
    set. *)
Theorem failed_batch_keeps_records_and_roster (toUpperCase : jsstring -> jsstring)
    (st : AppState) (files : list RipsFile) (sheet : outcome (list MaestroRow)) :
  files <> [] ->
  batch_throws files sheet ->
  let st' := processFiles toUpperCase st (Some files) (Some sheet) in
  registros st' = registros st
  /\ usuariosMap st' = usuariosMap st
  /\ message st' = Some MsgErrorFormato
  /\ maestro st' = match sheet with
                   | Throws => maestro st
                   | Returns rows => build_cupsMap rows
                   end.
Proof.
  intros N B. cbv zeta. unfold processFiles.
  destruct files as [|f files]; [congruence|].
  destruct sheet as [rows|].
  - destruct B as [B|B]; [discriminate|].
    rewrite (process_rips_throws toUpperCase (build_cupsMap rows) (f :: files) [] (usuariosMap st) B).
    cbn. auto.
  - cbn. auto.
Qed.


Lemma failed_batch_keeps_records_and_roster_witness :
  [Samples.archivo_legible; Samples.archivo_ilegible] <> []
  /\ batch_throws [Samples.archivo_legible; Samples.archivo_ilegible]
       (Returns Samples.catalogo)
  /\ registros (processFiles toUpperCaseL1 Samples.estado_previo
                  (Some [Samples.archivo_legible; Samples.archivo_ilegible])
                  (Some (Returns Samples.catalogo)))
     = registros Samples.estado_previo.
Proof.
  assert (N : [Samples.archivo_legible; Samples.archivo_ilegible] <> [])
    by discriminate.
  assert (B : batch_throws [Samples.archivo_legible; Samples.archivo_ilegible]
                (Returns Samples.catalogo)).
  { right. apply Exists_cons_tl. apply Exists_cons_hd. reflexivity. }
  split; [exact N|]. split; [exact B|].
  apply (failed_batch_keeps_records_and_roster toUpperCaseL1
           Samples.estado_previo _ _ N B).
Defined.

(** C2, as stated, fails for the catalog: the second file of the batch
    cannot be read, and the catalog of before the batch (empty) has been
    replaced by the one just read. *)
Lemma failed_batch_replaces_catalog :
  batch_throws [Samples.archivo_legible; Samples.archivo_ilegible]
    (Returns Samples.catalogo)
  /\ maestro Samples.estado_previo = []
  /\ maestro (processFiles toUpperCaseL1 Samples.estado_previo
                (Some [Samples.archivo_legible; Samples.archivo_ilegible])
                (Some (Returns Samples.catalogo)))
     = Samples.cupsMap
  /\ maestro (processFiles toUpperCaseL1 Samples.estado_previo
                (Some [Samples.archivo_legible; Samples.archivo_ilegible])
                (Some (Returns Samples.catalogo)))
     <> maestro Samples.estado_previo.
Proof.
  split.
  { right. apply Exists_cons_tl. apply Exists_cons_hd. reflexivity. }
  split; [reflexivity|]. split; [reflexivity|]. vm_compute. discriminate.
Qed.

(** ** The line classifier *)

(** C5 (amended).  Each of the two versions of the classifier has one of
    the two mechanisms.  In the current one (src/unnamed/part_000) every
    line whose upper-cased text contains USUARIOS together with one of the
    glyphs switches the section to the roster and is dropped.  In the
    earlier one (src/App.tsx) every line the explicit marker pattern
    matches sets the section to the captured name, trimmed and upper-cased,
    and is dropped. *)
Theorem section_markers (toUpperCase : jsstring -> jsstring)
    (cupsMap : JsMap.t MaestroCupItem) (st : Loop) (raw : jsstring) :
  truthy (trim raw) = true ->
  (is_usuarios_header (toUpperCase (trim raw)) = true ->
     let st' := App.process_line toUpperCase cupsMap st raw in
     section st' = USUARIOS
     /\ newRegistros st' = newRegistros st
     /\ newUsuariosMap st' = newUsuariosMap st)
  /\ (forall ms, search AppTsx.rxSec (trim raw) = Some ms ->
     let st' := AppTsx.process_line cupsMap st raw in
     section st' = toUpperCaseL1 (trim (cap_or_empty 1 ms))
     /\ newRegistros st' = newRegistros st
     /\ newUsuariosMap st' = newUsuariosMap st).
Proof.
  intros T. split.
  - intros H. cbv zeta. unfold App.process_line. rewrite T, H. cbn. auto.
  - intros ms H. cbv zeta. unfold AppTsx.process_line. rewrite T, H. cbn. auto.
Qed.


Lemma section_markers_witness :
  truthy (trim Samples.marcador_usuarios) = true
  /\ section (App.process_line toUpperCaseL1 Samples.cupsMap
                Samples.sin_seccion Samples.marcador_usuarios) = USUARIOS
  /\ section (AppTsx.process_line Samples.cupsMap
                Samples.sin_seccion Samples.marcador_usuarios) = USUARIOS.
Proof.
  assert (T : truthy (trim Samples.marcador_usuarios) = true) by reflexivity.
  pose proof (section_markers toUpperCaseL1 Samples.cupsMap
                Samples.sin_seccion Samples.marcador_usuarios T) as [A B].
  split; [exact T|]. split.
  - apply A. reflexivity.
  - destruct (search AppTsx.rxSec (trim Samples.marcador_usuarios)) as [ms|] eqn:S.
    + destruct (B ms eq_refl) as [B1 _]. rewrite B1.
      revert S. vm_compute. intros S. injection S as <-. reflexivity.
    + revert S. vm_compute. discriminate.
Defined.

(** C5, as stated, fails in each version.  The current classifier reads the
    marker of a section OTROS as a data line and stays in the roster; the
    earlier one does not know the starred USUARIOS header. *)
Lemma marker_not_supported_in_current_classifier :
  option_map (cap_or_empty 1) (search AppTsx.rxSec (trim Samples.marcador_otros))
    = Some (lit "OTROS")
  /\ section (App.process_line toUpperCaseL1 Samples.cupsMap Samples.en_usuarios Samples.marcador_otros)
     = USUARIOS
  /\ section (App.process_line toUpperCaseL1 Samples.cupsMap Samples.en_usuarios Samples.marcador_otros)
     <> lit "OTROS"
  /\ section (AppTsx.process_line Samples.cupsMap Samples.en_usuarios Samples.marcador_otros) = lit "OTROS"
  /\ is_usuarios_header (toUpperCaseL1 (trim Samples.encabezado_usuarios)) = true
  /\ section (AppTsx.process_line Samples.cupsMap Samples.sin_seccion Samples.encabezado_usuarios) = []
  /\ section (App.process_line toUpperCaseL1 Samples.cupsMap Samples.sin_seccion Samples.encabezado_usuarios)
     = USUARIOS.
Proof.
  vm_compute. repeat split; try reflexivity. discriminate.
Qed.

Lemma split_on_nonempty c s : split_on c s <> [].
Proof.
  destruct s as [|x s]; cbn; [discriminate|].
  destruct (cu_eqb x c); [discriminate|]. destruct (split_on c s); discriminate.
Qed.

Lemma split_on_includes c s :
  includes s [c] = true -> (2 <= List.length (split_on c s))%nat.
Proof.
  induction s as [|x s IH]; cbn [includes startsWith split_on].
  - cbn. discriminate.
  - unfold cu_eqb. rewrite (N.eqb_sym c x). destruct (x =? c) eqn:E.
    + intros _. pose proof (split_on_nonempty c s) as N.
      destruct (split_on c s); [congruence|]. cbn. lia.
    + cbn [andb orb]. intros H. specialize (IH H).
      destruct (split_on c s); cbn in *; lia.
Qed.

Lemma split_parts_length l parts :
  split_parts l = Some parts -> (List.length parts <? 2)%nat = false.
Proof.
  unfold split_parts. intros H. apply Nat.ltb_ge.
  destruct (includes l [44] && (3 <=? count_occ_cu 44%N l)%nat) eqn:C.
  - apply andb_true_iff in C as [C _]. inversion H; subst.
    rewrite length_map. apply split_on_includes. exact C.
  - destruct (includes l [124]) eqn:P; [|discriminate]. inversion H; subst.
    rewrite length_map. apply split_on_includes. exact P.
Qed.

Lemma includes_USUARIOS : includes USUARIOS USUARIOS = true.
Proof. reflexivity. Qed.

Lemma heuristic_section_usuarios l : heuristic_section USUARIOS l = USUARIOS.
Proof. unfold heuristic_section. rewrite str_eqb_refl. reflexivity. Qed.

(** Once the section is the roster, only a service header leaves it. *)
Lemma process_line_stays_usuarios up cupsMap st raw :
  section st = USUARIOS ->
  is_servicios_header (up (trim raw)) = false ->
  section (process_line up cupsMap st raw) = USUARIOS
  /\ newRegistros (process_line up cupsMap st raw) = newRegistros st.
Proof.
  intros S H. unfold process_line.
  destruct (truthy (trim raw)); cbn [negb]; [|auto].
  destruct (is_usuarios_header (up (trim raw))); [cbn; auto|].
  rewrite H.
  destruct (split_parts (trim raw)) as [parts|]; [|auto].
  destruct (List.length parts <? 2)%nat; [auto|].
  rewrite S, heuristic_section_usuarios, includes_USUARIOS. cbn. auto.
Qed.

Lemma fold_stays_usuarios up cupsMap rest : forall st,
  section st = USUARIOS ->
  Forall (fun r => is_servicios_header (up (trim r)) = false) rest ->
  section (fold_left (process_line up cupsMap) rest st) = USUARIOS
  /\ newRegistros (fold_left (process_line up cupsMap) rest st) = newRegistros st.
Proof.
  induction rest as [|r rest IH]; intros st S F; [cbn; auto|].
  inversion F as [|? ? F1 F2]; subst. cbn [fold_left].
  destruct (process_line_stays_usuarios up cupsMap st r S F1) as [S1 R1].
  destruct (IH _ S1 F2) as [S2 R2]. rewrite R2, R1. auto.
Qed.

(** C4 (amended).  The content heuristic assigns the section: the line that
    has both a date and a standalone M/F token is handled by the roster
    branch, and the section is the roster from then on.  Until a service
    header comes, every later line of the file is handled by the roster
    branch too, whatever its content, and no service record is added. *)
Theorem heuristic_override_sticky (toUpperCase : jsstring -> jsstring)
    (cupsMap : JsMap.t MaestroCupItem) (st : Loop) (raw : jsstring)
    (parts : list jsstring) (rest : list jsstring) :
  truthy (trim raw) = true ->
  is_usuarios_header (toUpperCase (trim raw)) = false ->
  is_servicios_header (toUpperCase (trim raw)) = false ->
  split_parts (trim raw) = Some parts ->
  section st <> USUARIOS ->
  hasDate (trim raw) = true -> hasSex (trim raw) = true ->
  Forall (fun r => is_servicios_header (toUpperCase (trim r)) = false) rest ->
  let st1 := process_line toUpperCase cupsMap st raw in
  let st' := fold_left (process_line toUpperCase cupsMap) rest st1 in
  section st1 = USUARIOS
  /\ newRegistros st1 = newRegistros st
  /\ newUsuariosMap st1 = procesar_usuario parts (newUsuariosMap st)
  /\ section st' = USUARIOS
  /\ newRegistros st' = newRegistros st.
Proof.
  intros T U S P N D X F. cbv zeta.
  assert (E : process_line toUpperCase cupsMap st raw
              = {| section := USUARIOS; newRegistros := newRegistros st;
                   newUsuariosMap := procesar_usuario parts (newUsuariosMap st) |}).
  { unfold process_line. rewrite T, U, S, P, (split_parts_length _ _ P). cbn [negb].
    unfold heuristic_section. rewrite D, X.
    apply str_eqb_neq in N. rewrite N. cbn [negb andb].
    rewrite includes_USUARIOS. reflexivity. }
  rewrite E. cbn [section newRegistros newUsuariosMap].
  destruct (fold_stays_usuarios toUpperCase cupsMap rest
              {| section := USUARIOS; newRegistros := newRegistros st;
                 newUsuariosMap := procesar_usuario parts (newUsuariosMap st) |}
              eq_refl F) as [S2 R2].
  cbn [newRegistros] in R2. auto.
Qed.


Lemma heuristic_override_sticky_witness :
  section Samples.en_servicios <> USUARIOS
  /\ hasDate (trim Samples.linea_con_forma_de_usuario) = true
  /\ hasSex (trim Samples.linea_con_forma_de_usuario) = true
  /\ newRegistros
       (fold_left (process_line toUpperCaseL1 Samples.cupsMap)
          [Samples.linea_de_servicio]
          (process_line toUpperCaseL1 Samples.cupsMap Samples.en_servicios
             Samples.linea_con_forma_de_usuario))
     = newRegistros Samples.en_servicios.
Proof.
  assert (N : section Samples.en_servicios <> USUARIOS) by discriminate.
  split; [exact N|]. split; [reflexivity|]. split; [reflexivity|].
  apply (heuristic_override_sticky toUpperCaseL1 Samples.cupsMap
           Samples.en_servicios Samples.linea_con_forma_de_usuario
           (List.map lit ["1"; "CC"; "12345678"; "F"; "1990-01-01";
                          "ANA MARIA"]%string)
           [Samples.linea_de_servicio]);
    try reflexivity; try exact N.
  constructor; [reflexivity|constructor].
Defined.

(** C4, as stated, fails: a plain service line gives a service record on
    its own, and gives a roster entry and no record when it follows a line
    the heuristic has reclassified. *)
Lemma override_changes_later_lines :
  section Samples.en_servicios <> USUARIOS
  /\ heuristic_section (section Samples.en_servicios) (trim Samples.linea_con_forma_de_usuario) = USUARIOS
  /\ hasDate (trim Samples.linea_de_servicio) = false
  /\ is_usuarios_header (toUpperCaseL1 (trim Samples.linea_de_servicio)) = false
  /\ is_servicios_header (toUpperCaseL1 (trim Samples.linea_de_servicio)) = false
  /\ List.map cups (newRegistros
       (process_line toUpperCaseL1 Samples.cupsMap Samples.en_servicios Samples.linea_de_servicio))
     = [lit "890201"]
  /\ newRegistros
       (fold_left (process_line toUpperCaseL1 Samples.cupsMap)
          [Samples.linea_con_forma_de_usuario; Samples.linea_de_servicio] Samples.en_servicios)
     = []
  /\ List.map fst (newUsuariosMap
       (fold_left (process_line toUpperCaseL1 Samples.cupsMap)
          [Samples.linea_con_forma_de_usuario; Samples.linea_de_servicio] Samples.en_servicios))
     = [lit "12345678"; lit "890201"].
Proof.
  split; [discriminate|]. vm_compute. repeat split; reflexivity.
Qed.


(** ** The roster merge *)

Lemma JsMap_get_set_same {V} (m : JsMap.t V) k v : JsMap.get (JsMap.set m k v) k = Some v.
Proof. rewrite JsMap_get_set, str_eqb_refl. reflexivity. Qed.

Lemma procesar_usuario_merge parts m :
  let id := normalizeId (Some (idCand_of parts)) in
  (3 <= List.length id)%nat ->
  procesar_usuario parts m
  = merge_usuario m id (sexo_of parts) (fnac_of parts) (nombre_of parts).
Proof.
  cbv zeta. intros L. unfold procesar_usuario.
  destruct (normalizeId (Some (idCand_of parts))) as [|c id] eqn:E; [cbn in L; lia|].
  cbn [truthy negb orb].
  replace (List.length (c :: id) <? 3)%nat with false
    by (symmetry; apply Nat.ltb_ge; exact L).
  reflexivity.
Qed.

(** C6.  A roster line whose identifier is already in the map leaves, for
    each of sex, birth date and name on its own, the value it carries when
    that is not empty and the previous value otherwise.  So two lines for
    one identifier, the second with no sex and with a name, leave the first
    line's sex and the second line's name (the first line's sex being what
    the first line itself leaves: its own when it has one or when the
    identifier was new). *)
Theorem roster_merge_per_field (m : JsMap.t UserRecord) (parts parts2 : list jsstring) :
  let id := normalizeId (Some (idCand_of parts)) in
  (3 <= List.length id)%nat ->
  (forall prev, JsMap.get m id = Some prev ->
     JsMap.get (procesar_usuario parts m) id
     = Some {| u_id := id;
               u_sexo := if truthy (sexo_of parts) then sexo_of parts else u_sexo prev;
               u_fnac := if truthy (fnac_of parts) then fnac_of parts else u_fnac prev;
               u_nombre := if truthy (nombre_of parts) then nombre_of parts
                           else u_nombre prev |})
  /\ (normalizeId (Some (idCand_of parts2)) = id ->
      sexo_of parts2 = [] -> nombre_of parts2 <> [] ->
      JsMap.get m id = None \/ sexo_of parts <> [] ->
      exists u, JsMap.get (procesar_usuario parts2 (procesar_usuario parts m)) id = Some u
                /\ u_sexo u = sexo_of parts
                /\ u_nombre u = nombre_of parts2).
Proof.
  cbv zeta. intros L. split.
  - intros prev G. rewrite procesar_usuario_merge by exact L.
    unfold merge_usuario. rewrite JsMap_get_set_same, G. reflexivity.
  - intros I S N P.
    rewrite (procesar_usuario_merge parts2) by (rewrite I; exact L).
    rewrite (procesar_usuario_merge parts m) by exact L. rewrite I.
    unfold merge_usuario at 1. rewrite JsMap_get_set_same.
    eexists. split; [reflexivity|]. cbn [u_sexo u_nombre].
    unfold merge_usuario. rewrite JsMap_get_set_same. cbn [u_sexo u_nombre].
    rewrite S. cbn [or_else truthy]. split.
    + destruct P as [P|P].
      * rewrite P. cbn [u_sexo]. unfold or_else.
        destruct (truthy (sexo_of parts)) eqn:T; [reflexivity|].
        destruct (sexo_of parts); [reflexivity|discriminate].
      * unfold or_else. destruct (sexo_of parts); [congruence|reflexivity].
    + unfold or_else. destruct (nombre_of parts2); [congruence|reflexivity].
Qed.

Lemma roster_merge_per_field_witness :
  (3 <= List.length (normalizeId (Some (idCand_of Samples.usuario_1))))%nat
  /\ exists u,
       JsMap.get (procesar_usuario Samples.usuario_2
                    (procesar_usuario Samples.usuario_1 []))
                 (lit "12345678") = Some u
       /\ u_sexo u = lit "F"
       /\ u_nombre u = lit "ANA MARIA PEREZ".
Proof.
  assert (L : (3 <= List.length
                 (normalizeId (Some (idCand_of Samples.usuario_1))))%nat)
    by (vm_compute; lia).
  split; [exact L|].
  apply (proj2 (roster_merge_per_field [] Samples.usuario_1 Samples.usuario_2 L));
    try reflexivity.
  - discriminate.
  - left. reflexivity.
Defined.

(** ** Duplicate remediation *)

Lemma same_triple_iff a b : same_triple a b = true <-> triple a = triple b.
Proof.
  unfold same_triple, triple. rewrite !andb_true_iff, !str_eqb_eq.
  split; [intros [[-> ->] ->]; reflexivity|].
  intros H. inversion H. auto.
Qed.

Lemma cut_at_pipe (a a' b b' : jsstring) :
  no_pipe a = true -> no_pipe a' = true ->
  a ++ 124 :: b = a' ++ 124 :: b' -> a = a' /\ b = b'.
Proof.
  unfold no_pipe, cu_eqb. revert a'.
  induction a as [|x a IH]; intros [|y a'] Ha Ha' E; cbn [existsb app] in *.
  - inversion E. auto.
  - inversion E; subst. rewrite N.eqb_refl in Ha'. discriminate.
  - inversion E; subst. rewrite N.eqb_refl in Ha. discriminate.
  - inversion E; subst.
    apply negb_true_iff, orb_false_iff in Ha as [_ Ha].
    apply negb_true_iff, orb_false_iff in Ha' as [_ Ha'].
    destruct (IH a') as [-> ->]; auto; apply negb_true_iff; assumption.
Qed.

Lemma dupKey_inj a b :
  extractor_shaped a = true -> extractor_shaped b = true ->
  (dupKey a = dupKey b <-> triple a = triple b).
Proof.
  unfold extractor_shaped, dupKey, triple. intros Ha Hb.
  apply andb_true_iff in Ha as [Ha1 Ha2]. apply andb_true_iff in Hb as [Hb1 Hb2].
  split.
  - intros E. cbn [app] in E.
    apply cut_at_pipe in E as [E1 E]; auto.
    apply cut_at_pipe in E as [E2 E3]; auto. congruence.
  - intros E. inversion E. reflexivity.
Qed.

Lemma seen_has_iff seen key : seen_has seen key = true <-> In key seen.
Proof.
  unfold seen_has. rewrite existsb_exists. split.
  - intros (x & I & E). apply str_eqb_eq in E. subst. exact I.
  - intros I. exists key. split; [exact I|apply str_eqb_refl].
Qed.

Lemma filter_seen_count seen n rs :
  snd (filter_seen seen n rs) = (n + (List.length rs - List.length (fst (filter_seen seen n rs))))%nat
  /\ (List.length (fst (filter_seen seen n rs)) <= List.length rs)%nat.
Proof.
  revert seen n; induction rs as [|r rs IH]; intros seen n; cbn [filter_seen].
  - cbn. lia.
  - destruct (seen_has seen (dupKey r)).
    + destruct (IH seen (S n)) as [E L]. rewrite E. cbn [List.length]. lia.
    + destruct (IH (dupKey r :: seen) n) as [E L].
      destruct (filter_seen (dupKey r :: seen) n rs) as [kept m].
      cbn [fst snd List.length] in *. lia.
Qed.

(** The set [seen] holds exactly the keys of the records gone by. *)
Lemma filter_seen_keep_first seen earlier n rs :
  forallb extractor_shaped earlier = true ->
  forallb extractor_shaped rs = true ->
  (forall k, In k seen <-> In k (List.map dupKey earlier)) ->
  fst (filter_seen seen n rs) = keep_first_from earlier rs.
Proof.
  revert seen earlier n; induction rs as [|r rs IH]; intros seen earlier n He Hr Hs.
  - reflexivity.
  - cbn [filter_seen keep_first_from].
    cbn in Hr. apply andb_true_iff in Hr as [Hr1 Hr2].
    assert (Hd : seen_has seen (dupKey r) = existsb (same_triple r) earlier).
    { apply eq_true_iff_eq. rewrite seen_has_iff.
      rewrite forallb_forall in He.
      split; intros H.
      - apply Hs, in_map_iff in H as (x & A & B).
        apply existsb_exists. exists x. split; [exact B|].
        apply same_triple_iff. apply dupKey_inj; auto.
      - apply existsb_exists in H as (x & A & B).
        apply Hs, in_map_iff. exists x. split; [|exact A].
        apply same_triple_iff in B. apply dupKey_inj; auto. }
    rewrite <- Hd.
    assert (He' : forallb extractor_shaped (r :: earlier) = true).
    { cbn. rewrite Hr1, He. reflexivity. }
    destruct (seen_has seen (dupKey r)) eqn:S.
    + apply IH; auto.
      intros k. cbn [List.map In]. rewrite <- Hs. split; [auto|].
      intros [<-|H]; [|exact H]. apply seen_has_iff. exact S.
    + specialize (IH (dupKey r :: seen) (r :: earlier) n He' Hr2).
      destruct (filter_seen (dupKey r :: seen) n rs) as [kept m].
      cbn [fst] in *. f_equal. apply IH.
      intros k. cbn [List.map In]. rewrite Hs. reflexivity.
Qed.

Lemma filter_seen_keys seen n rs :
  NoDup (List.map dupKey (fst (filter_seen seen n rs)))
  /\ (forall r, In r (fst (filter_seen seen n rs)) -> ~ In (dupKey r) seen).
Proof.
  revert seen n; induction rs as [|r rs IH]; intros seen n; cbn [filter_seen].
  - cbn. split; [constructor|tauto].
  - destruct (seen_has seen (dupKey r)) eqn:S.
    + apply IH.
    + destruct (IH (dupKey r :: seen) n) as [N I].
      destruct (filter_seen (dupKey r :: seen) n rs) as [kept m].
      cbn [fst List.map] in *. split.
      * constructor; [|exact N]. intros H. apply in_map_iff in H as (x & E & Hx).
        apply (I x Hx). left. auto.
      * intros x [<-|Hx].
        -- intros H. apply seen_has_iff in H. congruence.
        -- intros H. apply (I x Hx). right. exact H.
Qed.

Lemma filter_seen_fixed rs : forall seen n,
  NoDup (List.map dupKey rs) ->
  (forall r, In r rs -> ~ In (dupKey r) seen) ->
  filter_seen seen n rs = (rs, n).
Proof.
  induction rs as [|r rs IH]; intros seen n N I; [reflexivity|].
  cbn [filter_seen]. cbn [List.map] in N. inversion N as [|? ? N1 N2]; subst.
  destruct (seen_has seen (dupKey r)) eqn:S.
  - apply seen_has_iff in S. exfalso. apply (I r); [left; reflexivity|exact S].
  - rewrite IH; [reflexivity|exact N2|].
    intros x Hx [E|H].
    + apply N1. rewrite E. apply in_map. exact Hx.
    + apply (I x); [right; exact Hx|exact H].
Qed.

Lemma NoDup_triples l : NoDup (List.map dupKey l) -> NoDup (List.map triple l).
Proof.
  intros H.
  apply (NoDup_map_inv (fun t : jsstring * jsstring * jsstring =>
            let '(p, c, f) := t in p ++ [124] ++ c ++ [124] ++ f)).
  rewrite map_map. exact H.
Qed.

Lemma filter_seen_incl seen n rs r :
  In r (fst (filter_seen seen n rs)) -> In r rs.
Proof.
  revert seen n; induction rs as [|x rs IH]; intros seen n; cbn [filter_seen].
  - intros [].
  - destruct (seen_has seen (dupKey x)).
    + intros H. right. apply (IH _ _ H).
    + specialize (IH (dupKey x :: seen) n).
      destruct (filter_seen (dupKey x :: seen) n rs) as [kept m].
      cbn [fst] in *. intros [<-|H]; [left; reflexivity|right; auto].
Qed.

(** The remediation keeps the shape of the records too. *)
Lemma handleRemoveAllDuplicates_shaped confirmed st :
  forallb extractor_shaped (registros st) = true ->
  forallb extractor_shaped
    (registros (handleRemoveAllDuplicates confirmed st)) = true.
Proof.
  intros H. unfold handleRemoveAllDuplicates, removeAllDuplicates.
  destruct confirmed; cbn [negb]; [|exact H].
  pose proof (filter_seen_incl [] 0 (registros st)) as I.
  destruct (filter_seen [] 0 (registros st)) as [kept n].
  cbn [registros fst] in *. rewrite forallb_forall in *. auto.
Qed.

(** C10.  Run on its own result, remove-all-duplicates leaves the record
    list as it is and reports 0 removed: the result of the first run holds
    at most one record of any triple. *)
Theorem removeAllDuplicates_idempotent (st : AppState) :
  let st1 := handleRemoveAllDuplicates true st in
  let st2 := handleRemoveAllDuplicates true st1 in
  registros st2 = registros st1
  /\ message st2 = Some (MsgLimpiezaMasiva 0)
  /\ NoDup (List.map triple (registros st1)).
Proof.
  cbv zeta. unfold handleRemoveAllDuplicates. cbn [negb].
  unfold removeAllDuplicates.
  destruct (filter_seen_keys [] 0 (registros st)) as [N I].
  destruct (filter_seen [] 0 (registros st)) as [kept n] eqn:E.
  cbn [fst registros] in *.
  rewrite (filter_seen_fixed kept [] 0 N) by (intros r _ []).
  cbn. auto using NoDup_triples.
Qed.


(** C8.  On records of the shape the extractor emits, remove-all-duplicates
    keeps a record exactly when no earlier record of the list has its
    (patientId, serviceCode, serviceDate) triple, keeps the order, and
    reports how many records it dropped.  With A twice and B once, A and B
    remain and 1 is reported, wherever the second A stands. *)
Theorem removeAllDuplicates_keeps_first (st : AppState) :
  forallb extractor_shaped (registros st) = true ->
  let st' := handleRemoveAllDuplicates true st in
  registros st' = keep_first_occurrences (registros st)
  /\ message st'
     = Some (MsgLimpiezaMasiva
               (List.length (registros st) - List.length (registros st')))
  /\ removeAllDuplicates [Samples.reg_A; Samples.reg_A; Samples.reg_B]
     = ([Samples.reg_A; Samples.reg_B], 1%nat)
  /\ removeAllDuplicates [Samples.reg_A; Samples.reg_B; Samples.reg_A]
     = ([Samples.reg_A; Samples.reg_B], 1%nat).
Proof.
  intros H. cbv zeta. unfold handleRemoveAllDuplicates, removeAllDuplicates.
  cbn [negb].
  pose proof (filter_seen_keep_first [] [] 0 (registros st) eq_refl H
                (fun k => conj (fun x => x) (fun x => x))) as K.
  destruct (filter_seen_count [] 0 (registros st)) as [C _].
  destruct (filter_seen [] 0 (registros st)) as [kept n].
  cbn [fst snd registros message] in *. subst n.
  split; [exact K|]. split; [reflexivity|]. split; reflexivity.
Qed.

Lemma removeAllDuplicates_keeps_first_witness :
  forallb extractor_shaped (registros Samples.estado_previo) = true
  /\ registros (handleRemoveAllDuplicates true Samples.estado_previo)
     = keep_first_occurrences (registros Samples.estado_previo).
Proof.
  split; [reflexivity|].
  apply (removeAllDuplicates_keeps_first Samples.estado_previo). reflexivity.
Defined.

(** ** The code ranking *)

Lemma cupsCount_keys rs : forall o,
  List.map fst (fold_left add_cupsCount rs o)
  = fold_left set_add (List.map cups rs) (List.map fst o).
Proof.
  induction rs as [|r rs IH]; intros o; [reflexivity|].
  cbn [fold_left List.map]. rewrite IH. f_equal.
  unfold add_cupsCount, JsObj.set. apply JsMap_keys_set.
Qed.

Lemma pacs_of_add o r code :
  pacs_of (add_cupsPacCount o r) code =
  if str_eqb (cups r) code
  then JsObj.set (pacs_of o code) (paciente r)
         (S (match JsObj.get (pacs_of o code) (paciente r) with
             | Some n => n | None => O end))
  else pacs_of o code.
Proof.
  unfold pacs_of, add_cupsPacCount, JsObj.get, JsObj.set.
  rewrite JsMap_get_set. destruct (str_eqb (cups r) code) eqn:E; [|reflexivity].
  apply str_eqb_eq in E. subst code. reflexivity.
Qed.

Lemma cupsPacCount_keys code rs : forall o,
  List.map fst (pacs_of (fold_left add_cupsPacCount rs o) code)
  = fold_left set_add
      (List.map paciente (filter (fun r => str_eqb (cups r) code) rs))
      (List.map fst (pacs_of o code)).
Proof.
  induction rs as [|r rs IH]; intros o; [reflexivity|].
  cbn [fold_left filter]. rewrite IH, pacs_of_add.
  destruct (str_eqb (cups r) code); [|reflexivity].
  cbn [List.map fold_left]. f_equal. apply JsMap_keys_set.
Qed.

Lemma keys_insert_index {V} (e : jsstring * V) l :
  List.map fst (JsObj.insert_index e l) = JsObj.insert_key (fst e) (List.map fst l).
Proof.
  induction l as [|e' l IH]; [reflexivity|].
  cbn [JsObj.insert_index JsObj.insert_key List.map].
  destruct (JsObj.index_of (fst e) <=? JsObj.index_of (fst e')); cbn [List.map];
    [reflexivity|]. rewrite IH. reflexivity.
Qed.

Lemma keys_filter {V} (p : jsstring -> bool) (l : list (jsstring * V)) :
  List.map fst (filter (fun e => p (fst e)) l) = filter p (List.map fst l).
Proof.
  induction l as [|e l IH]; [reflexivity|]. cbn. destruct (p (fst e)); cbn; rewrite IH; reflexivity.
Qed.

Lemma insert_key_In k x l : In x (JsObj.insert_key k l) <-> x = k \/ In x l.
Proof.
  induction l as [|y l IH]; cbn [JsObj.insert_key].
  - cbn. intuition.
  - destruct (JsObj.index_of k <=? JsObj.index_of y); cbn [In];
      [intuition congruence|].
    destruct IH as [I1 I2]. split.
    + intros [H|H]; [auto|]. destruct (I1 H); auto.
    + intros [H|[H|H]]; auto.
Qed.

(** The array indices come out in ascending numeric order. *)
Lemma sort_keys_sorted l :
  StronglySorted (fun a b => JsObj.index_of a <= JsObj.index_of b)
                 (JsObj.sort_keys l).
Proof.
  induction l as [|k l IH]; [constructor|].
  cbn [JsObj.sort_keys fold_right]. fold (JsObj.sort_keys l).
  induction IH as [|y t S IHt F]; cbn [JsObj.insert_key].
  - constructor; constructor.
  - destruct (JsObj.index_of k <=? JsObj.index_of y) eqn:E.
    + apply N.leb_le in E. constructor; [constructor; assumption|].
      constructor; [exact E|]. apply Forall_forall. intros x Hx.
      rewrite Forall_forall in F. specialize (F x Hx). lia.
    + apply N.leb_gt in E. constructor; [exact IHt|].
      apply Forall_forall. intros x Hx.
      apply insert_key_In in Hx as [->|Hx]; [lia|].
      rewrite Forall_forall in F. auto.
Qed.

Lemma entries_keys {V} (o : JsObj.t V) :
  List.map fst (JsObj.entries o) = JsObj.key_order (List.map fst o).
Proof.
  unfold JsObj.entries, JsObj.key_order. rewrite map_app. f_equal.
  - rewrite <- keys_filter. unfold JsObj.sort_index, JsObj.sort_keys.
    induction (filter (fun e : jsstring * V => JsObj.is_index (fst e)) o) as [|e l IH];
      [reflexivity|].
    cbn [fold_right List.map]. rewrite keys_insert_index, IH. reflexivity.
  - apply (keys_filter (fun k => negb (JsObj.is_index k))).
Qed.

Lemma CUPS_ranking_row umap pc pd e : CUPS (ranking_row umap pc pd e) = fst e.
Proof. destruct e. reflexivity. Qed.

Lemma ranking_row_top umap pc pd e :
  let row := ranking_row umap pc pd e in
  let pacs := pacs_of pc (fst e) in
  (forall x, In x (JsObj.entries pacs) -> (snd x <= PacienteTop_Cant row)%nat)
  /\ (JsObj.entries pacs <> [] ->
      find (fun x => Nat.eqb (snd x) (PacienteTop_Cant row)) (JsObj.entries pacs)
      = Some (PacienteTop row, PacienteTop_Cant row)).
Proof.
  destruct e as [code info]. cbn [fst]. unfold ranking_row.
  cbn [PacienteTop PacienteTop_Cant]. unfold topPacEntry.
  destruct (hd_error (Sort.sort_desc snd (JsObj.entries (pacs_of pc code)))) as [t|] eqn:H.
  - apply sort_desc_hd in H as [M F]. split; [exact M|]. intros _.
    rewrite F. destruct t; reflexivity.
  - destruct (JsObj.entries (pacs_of pc code)) as [|x l] eqn:E.
    + split; [intros x []|congruence].
    + exfalso. assert (I : In x (Sort.sort_desc snd (x :: l))).
      { apply sort_desc_In. left. reflexivity. }
      destruct (Sort.sort_desc snd (x :: l)); [destruct I|discriminate].
Qed.

(** C3 (amended).  For records as the extractor writes them, whose codes
    and identifiers name no inherited property of the objects that group
    them, the ranking is in descending order of count, and rows of
    equal count keep the order of [Object.entries(cupsCount)].  That order
    is not the order in which the codes were first met: the codes that are
    array indices (canonical decimal numbers below 2^32 - 1, as every
    six-digit code without a leading zero is) come first in ascending
    numeric order, and only the remaining ones follow in first-met order.
    The same holds for the patients of a code: the top patient has the
    greatest sub-count and, among those of that sub-count, is the first in
    the [Object.entries] order of the code's patients. *)
Theorem ranking_order (metas : list ServiceTypeMeta) (umap : JsMap.t UserRecord)
    (regs : list RipsRecord) :
  forallb Shapes.record_ok regs = true ->
  let fr := filteredRegistros metas regs in
  let rk := rankingCUPS metas umap regs in
  StronglySorted (fun a b => (Cantidad b <= Cantidad a)%nat) rk
  /\ (forall n, filter (fun row => Nat.eqb (Cantidad row) n) rk
                = filter (fun row => Nat.eqb (Cantidad row) n)
                         (unsorted_rows metas umap regs))
  /\ List.map CUPS (unsorted_rows metas umap regs)
     = JsObj.key_order (first_seen (List.map cups fr))
  /\ (forall row, In row rk ->
        let pacs := pacs_of (cupsPacCount fr) (CUPS row) in
        List.map fst (JsObj.entries pacs)
        = JsObj.key_order (first_seen (List.map paciente
                       (filter (fun r => str_eqb (cups r) (CUPS row)) fr)))
        /\ (forall x, In x (JsObj.entries pacs) -> (snd x <= PacienteTop_Cant row)%nat)
        /\ (JsObj.entries pacs <> [] ->
            find (fun x => Nat.eqb (snd x) (PacienteTop_Cant row)) (JsObj.entries pacs)
            = Some (PacienteTop row, PacienteTop_Cant row))).
Proof.
  intros _. cbv zeta.
  split; [apply sort_desc_sorted|]. split; [intros n; apply filter_sort_desc|]. split.
  - unfold unsorted_rows. rewrite map_map.
    rewrite (map_ext _ fst) by (intros e; apply CUPS_ranking_row).
    rewrite entries_keys. unfold cupsCount. rewrite cupsCount_keys. reflexivity.
  - intros row H. apply sort_desc_In in H. unfold unsorted_rows in H.
    apply in_map_iff in H as (e & <- & _). rewrite CUPS_ranking_row. split.
    + rewrite entries_keys. unfold cupsPacCount. rewrite cupsPacCount_keys. reflexivity.
    + apply ranking_row_top.
Qed.

Lemma ranking_order_witness :
  forallb Shapes.record_ok Samples.registros_empatados = true
  /\ StronglySorted (fun a b => (Cantidad b <= Cantidad a)%nat)
       (rankingCUPS Samples.metas_activas [] Samples.registros_empatados)
  /\ List.map CUPS
       (unsorted_rows Samples.metas_activas [] Samples.registros_empatados)
     = JsObj.key_order
         (first_seen (List.map cups
            (filteredRegistros Samples.metas_activas
               Samples.registros_empatados))).
Proof.
  split; [reflexivity|].
  destruct (ranking_order Samples.metas_activas [] Samples.registros_empatados
              eq_refl) as (H1 & _ & H3 & _).
  split; [exact H1|exact H3].
Defined.

(** C3, as stated, fails: the codes 200000 and 100000 are met in that order
    with two records each and are ranked 100000, 200000; the patients 9 and
    5 of code 200000 are met in that order with one record each and the top
    patient is 5. *)
Lemma ties_follow_key_order :
  first_seen (List.map cups
                (filteredRegistros Samples.metas_activas
                   Samples.registros_empatados))
    = [lit "200000"; lit "100000"]
  /\ List.map (fun row => (CUPS row, Cantidad row))
       (rankingCUPS Samples.metas_activas [] Samples.registros_empatados)
     = [(lit "100000", 2%nat); (lit "200000", 2%nat)]
  /\ List.map fst (pacs_of (cupsPacCount
                              (filteredRegistros Samples.metas_activas
                                 Samples.registros_empatados))
                           (lit "200000"))
     = [lit "9"; lit "5"]
  /\ List.map (fun row => (PacienteTop row, PacienteTop_Cant row))
       (rankingCUPS Samples.metas_activas [] Samples.registros_empatados)
     = [(lit "7", 2%nat); (lit "5", 1%nat)].
Proof.
  vm_compute. repeat split; reflexivity.
Qed.

(* ================================================================= *)
(** * Further properties of the handlers and views *)

Import Js Regex Logic App Views Shapes.
Local Open Scope N_scope.

(** ** Fixed points of [normalizeId] *)

Lemma no_prefix_no_strip (y : jsstring) :
  forallb is_upnum y = true -> has_doc_prefix y = false ->
  strip_any anycase doc_prefixes y = None.
Proof.
  intros U H. apply strip_any_None. intros w I.
  destruct (strip_word anycase w y) as [rest|] eqn:E; [|reflexivity].
  exfalso.
  assert (Wu : forallb is_upper w = true).
  { pose proof doc_prefixes_upper as D. rewrite forallb_forall in D. auto. }
  assert (S : startsWith y w = true).
  { apply (strip_word_startsWith w y Wu U). congruence. }
  unfold has_doc_prefix in H.
  assert (X : existsb (startsWith y) doc_prefixes = true).
  { apply existsb_exists. exists w. auto. }
  congruence.
Qed.

(** X1.  The results of [normalizeId] are made of digits and capital
    letters only, and the strings it returns unchanged are exactly the
    strings of digits and capital letters that do not begin with a
    document-type prefix. *)
Theorem normalizeId_fixed_points (v : option jsstring) (y : jsstring) :
  forallb is_upnum (normalizeId v) = true
  /\ (normalizeId (Some y) = y
      <-> forallb is_upnum y = true /\ has_doc_prefix y = false).
Proof.
  split; [apply normalizeId_upnum|]. split.
  - intros H.
    assert (U : forallb is_upnum y = true).
    { rewrite <- H. apply normalizeId_upnum. }
    split; [exact U|].
    destruct (has_doc_prefix y) eqn:P; [|reflexivity]. exfalso.
    rewrite (normalizeId_again y U) in H.
    unfold has_doc_prefix in P. apply existsb_exists in P as (w & I & S).
    assert (Wu : forallb is_upper w = true).
    { pose proof doc_prefixes_upper as D. rewrite forallb_forall in D. auto. }
    apply (strip_word_startsWith w y Wu U) in S.
    destruct (strip_any anycase doc_prefixes y) as [rest|] eqn:A.
    + apply strip_any_In in A as (w' & I' & A).
      apply strip_word_length in A. rewrite (doc_prefixes_length _ I') in A.
      subst rest. lia.
    + rewrite strip_any_None in A. apply S. auto.
  - intros [U P]. rewrite (normalizeId_again y U).
    rewrite (no_prefix_no_strip y U P). reflexivity.
Qed.

(** ** The shape of a parsed date *)

Lemma has_shape_app sh1 sh2 (d1 d2 : jsstring) :
  has_shape sh1 d1 = true -> has_shape sh2 d2 = true ->
  has_shape (sh1 ++ sh2) (d1 ++ d2) = true.
Proof.
  revert d1; induction sh1 as [|p sh1 IH]; intros [|c d1] H1 H2; cbn in *;
    try discriminate; [exact H2|].
  apply andb_true_iff in H1 as [P H1]. rewrite P. cbn. apply IH; assumption.
Qed.

Lemma has_shape_repeat p n (m : jsstring) :
  List.length m = n -> forallb p m = true -> has_shape (repeat p n) m = true.
Proof.
  revert n; induction m as [|c m IH]; intros [|n] L F; cbn in *;
    try discriminate; [reflexivity|].
  apply andb_true_iff in F as [P F]. rewrite P. cbn. apply IH; [lia|exact F].
Qed.

Lemma has_shape_length sh : forall (d : jsstring),
  has_shape sh d = true -> List.length d = List.length sh.
Proof.
  induction sh as [|p sh IH]; intros [|c d] H; cbn in *; try discriminate;
    [reflexivity|].
  apply andb_true_iff in H as [_ H]. f_equal. apply IH. exact H.
Qed.

Lemma exec_Chr_In p st e :
  In e (exec (Chr p) st) ->
  exists c, after st = c :: after e /\ p c = true /\ caps e = caps st.
Proof.
  cbn [exec]. destruct (after st) as [|c s] eqn:A; [intros []|].
  destruct (p c) eqn:P; [|intros []]. intros [<-|[]]. exists c. cbn. auto.
Qed.

Lemma exec_exactly_In p n st e :
  In e (exec (exactly p n) st) ->
  exists m, after st = m ++ after e /\ has_shape (repeat p n) m = true
            /\ caps e = caps st.
Proof.
  unfold exactly. cbn [exec]. intros H.
  apply rep_In in H as (m & E & _ & C & F & L & K). cbn in K.
  exists m. split; [exact E|]. split; [|exact C].
  apply has_shape_repeat; [lia|exact F].
Qed.

Lemma has_shape_one c : has_shape [same c] [c] = true.
Proof. cbn. unfold same, cu_eqb. rewrite N.eqb_refl. reflexivity. Qed.

Lemma same_eq c x : same c x = true -> x = c.
Proof. unfold same, cu_eqb. apply N.eqb_eq. Qed.

(** A date pattern reads ten characters of its shape and leaves the
    captures alone. *)
Lemma exec_date_In a b c sep st e :
  In e (exec (Seq (exactly is_digit a) (Seq (ch sep) (Seq (exactly is_digit b)
              (Seq (ch sep) (exactly is_digit c))))) st) ->
  exists d, after st = d ++ after e
    /\ has_shape (repeat is_digit a ++ [same sep] ++ repeat is_digit b
                  ++ [same sep] ++ repeat is_digit c) d = true
    /\ caps e = caps st.
Proof.
  intros H.
  apply exec_Seq_In in H as (e1 & H1 & H).
  apply exec_Seq_In in H as (e2 & H2 & H).
  apply exec_Seq_In in H as (e3 & H3 & H).
  apply exec_Seq_In in H as (e4 & H4 & H5).
  apply exec_exactly_In in H1 as (m1 & A1 & S1 & C1).
  apply exec_Chr_In in H2 as (x2 & A2 & P2 & C2).
  apply exec_exactly_In in H3 as (m3 & A3 & S3 & C3).
  apply exec_Chr_In in H4 as (x4 & A4 & P4 & C4).
  apply exec_exactly_In in H5 as (m5 & A5 & S5 & C5).
  apply same_eq in P2, P4. subst x2 x4.
  exists (m1 ++ [sep] ++ m3 ++ [sep] ++ m5). split; [|split].
  - rewrite A1, A2, A3, A4, A5, <- !app_assoc. reflexivity.
  - repeat apply has_shape_app; auto using has_shape_one.
  - congruence.
Qed.

Lemma search_from_Some_full r : forall s bef m,
  search_from r bef s = Some m ->
  exists s1 s2 e l,
    s = s1 ++ s2 /\ exec r (MState (rev s1 ++ bef) s2 []) = e :: l
    /\ m_text m = consumed (MState (rev s1 ++ bef) s2 []) e
    /\ m_caps m = caps e /\ m_post m = after e /\ m_pre m = rev s1 ++ bef.
Proof.
  induction s as [|c s IH]; intros bef m H; cbn [search_from] in H.
  - destruct (exec r (MState bef [] [])) as [|e l] eqn:E; [discriminate|].
    injection H as <-. exists [], [], e, l. cbn. auto 10.
  - destruct (exec r (MState bef (c :: s) [])) as [|e l] eqn:E.
    + apply IH in H as (s1 & s2 & e & l & A & B & C & D & F & G).
      exists (c :: s1), s2, e, l. cbn. rewrite <- app_assoc. cbn.
      subst s. auto 10.
    + injection H as <-. exists [], (c :: s), e, l. cbn. auto 10.
Qed.

(** What the two alternatives of the date pattern capture. *)
Lemma rx_date_line_In st e :
  caps st = [] ->
  In e (exec rx_date_line st) ->
  exists d, after st = d ++ after e /\ is_date d = true
    /\ (caps e = [(1%nat, d)] \/ caps e = [(2%nat, d)]).
Proof.
  intros C0 H. unfold rx_date_line in H.
  apply exec_Alt_In in H as [H|H];
    apply exec_Seq_In in H as (e1 & H1 & H);
    apply exec_Seq_In in H as (e2 & H2 & H3);
    apply exec_WordB_In in H1, H3; subst e1 e2;
    cbn [exec] in H2; apply in_map_iff in H2 as (e' & <- & H2);
    apply exec_date_In in H2 as (d & A & S & C);
    exists d; cbn [after caps]; rewrite C, C0, (consumed_span st e' d A);
    (split; [exact A|]); unfold is_date.
  - split; [|left; reflexivity]. unfold iso_shape. rewrite S. reflexivity.
  - split; [|right; reflexivity]. unfold dmy_shape. rewrite S. apply orb_true_r.
Qed.

Lemma is_date_truthy d : is_date d = true -> truthy d = true.
Proof.
  unfold is_date. intros H. apply orb_true_iff in H as [H|H];
    apply has_shape_length in H; destruct d; cbn in *; congruence.
Qed.

Lemma parseDateFromLine_cases (l : jsstring) :
  (parseDateFromLine l = [] <-> test rx_date_line l = false)
  /\ (parseDateFromLine l <> [] ->
      is_date (parseDateFromLine l) = true
      /\ exists pre post, l = pre ++ parseDateFromLine l ++ post).
Proof.
  unfold parseDateFromLine, test, search.
  destruct (search_from rx_date_line [] l) as [m|] eqn:S.
  - apply search_from_Some_full in S as (s1 & s2 & e & t & L & E & _ & C & _ & _).
    assert (I : In e (exec rx_date_line (MState (rev s1 ++ []) s2 [])))
      by (rewrite E; left; reflexivity).
    apply rx_date_line_In in I as (d & A & D & K); [|reflexivity].
    cbn [after] in A.
    assert (R : or_else (cap_or_empty 1 m) (or_else (cap_or_empty 2 m) []) = d).
    { pose proof (is_date_truthy d D) as T. unfold cap_or_empty. rewrite C.
      destruct K as [-> | ->]; cbn [cap Nat.eqb]; unfold or_else; cbn [truthy];
        rewrite T; reflexivity. }
    rewrite R. pose proof (is_date_truthy d D) as T. split.
    + split; [intros ->; discriminate|discriminate].
    + intros _. split; [exact D|]. exists s1, (after e). rewrite L, A. reflexivity.
  - split; [split; reflexivity|]. intros H. congruence.
Qed.

(** X2.  [parseDateFromLine] gives the empty string exactly when the date
    pattern does not match, and otherwise a ten-character piece of the
    line of the form YYYY-MM-DD or DD/MM/YYYY, taken as it stands. *)
Theorem parseDateFromLine_is_a_date (l : jsstring) :
  (parseDateFromLine l = [] <-> test rx_date_line l = false)
  /\ (parseDateFromLine l <> [] ->
      is_date (parseDateFromLine l) = true
      /\ exists pre post, l = pre ++ parseDateFromLine l ++ post).
Proof. exact (parseDateFromLine_cases l). Qed.

(** ** The catalog *)

Lemma find_app_or {A} (p : A -> bool) l1 l2 :
  find p (l1 ++ l2) = match find p l1 with Some x => Some x | None => find p l2 end.
Proof.
  induction l1 as [|x l1 IH]; [reflexivity|]. cbn. destruct (p x); [reflexivity|exact IH].
Qed.

Lemma add_row_get m x c :
  JsMap.get (add_row m x) c
  = if truthy (trim (CUPS_VIGENTE x)) && str_eqb (trim (CUPS_VIGENTE x)) c
    then Some (item_of_row x) else JsMap.get m c.
Proof.
  unfold add_row. destruct (truthy (trim (CUPS_VIGENTE x))); [|reflexivity].
  cbn [andb]. apply JsMap_get_set.
Qed.

Lemma fold_add_row_get c rows : forall m,
  JsMap.get (fold_left add_row rows m) c
  = match (if truthy c then last_row rows c else None) with
    | Some x => Some (item_of_row x)
    | None => JsMap.get m c
    end.
Proof.
  unfold last_row. induction rows as [|x rows IH]; intros m.
  - cbn. destruct (truthy c); reflexivity.
  - cbn [fold_left rev]. rewrite IH, find_app_or, add_row_get. cbn [find].
    destruct (truthy c) eqn:T.
    + destruct (find _ (rev rows)); [reflexivity|].
      destruct (str_eqb (trim (CUPS_VIGENTE x)) c) eqn:E.
      * apply str_eqb_eq in E. rewrite E, T. reflexivity.
      * rewrite andb_false_r. reflexivity.
    + destruct (str_eqb (trim (CUPS_VIGENTE x)) c) eqn:E.
      * apply str_eqb_eq in E. rewrite E, T. reflexivity.
      * rewrite andb_false_r. reflexivity.
Qed.

(** X3.  The catalog answers a code with the last row of the sheet that
    carries it, cells trimmed; the empty code and the codes of no row have
    no entry. *)
Theorem build_cupsMap_last_row_wins (rows : list MaestroRow) (c : jsstring) :
  JsMap.get (build_cupsMap rows) c
  = if truthy c then option_map item_of_row (last_row rows c) else None.
Proof.
  unfold build_cupsMap. rewrite fold_add_row_get.
  destruct (truthy c); [|reflexivity]. destruct (last_row rows c); reflexivity.
Qed.

(** ** The fields of a line *)

Lemma split_on_length c s :
  List.length (split_on c s) = S (count_occ_cu c s).
Proof.
  unfold count_occ_cu. induction s as [|x s IH]; [reflexivity|].
  cbn [split_on filter]. unfold cu_eqb in *. rewrite (N.eqb_sym c x).
  destruct (x =? c).
  - cbn [List.length]. rewrite IH. reflexivity.
  - destruct (split_on c s); cbn in *; lia.
Qed.

(** X4.  A line that is split has at least two fields: four or more when
    it is split at commas, one more than its pipes otherwise.  The guard
    [parts.length < 2] never fires. *)
Theorem split_parts_at_least_two (l : jsstring) (parts : list jsstring) :
  split_parts l = Some parts ->
  (2 <= List.length parts)%nat
  /\ (List.length parts = S (count_occ_cu 44 l) /\ (4 <= List.length parts)%nat
      \/ List.length parts = S (count_occ_cu 124 l)).
Proof.
  intros H. split.
  - pose proof (split_parts_length l parts H) as L. apply Nat.ltb_ge in L. exact L.
  - unfold split_parts in H.
    destruct (includes l [44] && (3 <=? count_occ_cu 44%N l)%nat) eqn:C.
    + left. apply andb_true_iff in C as [_ C]. apply Nat.leb_le in C.
      injection H as <-. rewrite length_map, split_on_length. lia.
    + right. destruct (includes l [124]); [|discriminate].
      injection H as <-. rewrite length_map, split_on_length. reflexivity.
Qed.

Lemma split_parts_at_least_two_witness :
  split_parts (lit "1, 2 ,3|,4") = Some (List.map lit ["1"; "2"; "3"; "4"]%string)
  /\ (2 <= List.length (List.map lit ["1"; "2"; "3"; "4"]%string))%nat.
Proof.
  split; [reflexivity|].
  apply (split_parts_at_least_two (lit "1, 2 ,3|,4")). reflexivity.
Defined.

(** ** What a batch commits *)

Lemma rx_cups_shape st e :
  In e (exec rx_cups st) -> has_shape (repeat is_digit 6) (consumed st e) = true.
Proof.
  unfold rx_cups. intros H.
  apply exec_Seq_In in H as (e1 & H1 & H). apply exec_Seq_In in H as (e2 & H2 & H3).
  apply exec_WordB_In in H1, H3. subst e1 e2.
  apply exec_exactly_In in H2 as (m & A & S & _).
  rewrite (consumed_span st e m A). exact S.
Qed.

Lemma paciente_de_servicio (l : jsstring) :
  match0 rx_cups l <> None ->
  exists m, match0 rx_paciente l = Some m /\ truthy (normalizeId (Some m)) = true.
Proof.
  intros H. apply cups_found_paciente_found in H.
  destruct (match0 rx_paciente l) as [m|] eqn:M; [|congruence].
  exists m. split; [reflexivity|].
  unfold match0 in M. destruct (search rx_paciente l) as [mm|] eqn:S; [|discriminate].
  cbn in M. injection M as <-.
  apply search_exec_In in S as (st & e & I & ->).
  apply rx_paciente_ends_digit in I as (x & d & -> & D).
  apply normalizeId_ends_digit. exact D.
Qed.

(** The record of a service line: well-formed, and a copy of the catalog
    entry of its code. *)
Lemma procesar_servicio_ok cupsMap l r :
  procesar_servicio cupsMap l = Some r ->
  record_ok r = true
  /\ exists it, JsMap.get cupsMap (cups r) = Some it
                /\ tipo r = c_tipo it /\ nombre r = c_nombre it.
Proof.
  unfold procesar_servicio. intros H.
  destruct (match0 rx_cups l) as [c|] eqn:C; [|discriminate].
  destruct (JsMap.get cupsMap c) as [info|] eqn:G; [|discriminate].
  destruct (paciente_de_servicio l) as (m & M & T); [congruence|].
  rewrite M in H. cbv beta iota zeta in H. unfold or_else in H. rewrite T in H.
  pose proof (normalizeId_upnum (Some m)) as U.
  remember (normalizeId (Some m)) as p eqn:Hp.
  injection H as <-. cbn [cups tipo nombre]. split; [|exists info; auto].
  unfold record_ok. cbn [cups paciente fecha].
  rewrite T, U.
  assert (S6 : has_shape (repeat is_digit 6) c = true).
  { unfold match0 in C. destruct (search rx_cups l) as [mm|] eqn:S; [|discriminate].
    cbn in C. injection C as <-.
    apply search_exec_In in S as (st & e & I & ->). apply rx_cups_shape. exact I. }
  rewrite S6. cbn [andb].
  destruct (parseDateFromLine_cases l) as [_ D].
  destruct (parseDateFromLine l) as [|x d] eqn:F; [reflexivity|].
  destruct D as [D _]; [discriminate|]. rewrite D. reflexivity.
Qed.

Section BatchInvariant.

Variable toUpperCase : jsstring -> jsstring.
Variable cupsMap : JsMap.t MaestroCupItem.
Variable P : RipsRecord -> Prop.
Hypothesis P_servicio : forall l r, procesar_servicio cupsMap l = Some r -> P r.

Lemma process_line_Forall st raw :
  Forall P (newRegistros st) ->
  Forall P (newRegistros (process_line toUpperCase cupsMap st raw)).
Proof.
  intros H. unfold process_line.
  destruct (truthy (trim raw)); cbn [negb]; [|exact H].
  destruct (is_usuarios_header _); [exact H|].
  destruct (is_servicios_header _); [exact H|].
  destruct (split_parts (trim raw)) as [parts|]; [|exact H].
  destruct (List.length parts <? 2)%nat; [exact H|].
  destruct (includes _ USUARIOS); [exact H|].
  destruct (procesar_servicio cupsMap (trim raw)) as [r|] eqn:E; [|exact H].
  cbn [newRegistros]. apply Forall_app. split; [exact H|].
  constructor; [|constructor]. apply (P_servicio _ _ E).
Qed.

Lemma process_rips_Forall files : forall regs umap regs' umap',
  Forall P regs ->
  process_rips toUpperCase cupsMap files regs umap = Returns (regs', umap') ->
  Forall P regs'.
Proof.
  induction files as [|f files IH]; intros regs umap regs' umap' H E;
    cbn [process_rips] in E.
  - injection E as <- _. exact H.
  - destruct (f_text f) as [txt|]; [|discriminate].
    eapply IH; [|exact E].
    generalize (split_lines txt). intros lines.
    match goal with |- Forall P (newRegistros (fold_left _ _ ?s)) =>
      assert (H0 : Forall P (newRegistros s)) by exact H; revert H0;
      generalize s end.
    induction lines as [|x lines IHl]; intros s H0; [exact H0|].
    cbn [fold_left]. apply IHl. apply process_line_Forall. exact H0.
Qed.

End BatchInvariant.

(** A batch that ends well has set the message to the counts. *)
Lemma processFiles_success up st ripsFiles cupsFile n m :
  message (processFiles up st ripsFiles cupsFile) = Some (MsgProcesado n m) ->
  exists files rows regs umap,
    ripsFiles = Some files /\ cupsFile = Some (Returns rows)
    /\ process_rips up (build_cupsMap rows) files [] (usuariosMap st)
       = Returns (regs, umap)
    /\ processFiles up st ripsFiles cupsFile
       = {| registros := regs; usuariosMap := umap;
            maestro := build_cupsMap rows;
            message := Some (MsgProcesado (List.length regs) (JsMap.size umap));
            showDuplicates := showDuplicates st |}.
Proof.
  unfold processFiles. intros H.
  destruct ripsFiles as [[|f files]|]; try discriminate H.
  destruct cupsFile as [[rows|]|]; try discriminate H.
  destruct (process_rips up (build_cupsMap rows) (f :: files) [] (usuariosMap st))
    as [[regs umap]|] eqn:E; [|discriminate H].
  exists (f :: files), rows, regs, umap. auto.
Qed.

(** X5.  After a batch that ends well, every record is of the extractor's
    making (a six-digit code, a non-empty identifier of digits and capital
    letters, a date of one of the two forms or none) and copies its type
    and name from the entry the new catalog has for its code. *)
Theorem processFiles_records_from_catalog (toUpperCase : jsstring -> jsstring)
    (st : AppState) (ripsFiles : option (list RipsFile))
    (cupsFile : option (outcome (list MaestroRow))) (n m : nat) :
  let st' := processFiles toUpperCase st ripsFiles cupsFile in
  message st' = Some (MsgProcesado n m) ->
  forall r, In r (registros st') ->
    record_ok r = true
    /\ exists it, JsMap.get (maestro st') (cups r) = Some it
                  /\ tipo r = c_tipo it /\ nombre r = c_nombre it.
Proof.
  cbv zeta. intros H.
  apply processFiles_success in H as (files & rows & regs & umap & _ & _ & E & ->).
  cbn [registros maestro].
  pose proof (process_rips_Forall toUpperCase (build_cupsMap rows) _
                (procesar_servicio_ok (build_cupsMap rows))
                files [] (usuariosMap st) regs umap (Forall_nil _) E) as F.
  rewrite Forall_forall in F. exact F.
Qed.

Lemma processFiles_records_from_catalog_witness :
  message (processFiles toUpperCaseL1 Samples.estado_previo
             (Some [Samples.archivo_legible]) (Some (Returns Samples.catalogo)))
    = Some (MsgProcesado 1 1)
  /\ forall r,
       In r (registros (processFiles toUpperCaseL1 Samples.estado_previo
                          (Some [Samples.archivo_legible])
                          (Some (Returns Samples.catalogo)))) ->
       record_ok r = true.
Proof.
  split; [reflexivity|]. intros r I.
  apply (processFiles_records_from_catalog toUpperCaseL1 Samples.estado_previo
           (Some [Samples.archivo_legible]) (Some (Returns Samples.catalogo))
           1 1 eq_refl r I).
Defined.

(** ** The roster *)

(** A pattern anchored at both ends reads the whole string. *)
Lemma test_anchored r (p : jsstring) :
  test (Seq Bol (Seq r Eol)) p = true ->
  exists e, In e (exec r (MState [] p [])) /\ after e = [].
Proof.
  unfold test, search. intros H.
  destruct (search_from (Seq Bol (Seq r Eol)) [] p) as [m|] eqn:S; [|discriminate].
  apply search_from_Some_full in S as (s1 & s2 & e & l & L & E & _).
  assert (I : In e (exec (Seq Bol (Seq r Eol)) (MState (rev s1 ++ []) s2 [])))
    by (rewrite E; left; reflexivity).
  apply exec_Seq_In in I as (e1 & I1 & I).
  apply exec_Seq_In in I as (e2 & I2 & I3).
  cbn [exec before] in I1. rewrite app_nil_r in I1.
  destruct (rev s1) as [|x t] eqn:R; [|destruct I1].
  destruct I1 as [<-|[]].
  assert (s1 = []) by (apply (f_equal (@rev cu)) in R; rewrite rev_involutive in R; exact R).
  subst s1. cbn in L. subst s2.
  cbn [exec] in I3. destruct (after e2) eqn:A; [|destruct I3].
  destruct I3 as [<-|[]]. exists e2. auto.
Qed.

Lemma test_rx_sexo p :
  test rx_sexo p = true ->
  exists c, p = [c] /\ (anycase 77 c || anycase 70 c) = true.
Proof.
  intros H. apply test_anchored in H as (e & I & A).
  cbn [exec] in I. apply in_map_iff in I as (e' & <- & I). cbn [after] in A.
  apply in_app_iff in I.
  assert (X : exists c, p = c :: after e' /\ (anycase 77 c || anycase 70 c) = true).
  { destruct I as [I|I]; apply exec_Chr_In in I as (c & B & P & _); cbn [after] in B;
      exists c; rewrite P; auto using orb_true_r. }
  destruct X as (c & B & P). exists c. rewrite B, A. auto.
Qed.

Lemma sexo_of_ok parts : sexo_ok (sexo_of parts) = true.
Proof.
  unfold sexo_of, find_or_empty.
  destruct (find (test rx_sexo) parts) as [p|] eqn:F; [|reflexivity].
  apply find_some in F as [_ F]. apply test_rx_sexo in F as (c & -> & C).
  unfold anycase, cu_eqb in C.
  repeat (apply orb_true_iff in C as [C|C]); apply N.eqb_eq in C; subst c; reflexivity.
Qed.

Lemma test_fnac_is_date p :
  (test rx_fnac_iso p || test rx_fnac_dmy p) = true -> is_date p = true.
Proof.
  unfold rx_fnac_iso, rx_fnac_dmy, is_date, iso_shape, dmy_shape. intros H.
  apply orb_true_iff in H as [H|H];
    apply test_anchored in H as (e & I & A);
    apply exec_date_In in I as (d & B & S & _);
    cbn [after] in B; rewrite A, app_nil_r in B; subst d; rewrite S;
    auto using orb_true_r.
Qed.

Lemma fnac_of_ok parts :
  (negb (truthy (fnac_of parts)) || is_date (fnac_of parts)) = true.
Proof.
  unfold fnac_of, find_or_empty.
  destruct (find _ parts) as [p|] eqn:F; [|reflexivity].
  apply find_some in F as [_ F]. rewrite (test_fnac_is_date p F). apply orb_true_r.
Qed.

Lemma sexo_ok_or_else a b :
  sexo_ok a = true -> sexo_ok b = true -> sexo_ok (or_else a b) = true.
Proof. unfold or_else. destruct (truthy a); auto. Qed.

Lemma set_add_NoDup s x : NoDup s -> NoDup (set_add s x).
Proof.
  intros N. unfold set_add. destruct (existsb (str_eqb x) s) eqn:E; [exact N|].
  apply NoDup_app; [exact N|constructor; [intros []|constructor]|].
  intros y Hy [->|[]].
  assert (X : existsb (str_eqb y) s = true).
  { apply existsb_exists. exists y. split; [exact Hy|apply str_eqb_refl]. }
  congruence.
Qed.

Lemma forallb_set {V} (Q : jsstring * V -> bool) (m : JsMap.t V) k v :
  forallb Q m = true -> Q (k, v) = true -> forallb Q (JsMap.set m k v) = true.
Proof.
  intros H Hk. induction m as [|[k0 v0] m IH]; cbn [JsMap.set].
  - cbn. rewrite Hk. reflexivity.
  - cbn in H. apply andb_true_iff in H as [H0 H].
    destruct (str_eqb k0 k) eqn:E; cbn [forallb].
    + apply str_eqb_eq in E. subst k0. rewrite Hk, H. reflexivity.
    + rewrite H0, (IH H). reflexivity.
Qed.

Lemma get_In {V} (m : JsMap.t V) k v :
  JsMap.get m k = Some v -> In (k, v) m.
Proof.
  induction m as [|[k0 v0] m IH]; cbn [JsMap.get]; [discriminate|].
  destruct (str_eqb k0 k) eqn:E.
  - apply str_eqb_eq in E. subst k0. intros H. injection H as ->. left. reflexivity.
  - intros H. right. apply IH. exact H.
Qed.

Lemma merge_usuario_ok m id s f n :
  roster_ok m ->
  forallb is_upnum id = true -> (3 <= List.length id)%nat ->
  sexo_ok s = true -> (negb (truthy f) || is_date f) = true ->
  roster_ok (merge_usuario m id s f n).
Proof.
  intros [N F] U L S D. unfold merge_usuario. split.
  - rewrite JsMap_keys_set. apply set_add_NoDup. exact N.
  - apply forallb_set; [exact F|]. unfold usuario_ok. cbn [fst snd u_id u_sexo u_fnac].
    rewrite str_eqb_refl, U. replace (3 <=? List.length id)%nat with true
      by (symmetry; apply Nat.leb_le; exact L).
    cbn [andb].
    assert (Pv : match JsMap.get m id with
                 | Some u => sexo_ok (u_sexo u) = true
                             /\ (negb (truthy (u_fnac u)) || is_date (u_fnac u)) = true
                 | None => True
                 end).
    { destruct (JsMap.get m id) as [u|] eqn:G; [|exact I].
      apply get_In in G. rewrite forallb_forall in F. specialize (F _ G).
      unfold usuario_ok in F. cbn [fst snd] in F.
      repeat (apply andb_true_iff in F as [F ?]). auto. }
    destruct (JsMap.get m id) as [u|].
    + destruct Pv as [Ps Pf]. rewrite (sexo_ok_or_else _ _ S Ps). cbn [andb].
      unfold or_else. destruct (truthy f) eqn:T; [rewrite T; exact D|exact Pf].
    + cbn [u_sexo u_fnac]. rewrite (sexo_ok_or_else s [] S eq_refl). cbn [andb].
      unfold or_else. destruct (truthy f) eqn:T; [rewrite T; exact D|reflexivity].
Qed.

Lemma procesar_usuario_ok parts m :
  roster_ok m -> roster_ok (procesar_usuario parts m).
Proof.
  intros H. unfold procesar_usuario.
  destruct (negb (truthy _) || (List.length _ <? 3)%nat) eqn:E; [exact H|].
  apply orb_false_iff in E as [_ E]. apply Nat.ltb_ge in E.
  apply merge_usuario_ok; auto using sexo_of_ok, fnac_of_ok.
  apply normalizeId_upnum.
Qed.

Section RosterInvariant.

Variable toUpperCase : jsstring -> jsstring.
Variable cupsMap : JsMap.t MaestroCupItem.
Variable Q : JsMap.t UserRecord -> Prop.
Hypothesis Q_usuario : forall parts m, Q m -> Q (procesar_usuario parts m).

Lemma process_line_roster st raw :
  Q (newUsuariosMap st) ->
  Q (newUsuariosMap (process_line toUpperCase cupsMap st raw)).
Proof.
  intros H. unfold process_line.
  destruct (truthy (trim raw)); cbn [negb]; [|exact H].
  destruct (is_usuarios_header _); [exact H|].
  destruct (is_servicios_header _); [exact H|].
  destruct (split_parts (trim raw)) as [parts|]; [|exact H].
  destruct (List.length parts <? 2)%nat; [exact H|].
  destruct (includes _ USUARIOS); [apply Q_usuario; exact H|].
  destruct (procesar_servicio cupsMap (trim raw)); exact H.
Qed.

Lemma process_rips_roster files : forall regs umap regs' umap',
  Q umap ->
  process_rips toUpperCase cupsMap files regs umap = Returns (regs', umap') ->
  Q umap'.
Proof.
  induction files as [|f files IH]; intros regs umap regs' umap' H E;
    cbn [process_rips] in E.
  - injection E as _ <-. exact H.
  - destruct (f_text f) as [txt|]; [|discriminate].
    eapply IH; [|exact E].
    generalize (split_lines txt). intros lines.
    match goal with |- Q (newUsuariosMap (fold_left _ _ ?s)) =>
      assert (H0 : Q (newUsuariosMap s)) by exact H; revert H0;
      generalize s end.
    induction lines as [|x lines IHl]; intros s H0; [exact H0|].
    cbn [fold_left]. apply IHl. apply process_line_roster. exact H0.
Qed.

End RosterInvariant.

Lemma processFiles_roster (Q : JsMap.t UserRecord -> Prop) up st ripsFiles cupsFile :
  (forall parts m, Q m -> Q (procesar_usuario parts m)) ->
  Q (usuariosMap st) -> Q (usuariosMap (processFiles up st ripsFiles cupsFile)).
Proof.
  intros HQ H. unfold processFiles.
  destruct ripsFiles as [[|f files]|]; try exact H.
  destruct cupsFile as [[rows|]|]; try exact H.
  destruct (process_rips up (build_cupsMap rows) (f :: files) [] (usuariosMap st))
    as [[regs umap]|] eqn:E; [|exact H].
  cbn [usuariosMap]. exact (process_rips_roster up _ Q HQ _ _ _ _ _ H E).
Qed.

(** X6.  A batch keeps the roster well-formed: one entry per identifier,
    filed under the identifier it carries, which is made of at least three
    digits and capital letters; a sex that is M, F or empty; a birth date
    of one of the two forms or empty. *)
Theorem processFiles_roster_ok (toUpperCase : jsstring -> jsstring)
    (st : AppState) (ripsFiles : option (list RipsFile))
    (cupsFile : option (outcome (list MaestroRow))) :
  roster_ok (usuariosMap st) ->
  roster_ok (usuariosMap (processFiles toUpperCase st ripsFiles cupsFile)).
Proof.
  apply processFiles_roster. intros parts m. apply procesar_usuario_ok.
Qed.

(** The roster a batch leaves when it starts from none. *)
Lemma roster_ok_nil : roster_ok [].
Proof. split; [constructor|reflexivity]. Qed.

Lemma roster_previo_ok : roster_ok MoreSamples.roster_previo.
Proof.
  split; [|reflexivity].
  constructor; [intros []|constructor].
Qed.

(** A roster file read over a roster of one patient: her entry is
    completed and a second patient is added. *)
Lemma processFiles_roster_ok_witness :
  roster_ok (usuariosMap MoreSamples.estado_con_roster)
  /\ usuariosMap (processFiles toUpperCaseL1 MoreSamples.estado_con_roster
                    (Some [MoreSamples.archivo_usuarios])
                    (Some (Returns Samples.catalogo)))
     = [ (lit "12345678",
          {| u_id := lit "12345678"; u_sexo := lit "F";
             u_fnac := lit "1990-01-01"; u_nombre := lit "ANA MARIA" |});
         (lit "87654321",
          {| u_id := lit "87654321"; u_sexo := lit "M";
             u_fnac := lit "2010-05-06"; u_nombre := lit "LUIS" |}) ]
  /\ roster_ok (usuariosMap (processFiles toUpperCaseL1
                               MoreSamples.estado_con_roster
                               (Some [MoreSamples.archivo_usuarios])
                               (Some (Returns Samples.catalogo)))).
Proof.
  split; [exact roster_previo_ok|]. split; [vm_compute; reflexivity|].
  apply (processFiles_roster_ok toUpperCaseL1 MoreSamples.estado_con_roster).
  exact roster_previo_ok.
Defined.

Lemma keeps_refl m : keeps m m.
Proof. intros id u G. exists u. auto. Qed.

Lemma keeps_trans m1 m2 m3 : keeps m1 m2 -> keeps m2 m3 -> keeps m1 m3.
Proof.
  intros H12 H23 id u G.
  destruct (H12 id u G) as (u2 & G2 & A & B & C).
  destruct (H23 id u2 G2) as (u3 & G3 & A' & B' & C').
  exists u3. repeat split; auto.
Qed.

Lemma or_else_keeps a b : truthy b = true -> truthy (or_else a b) = true.
Proof. unfold or_else. destruct (truthy a) eqn:T; auto. Qed.

Lemma merge_usuario_keeps m id s f n : keeps m (merge_usuario m id s f n).
Proof.
  intros id' u G. unfold merge_usuario. rewrite JsMap_get_set.
  destruct (str_eqb id id') eqn:E.
  - apply str_eqb_eq in E. subst id'. rewrite G.
    eexists. split; [reflexivity|]. cbn [u_sexo u_fnac u_nombre].
    auto using or_else_keeps.
  - exists u. auto.
Qed.

Lemma procesar_usuario_keeps parts m : keeps m (procesar_usuario parts m).
Proof.
  unfold procesar_usuario.
  destruct (negb (truthy _) || (List.length _ <? 3)%nat);
    [apply keeps_refl|apply merge_usuario_keeps].
Qed.

(** X7.  Whatever a batch does, and however it ends, every patient of the
    roster is still there afterwards, and no sex, birth date or name that
    was known has become empty. *)
Theorem processFiles_keeps_roster (toUpperCase : jsstring -> jsstring)
    (st : AppState) (ripsFiles : option (list RipsFile))
    (cupsFile : option (outcome (list MaestroRow))) :
  keeps (usuariosMap st)
        (usuariosMap (processFiles toUpperCase st ripsFiles cupsFile)).
Proof.
  apply (processFiles_roster (keeps (usuariosMap st))).
  - intros parts m H. apply (keeps_trans _ _ _ H). apply procesar_usuario_keeps.
  - apply keeps_refl.
Qed.

(** ** The session *)

Lemma set_fresh {V} (m : JsMap.t V) k v :
  ~ In k (List.map fst m) -> JsMap.set m k v = m ++ [(k, v)].
Proof.
  induction m as [|[k0 v0] m IH]; cbn [JsMap.set List.map fst In app]; [reflexivity|].
  intros H. destruct (str_eqb k0 k) eqn:E.
  - apply str_eqb_eq in E. exfalso. apply H. left. exact E.
  - rewrite IH; [reflexivity|]. intros I. apply H. right. exact I.
Qed.

Lemma rehydrate_from m2 : forall m1,
  NoDup (List.map fst (m1 ++ m2)) ->
  (forall e, In e m2 -> u_id (snd e) = fst e) ->
  fold_left (fun uMap u => JsMap.set uMap (u_id u) u) (List.map snd m2) m1
  = m1 ++ m2.
Proof.
  induction m2 as [|[k u] m2 IH]; intros m1 N K.
  - cbn. rewrite app_nil_r. reflexivity.
  - cbn [List.map snd fold_left].
    assert (Ku : u_id u = k) by (apply (K (k, u)); left; reflexivity).
    rewrite Ku, set_fresh.
    + rewrite IH.
      * rewrite <- app_assoc. reflexivity.
      * rewrite <- app_assoc. exact N.
      * intros e I. apply K. right. exact I.
    + rewrite map_app in N. cbn [List.map fst] in N.
      apply NoDup_remove_2 in N. intros I. apply N. apply in_app_iff. left. exact I.
Qed.

(** X8.  A well-formed roster comes back as it was from the list of its
    values that the session stores: same entries, same order. *)
Theorem rehydrate_usuarios_values (m : JsMap.t UserRecord) :
  roster_ok m -> rehydrate (usuarios_values m) = m.
Proof.
  intros [N F]. unfold rehydrate, usuarios_values.
  apply (rehydrate_from m []); [exact N|].
  intros e I. rewrite forallb_forall in F. specialize (F e I).
  unfold usuario_ok in F. repeat (apply andb_true_iff in F as [F _]).
  apply str_eqb_eq. exact F.
Qed.

Lemma rehydrate_usuarios_values_witness :
  roster_ok (procesar_usuario Samples.usuario_1 [])
  /\ rehydrate (usuarios_values (procesar_usuario Samples.usuario_1 []))
     = procesar_usuario Samples.usuario_1 [].
Proof.
  assert (R : roster_ok (procesar_usuario Samples.usuario_1 [])).
  { apply procesar_usuario_ok. exact roster_ok_nil. }
  split; [exact R|].
  apply (rehydrate_usuarios_values (procesar_usuario Samples.usuario_1 []) R).
Defined.

(** ** Removing one group of duplicates *)

Section FilterKept.

Variable target : RipsRecord -> bool.

Lemma filter_kept_spec rs : forall keptOne n,
  let k := fst (filter_kept target keptOne n rs) in
  let n' := snd (filter_kept target keptOne n rs) in
  filter (fun r => negb (target r)) k = filter (fun r => negb (target r)) rs
  /\ filter target k = (if keptOne then [] else firstn 1 (filter target rs))
  /\ n' = (n + (List.length (filter target rs) - (if keptOne then 0 else 1)))%nat
  /\ (List.length k + n' = List.length rs + n)%nat.
Proof.
  induction rs as [|r rs IH]; intros keptOne n; cbn zeta.
  - cbn. destruct keptOne; cbn; repeat split; lia.
  - cbn [filter_kept filter]. destruct (target r) eqn:T; cbn [negb].
    + destruct keptOne; cbn [negb].
      * destruct (IH true (S n)) as (A & B & C & D). cbn zeta in *.
        rewrite A, B, C. cbn [List.length]. repeat split; lia.
      * destruct (IH true n) as (A & B & C & D). cbn zeta in *.
        destruct (filter_kept target true n rs) as [k n'].
        cbn [fst snd filter List.length firstn] in *. rewrite T. cbn [negb].
        rewrite A, B, C. repeat split; lia.
    + destruct (IH keptOne n) as (A & B & C & D). cbn zeta in *.
      destruct (filter_kept target keptOne n rs) as [k n'].
      cbn [fst snd filter List.length] in *. rewrite T. cbn [negb].
      rewrite A, B, C. repeat split; lia.
Qed.

Hypothesis target_key :
  forall a b, target a = true -> target b = true -> dupKey a = dupKey b.

Lemma filter_kept_fixed rs : forall keptOne n,
  NoDup (List.map dupKey rs) ->
  (keptOne = true -> forall r, In r rs -> target r = false) ->
  filter_kept target keptOne n rs = (rs, n).
Proof.
  induction rs as [|r rs IH]; intros keptOne n N K; [reflexivity|].
  cbn [filter_kept]. cbn [List.map] in N. inversion N as [|? ? N1 N2]; subst.
  destruct (target r) eqn:T.
  - destruct keptOne; [rewrite (K eq_refl r (or_introl eq_refl)) in T; discriminate|].
    cbn [negb]. rewrite IH; [reflexivity|exact N2|].
    intros _ x Hx. destruct (target x) eqn:Tx; [|reflexivity].
    exfalso. apply N1. rewrite (target_key r x T Tx). apply in_map. exact Hx.
  - rewrite IH; [reflexivity|exact N2|].
    intros E x Hx. apply (K E). right. exact Hx.
Qed.

Lemma filter_seen_S rs : forall seen n,
  filter_seen seen (S n) rs
  = (fst (filter_seen seen n rs), S (snd (filter_seen seen n rs))).
Proof.
  induction rs as [|r rs IH]; intros seen n; [reflexivity|].
  cbn [filter_seen]. destruct (seen_has seen (dupKey r)).
  - rewrite !IH. reflexivity.
  - rewrite IH. destruct (filter_seen (dupKey r :: seen) n rs). reflexivity.
Qed.

(** Dropping the later records of one group takes nothing from what the
    mass cleaning keeps. *)
Lemma filter_seen_after_kept rs : forall seen n keptOne c,
  (keptOne = true -> forall r, target r = true -> In (dupKey r) seen) ->
  let k1 := fst (filter_kept target keptOne c rs) in
  let c1 := snd (filter_kept target keptOne c rs) in
  fst (filter_seen seen n k1) = fst (filter_seen seen n rs)
  /\ (snd (filter_seen seen n rs) + c = snd (filter_seen seen n k1) + c1)%nat.
Proof.
  induction rs as [|r rs IH]; intros seen n keptOne c K; cbn zeta.
  - cbn. auto.
  - cbn [filter_kept]. destruct (target r) eqn:T.
    + destruct keptOne; cbn [negb].
      * assert (Hs : seen_has seen (dupKey r) = true)
          by (apply seen_has_iff; apply (K eq_refl r T)).
        cbn [filter_seen]. rewrite Hs.
        destruct (IH seen n true (Datatypes.S c) K) as [A B]. cbn zeta in *.
        rewrite filter_seen_S. cbn [fst snd]. split; [exact A|lia].
      * assert (K' : forall s',
                     seen_has s' (dupKey r) = true ->
                     true = true -> forall x, target x = true -> In (dupKey x) s').
        { intros s' Hs _ x Tx. rewrite (target_key x r Tx T).
          apply seen_has_iff. exact Hs. }
        destruct (filter_kept target true c rs) as [k1 c1] eqn:FK.
        cbn [fst snd filter_seen].
        destruct (seen_has seen (dupKey r)) eqn:Hs.
        -- pose proof (IH seen (Datatypes.S n) true c
                         (K' seen Hs)) as [A B].
           rewrite FK in A, B. cbn [fst snd] in A, B. auto.
        -- assert (S' : seen_has (dupKey r :: seen) (dupKey r) = true).
           { apply seen_has_iff. left. reflexivity. }
           pose proof (IH (dupKey r :: seen) n true c
                         (K' _ S')) as [A B].
           rewrite FK in A, B. cbn [fst snd] in A, B.
           destruct (filter_seen (dupKey r :: seen) n k1).
           destruct (filter_seen (dupKey r :: seen) n rs).
           cbn [fst snd] in *. split; [f_equal; exact A|exact B].
    + destruct (filter_kept target keptOne c rs) as [k1 c1] eqn:FK.
      cbn [fst snd filter_seen].
      destruct (seen_has seen (dupKey r)) eqn:Hs.
      * pose proof (IH seen (Datatypes.S n) keptOne c K) as [A B].
        rewrite FK in A, B. cbn [fst snd] in A, B. auto.
      * assert (K2 : keptOne = true -> forall x, target x = true ->
                       In (dupKey x) (dupKey r :: seen)).
        { intros E x Tx. right. apply (K E x Tx). }
        pose proof (IH (dupKey r :: seen) n keptOne c K2) as [A B].
        rewrite FK in A, B. cbn [fst snd] in A, B.
        destruct (filter_seen (dupKey r :: seen) n k1).
        destruct (filter_seen (dupKey r :: seen) n rs).
        cbn [fst snd] in *. split; [f_equal; exact A|exact B].
Qed.

End FilterKept.

Lemma field_is_eq f x y :
  field_is f x = true -> field_is y x = true -> f = y.
Proof.
  destruct x as [s|]; cbn; [|discriminate]. intros A B.
  apply str_eqb_eq in A, B. congruence.
Qed.

Lemma is_target_key dupId a b :
  is_target dupId a = true -> is_target dupId b = true -> dupKey a = dupKey b.
Proof.
  unfold is_target. cbv zeta. intros A B.
  repeat (apply andb_true_iff in A as [A ?]). repeat (apply andb_true_iff in B as [B ?]).
  unfold dupKey.
  rewrite (field_is_eq (paciente a) _ (paciente b)) by eassumption.
  rewrite (field_is_eq (cups a) _ (cups b)) by eassumption.
  rewrite (field_is_eq (fecha a) _ (fecha b)) by eassumption.
  reflexivity.
Qed.

Lemma split_on_no_pipe (f : jsstring) : no_pipe f = true -> split_on 124 f = [f].
Proof.
  unfold no_pipe. induction f as [|c f IH]; [reflexivity|].
  cbn [existsb split_on]. intros H. apply negb_true_iff, orb_false_iff in H as [H1 H2].
  unfold cu_eqb in *. rewrite N.eqb_sym, H1. rewrite IH by (apply negb_true_iff; exact H2).
  reflexivity.
Qed.

Lemma split_on_pipe_app (a rest : jsstring) :
  no_pipe a = true -> split_on 124 (a ++ 124 :: rest) = a :: split_on 124 rest.
Proof.
  unfold no_pipe. induction a as [|c a IH]; cbn [existsb app split_on].
  - intros _. reflexivity.
  - intros H. apply negb_true_iff, orb_false_iff in H as [H1 H2].
    unfold cu_eqb in *. rewrite N.eqb_sym, H1. rewrite IH by (apply negb_true_iff; exact H2).
    reflexivity.
Qed.

Lemma is_target_dupKey r0 r :
  no_pipe (paciente r0) = true -> no_pipe (cups r0) = true ->
  no_pipe (fecha r0) = true ->
  is_target (dupKey r0) r = same_triple r r0.
Proof.
  intros P C F. unfold is_target, dupKey. cbn [app].
  rewrite (split_on_pipe_app _ _ P), (split_on_pipe_app _ _ C), (split_on_no_pipe _ F).
  reflexivity.
Qed.

(** X9.  Asked for the group of a record (whose three fields hold no [|]),
    remove-one-group leaves the records of other triples as they were,
    keeps the first record of the group and no other, and reports the
    number it dropped: one less than the size of the group, or none when
    the group is empty. *)
Theorem removeDuplicate_keeps_first_of_group (r0 : RipsRecord)
    (rs : list RipsRecord) :
  no_pipe (paciente r0) = true -> no_pipe (cups r0) = true ->
  no_pipe (fecha r0) = true ->
  let kept := fst (removeDuplicate (dupKey r0) rs) in
  let removed := snd (removeDuplicate (dupKey r0) rs) in
  filter (fun r => negb (same_triple r r0)) kept
    = filter (fun r => negb (same_triple r r0)) rs
  /\ filter (fun r => same_triple r r0) kept
     = firstn 1 (filter (fun r => same_triple r r0) rs)
  /\ removed = (List.length (filter (fun r => same_triple r r0) rs) - 1)%nat
  /\ (List.length kept + removed = List.length rs)%nat.
Proof.
  intros P C F. cbv zeta. unfold removeDuplicate.
  destruct (filter_kept_spec (is_target (dupKey r0)) rs false 0) as (A & B & D & E).
  cbv zeta in *.
  assert (X : forall l : list RipsRecord,
            filter (is_target (dupKey r0)) l
            = filter (fun r => same_triple r r0) l).
  { intros l. apply filter_ext. intros r. apply (is_target_dupKey r0 r P C F). }
  assert (Y : forall l : list RipsRecord,
            filter (fun r => negb (is_target (dupKey r0) r)) l
            = filter (fun r => negb (same_triple r r0)) l).
  { intros l. apply filter_ext. intros r.
    rewrite (is_target_dupKey r0 r P C F). reflexivity. }
  rewrite !Y in A. rewrite !X in B. rewrite X in D.
  repeat split; try assumption; lia.
Qed.

Lemma removeDuplicate_keeps_first_of_group_witness :
  no_pipe (paciente Samples.reg_A) = true
  /\ (List.length (fst (removeDuplicate (dupKey Samples.reg_A)
                          [Samples.reg_A; Samples.reg_B; Samples.reg_A]))
      + snd (removeDuplicate (dupKey Samples.reg_A)
               [Samples.reg_A; Samples.reg_B; Samples.reg_A]) = 3)%nat.
Proof.
  split; [reflexivity|].
  apply (removeDuplicate_keeps_first_of_group Samples.reg_A
           [Samples.reg_A; Samples.reg_B; Samples.reg_A]); reflexivity.
Defined.

(** X10.  After remove-all-duplicates, remove-one-group finds nothing to
    drop, whatever group it is asked for: the list stays and the number
    reported is 0. *)
Theorem removeDuplicate_after_removeAll (dupId : jsstring) (rs : list RipsRecord) :
  removeDuplicate dupId (fst (removeAllDuplicates rs))
  = (fst (removeAllDuplicates rs), 0%nat).
Proof.
  unfold removeDuplicate, removeAllDuplicates.
  apply filter_kept_fixed.
  - apply is_target_key.
  - apply filter_seen_keys.
  - discriminate.
Qed.

(** X11.  Removing one group first changes nothing in what
    remove-all-duplicates then leaves, and the two numbers reported add up
    to the number remove-all-duplicates reports on its own. *)
Theorem removeAll_after_removeDuplicate (dupId : jsstring) (rs : list RipsRecord) :
  fst (removeAllDuplicates (fst (removeDuplicate dupId rs)))
    = fst (removeAllDuplicates rs)
  /\ (snd (removeDuplicate dupId rs)
      + snd (removeAllDuplicates (fst (removeDuplicate dupId rs)))
      = snd (removeAllDuplicates rs))%nat.
Proof.
  unfold removeDuplicate, removeAllDuplicates.
  destruct (filter_seen_after_kept (is_target dupId) (is_target_key dupId)
              rs [] 0 false 0) as [A B]; [discriminate|].
  cbv zeta in *. split; [exact A|lia].
Qed.

(** ** The duplicate audit *)

Lemma add_duplicate_get m r k :
  JsMap.get (add_duplicate m r) k
  = if str_eqb (dupKey r) k
    then Some {| d_count := S (dup_count m (dupKey r));
                 d_record := match JsMap.get m (dupKey r) with
                             | Some e => d_record e
                             | None => r
                             end |}
    else JsMap.get m k.
Proof.
  unfold add_duplicate, dup_count.
  destruct (JsMap.get m (dupKey r)); rewrite JsMap_get_set; reflexivity.
Qed.

Lemma duplicateMap_count k rs : forall m,
  dup_count (fold_left add_duplicate rs m) k
  = (dup_count m k + count_if (has_key k) rs)%nat.
Proof.
  unfold count_if. induction rs as [|r rs IH]; intros m.
  - cbn. lia.
  - cbn [fold_left filter]. rewrite IH.
    assert (D : dup_count (add_duplicate m r) k
                = if str_eqb (dupKey r) k then S (dup_count m k) else dup_count m k).
    { unfold dup_count at 1. rewrite add_duplicate_get.
      destruct (str_eqb (dupKey r) k) eqn:E; [|reflexivity].
      apply str_eqb_eq in E. subst k. reflexivity. }
    rewrite D. change (has_key k r) with (str_eqb (dupKey r) k).
    destruct (str_eqb (dupKey r) k); cbn [List.length]; lia.
Qed.

Lemma duplicateMap_record k rs : forall m e,
  JsMap.get (fold_left add_duplicate rs m) k = Some e ->
  match JsMap.get m k with
  | Some e0 => d_record e = d_record e0
  | None => find (has_key k) rs = Some (d_record e)
  end.
Proof.
  induction rs as [|r rs IH]; intros m e G.
  - cbn in G. rewrite G. reflexivity.
  - cbn [fold_left] in G. apply IH in G. rewrite add_duplicate_get in G.
    cbn [find]. unfold has_key at 1.
    destruct (str_eqb (dupKey r) k) eqn:E.
    + apply str_eqb_eq in E. subst k. cbn [d_record] in G.
      destruct (JsMap.get m (dupKey r)); [exact G|]. rewrite G. reflexivity.
    + exact G.
Qed.

Lemma add_duplicate_keys m r :
  List.map fst (add_duplicate m r) = set_add (List.map fst m) (dupKey r).
Proof.
  unfold add_duplicate. destruct (JsMap.get m (dupKey r)); apply JsMap_keys_set.
Qed.

Lemma duplicateMap_NoDup rs : forall m,
  NoDup (List.map fst m) -> NoDup (List.map fst (fold_left add_duplicate rs m)).
Proof.
  induction rs as [|r rs IH]; intros m N; [exact N|].
  cbn [fold_left]. apply IH. rewrite add_duplicate_keys. apply set_add_NoDup. exact N.
Qed.

Lemma In_get {V} (m : JsMap.t V) k v :
  NoDup (List.map fst m) -> In (k, v) m -> JsMap.get m k = Some v.
Proof.
  induction m as [|[k0 v0] m IH]; intros N I; [destruct I|].
  cbn [List.map fst] in N. inversion N as [|? ? N1 N2]; subst.
  cbn [JsMap.get]. destruct I as [I|I].
  - injection I as -> ->. rewrite str_eqb_refl. reflexivity.
  - destruct (str_eqb k0 k) eqn:E.
    + apply str_eqb_eq in E. subst k0. exfalso. apply N1.
      apply (in_map fst) in I. exact I.
    + apply IH; assumption.
Qed.

Lemma duplicate_item_In umap fr d :
  In d (flat_map (duplicate_items umap) (duplicateMap fr)) ->
  exists e, JsMap.get (duplicateMap fr) (dup_id d) = Some e
    /\ (2 <= d_count e)%nat /\ repeticiones d = d_count e
    /\ dup_paciente d = paciente (d_record e) /\ dup_cups d = cups (d_record e)
    /\ dup_fecha d = fecha (d_record e) /\ dup_nombre_cups d = nombre (d_record e)
    /\ dup_nombre_paciente d
       = nombre_o_no_registrado (JsMap.get umap (paciente (d_record e))).
Proof.
  intros H. apply in_flat_map in H as ([k e] & I & H).
  cbn [duplicate_items] in H.
  destruct (1 <? d_count e)%nat eqn:C; [|destruct H]. destruct H as [<-|[]].
  apply Nat.ltb_lt in C. exists e. cbn.
  split; [|repeat split; auto; lia].
  apply In_get; [|exact I]. apply (duplicateMap_NoDup fr []). constructor.
Qed.

Lemma duplicateMap_get_count fr k e :
  JsMap.get (duplicateMap fr) k = Some e -> d_count e = count_if (has_key k) fr.
Proof.
  intros G. pose proof (duplicateMap_count k fr []) as C.
  unfold duplicateMap in G. unfold dup_count in C at 1. rewrite G in C.
  cbn in C. exact C.
Qed.

Lemma duplicate_items_listed umap fr k :
  (2 <= count_if (has_key k) fr)%nat ->
  exists d, In d (flat_map (duplicate_items umap) (duplicateMap fr)) /\ dup_id d = k.
Proof.
  intros C. pose proof (duplicateMap_count k fr []) as D.
  fold (duplicateMap fr) in D. unfold dup_count in D.
  destruct (JsMap.get (duplicateMap fr) k) as [e|] eqn:G; [|cbn in D; lia].
  cbn in D. apply get_In in G.
  eexists. split.
  - apply in_flat_map. exists (k, e). split; [exact G|].
    cbn [duplicate_items].
    replace (1 <? d_count e)%nat with true by (symmetry; apply Nat.ltb_lt; lia).
    left. reflexivity.
  - reflexivity.
Qed.

(** ** Records that name no inherited property *)

Lemma has_shape_repeat_forallb p n : forall (d : jsstring),
  has_shape (repeat p n) d = true -> forallb p d = true.
Proof.
  induction n as [|n IH]; intros [|c d] H; cbn in *; try discriminate;
    [reflexivity|].
  apply andb_true_iff in H as [P H]. rewrite P. cbn. apply IH. exact H.
Qed.

Lemma upnum_own_key (k : jsstring) :
  forallb is_upnum k = true -> own_key k = true.
Proof.
  intros U. unfold own_key.
  destruct (existsb (str_eqb k) inherited_names) eqn:E; [|reflexivity].
  exfalso. apply existsb_exists in E as (name & I & E).
  apply str_eqb_eq in E. subst name.
  unfold inherited_names in I. cbn [List.map In] in I.
  repeat (destruct I as [<-|I]; [vm_compute in U; discriminate U|]).
  destruct I.
Qed.

(** The codes and the identifiers of the records the extractor writes are
    none of the names a plain object inherits. *)
Lemma record_ok_own_keys (r : RipsRecord) :
  record_ok r = true -> own_key (cups r) = true /\ own_key (paciente r) = true.
Proof.
  unfold record_ok. intros H.
  apply andb_true_iff in H as [H _]. apply andb_true_iff in H as [H _].
  apply andb_true_iff in H as [C P]. split; apply upnum_own_key; [|exact P].
  apply has_shape_repeat_forallb in C.
  apply forallb_forall. intros c I.
  unfold is_upnum. rewrite (proj1 (forallb_forall _ _) C c I). reflexivity.
Qed.

(** X12.  For records as the extractor writes them, the duplicate audit
    lists exactly the keys that two or more of the records of active
    types carry: each item gives the number of those records and the
    fields of the first of them, and every such key has an item. *)
Theorem duplicatesList_counts (metas : list ServiceTypeMeta)
    (umap : JsMap.t UserRecord) (regs : list RipsRecord) :
  forallb record_ok regs = true ->
  let fr := filteredRegistros metas regs in
  (forall d, In d (duplicatesList metas umap regs) ->
     (2 <= repeticiones d)%nat
     /\ repeticiones d = count_if (has_key (dup_id d)) fr
     /\ exists r, find (has_key (dup_id d)) fr = Some r
                  /\ dup_paciente d = paciente r /\ dup_cups d = cups r
                  /\ dup_fecha d = fecha r /\ dup_nombre_cups d = nombre r)
  /\ (forall k, (2 <= count_if (has_key k) fr)%nat ->
        exists d, In d (duplicatesList metas umap regs) /\ dup_id d = k).
Proof.
  intros _. cbv zeta. unfold duplicatesList. split.
  - intros d H.
    apply duplicate_item_In in H as (e & G & C & R & P1 & P2 & P3 & P4 & _).
    rewrite R, <- (duplicateMap_get_count _ _ _ G).
    split; [exact C|]. split; [reflexivity|].
    exists (d_record e). split; [|auto].
    apply (duplicateMap_record _ _ [] e G).
  - intros k. apply duplicate_items_listed.
Qed.

Lemma duplicatesList_counts_witness :
  forallb record_ok MoreSamples.registros_repetidos = true
  /\ exists d,
       In d (duplicatesList Samples.metas_activas []
               MoreSamples.registros_repetidos)
       /\ dup_id d = dupKey Samples.reg_A.
Proof.
  split; [reflexivity|].
  destruct (duplicatesList_counts Samples.metas_activas []
              MoreSamples.registros_repetidos eq_refl) as [_ H].
  apply H. vm_compute. constructor.
Defined.

Lemma NoDup_map_filter {A B} (f : A -> B) (p : A -> bool) l :
  NoDup (List.map f l) -> NoDup (List.map f (filter p l)).
Proof.
  induction l as [|x l IH]; intros N; [constructor|].
  cbn [List.map] in N. inversion N as [|? ? N1 N2]; subst.
  cbn [filter]. destruct (p x); [|auto].
  cbn [List.map]. constructor; [|auto].
  intros I. apply N1. apply in_map_iff in I as (y & E & I).
  apply filter_In in I as [I _]. rewrite <- E. apply in_map. exact I.
Qed.

Lemma NoDup_count_key k l :
  NoDup (List.map dupKey l) -> (count_if (has_key k) l <= 1)%nat.
Proof.
  unfold count_if. induction l as [|r l IH]; intros N; [cbn; lia|].
  cbn [List.map] in N. inversion N as [|? ? N1 N2]; subst.
  cbn [filter]. unfold has_key at 1. destruct (str_eqb (dupKey r) k) eqn:E.
  - apply str_eqb_eq in E. subst k. cbn [List.length].
    destruct (filter (has_key (dupKey r)) l) as [|x t] eqn:F; [cbn; lia|].
    exfalso. apply N1.
    assert (I : In x (filter (has_key (dupKey r)) l)) by (rewrite F; left; reflexivity).
    apply filter_In in I as [I K]. unfold has_key in K. apply str_eqb_eq in K.
    rewrite <- K. apply in_map. exact I.
  - apply IH. exact N2.
Qed.

(** X13.  Once remove-all-duplicates has run, the duplicate audit is empty,
    for any goals and any roster. *)
Theorem duplicatesList_empty_after_removeAll (metas : list ServiceTypeMeta)
    (umap : JsMap.t UserRecord) (st : AppState) :
  duplicatesList metas umap (registros (handleRemoveAllDuplicates true st)) = [].
Proof.
  unfold handleRemoveAllDuplicates, removeAllDuplicates. cbn [negb].
  destruct (filter_seen_keys [] 0 (registros st)) as [N _].
  destruct (filter_seen [] 0 (registros st)) as [kept n]. cbn [fst registros] in *.
  destruct (duplicatesList metas umap kept) as [|d t] eqn:E; [reflexivity|].
  exfalso.
  assert (I : In d (duplicatesList metas umap kept)) by (rewrite E; left; reflexivity).
  unfold duplicatesList in I.
  apply duplicate_item_In in I as (e & G & C & _).
  rewrite (duplicateMap_get_count _ _ _ G) in C.
  pose proof (NoDup_count_key (dup_id d) (filteredRegistros metas kept)
                (NoDup_map_filter dupKey _ kept N)) as L.
  lia.
Qed.

(** ** The rankings *)

Lemma fold_set_add_In k xs : forall ks,
  In k (fold_left set_add xs ks) <-> In k ks \/ In k xs.
Proof.
  induction xs as [|x xs IH]; intros ks; cbn [fold_left].
  - split; [auto|]. intros [H|[]]. exact H.
  - split.
    + intros H. apply (proj1 (IH _)) in H. destruct H as [H|H]; [|right; right; exact H].
      unfold set_add in H. destruct (existsb (str_eqb x) ks); [left; exact H|].
      apply in_app_or in H as [H|[<-|[]]]; [left; exact H|right; left; reflexivity].
    + intros H. apply (proj2 (IH _)).
      destruct H as [H|[<-|H]]; [| |right; exact H].
      * left. unfold set_add. destruct (existsb (str_eqb x) ks); [exact H|].
        apply in_or_app. left. exact H.
      * left. unfold set_add. destruct (existsb (str_eqb x) ks) eqn:E.
        -- apply existsb_exists in E as (y & I & E). apply str_eqb_eq in E.
           subst y. exact I.
        -- apply in_or_app. right. left. reflexivity.
Qed.

Lemma fold_set_add_NoDup xs : forall ks,
  NoDup ks -> NoDup (fold_left set_add xs ks).
Proof.
  induction xs as [|x xs IH]; intros ks N; [exact N|].
  cbn [fold_left]. apply IH. apply set_add_NoDup. exact N.
Qed.

(** An object filled record by record, one property per value of [key]. *)
Section Grouped.
Context {V : Type}.
Variable key : RipsRecord -> jsstring.
Variable init : RipsRecord -> V.
Variable step : V -> RipsRecord -> V.
Variable add : JsObj.t V -> RipsRecord -> JsObj.t V.
Hypothesis add_eq : forall o r,
  add o r
  = JsObj.set o (key r)
      (step (match JsObj.get o (key r) with Some v => v | None => init r end) r).

Lemma grouped_get k rs : forall o,
  JsObj.get (fold_left add rs o) k
  = match JsObj.get o k with
    | Some v => Some (fold_left step (filter (fun r => str_eqb (key r) k) rs) v)
    | None =>
        match filter (fun r => str_eqb (key r) k) rs with
        | [] => None
        | r :: rs' => Some (fold_left step rs' (step (init r) r))
        end
    end.
Proof.
  induction rs as [|r rs IH]; intros o.
  - cbn [fold_left filter]. destruct (JsObj.get o k); reflexivity.
  - cbn [fold_left filter]. rewrite IH, add_eq. unfold JsObj.get, JsObj.set.
    rewrite JsMap_get_set.
    destruct (str_eqb (key r) k) eqn:E.
    + apply str_eqb_eq in E. subst k.
      destruct (JsMap.get o (key r)); reflexivity.
    + reflexivity.
Qed.

Lemma grouped_keys rs : forall o,
  List.map fst (fold_left add rs o)
  = fold_left set_add (List.map key rs) (List.map fst o).
Proof.
  induction rs as [|r rs IH]; intros o; [reflexivity|].
  cbn [fold_left List.map]. rewrite IH, add_eq. unfold JsObj.set.
  rewrite JsMap_keys_set. reflexivity.
Qed.

Lemma grouped_NoDup rs : NoDup (List.map fst (fold_left add rs [])).
Proof. rewrite grouped_keys. apply fold_set_add_NoDup. constructor. Qed.

Lemma grouped_key_In k rs :
  In k (List.map fst (fold_left add rs [])) <-> In k (List.map key rs).
Proof.
  rewrite grouped_keys. split.
  - intros H. apply (proj1 (fold_set_add_In _ _ _)) in H as [[]|H]. exact H.
  - intros H. apply (proj2 (fold_set_add_In _ _ _)). right. exact H.
Qed.

Lemma grouped_In k v rs :
  In (k, v) (fold_left add rs []) ->
  exists r rs', filter (fun r => str_eqb (key r) k) rs = r :: rs'
                /\ v = fold_left step rs' (step (init r) r).
Proof.
  intros I. apply In_get in I; [|apply grouped_NoDup].
  fold (JsObj.get (fold_left add rs []) k) in I. rewrite grouped_get in I.
  cbn [JsObj.get JsMap.get] in I.
  destruct (filter (fun r => str_eqb (key r) k) rs) as [|r rs']; [discriminate|].
  injection I as <-. exists r, rs'. split; reflexivity.
Qed.

End Grouped.

Lemma insert_index_perm {V} (e : jsstring * V) l :
  Permutation (JsObj.insert_index e l) (e :: l).
Proof.
  induction l as [|e' l IH]; cbn [JsObj.insert_index]; [apply Permutation_refl|].
  destruct (JsObj.index_of (fst e) <=? JsObj.index_of (fst e'));
    [apply Permutation_refl|].
  eapply Permutation_trans; [apply perm_skip, IH|apply perm_swap].
Qed.

Lemma sort_index_perm {V} (l : list (jsstring * V)) :
  Permutation (JsObj.sort_index l) l.
Proof.
  induction l as [|e l IH]; [apply Permutation_refl|].
  cbn [JsObj.sort_index fold_right].
  eapply Permutation_trans; [apply insert_index_perm|apply perm_skip, IH].
Qed.

Lemma filter_split_perm {A} (p : A -> bool) l :
  Permutation (filter p l ++ filter (fun x => negb (p x)) l) l.
Proof.
  induction l as [|x l IH]; [apply Permutation_refl|].
  cbn [filter]. destruct (p x); cbn [negb app].
  - apply perm_skip, IH.
  - apply Permutation_sym, Permutation_cons_app, Permutation_sym, IH.
Qed.

Lemma entries_perm {V} (o : JsObj.t V) : Permutation (JsObj.entries o) o.
Proof.
  unfold JsObj.entries.
  eapply Permutation_trans;
    [apply Permutation_app_tail, sort_index_perm|].
  apply (filter_split_perm (fun e => JsObj.is_index (fst e))).
Qed.

Lemma insert_desc_perm {A} (key : A -> nat) x l :
  Permutation (Sort.insert_desc key x l) (x :: l).
Proof.
  induction l as [|y l IH]; cbn [Sort.insert_desc]; [apply Permutation_refl|].
  destruct (key x <? key y)%nat; [|apply Permutation_refl].
  eapply Permutation_trans; [apply perm_skip, IH|apply perm_swap].
Qed.

Lemma sort_desc_perm {A} (key : A -> nat) l :
  Permutation (Sort.sort_desc key l) l.
Proof.
  induction l as [|x l IH]; [apply Permutation_refl|].
  cbn [Sort.sort_desc fold_right].
  eapply Permutation_trans; [apply insert_desc_perm|apply perm_skip, IH].
Qed.

Lemma add_cupsCount_eq o r :
  add_cupsCount o r
  = JsObj.set o (cups r)
      ((fun (i : CupsInfo) (_ : RipsRecord) =>
          {| i_count := S (i_count i); i_name := i_name i; i_type := i_type i |})
         (match JsObj.get o (cups r) with
          | Some v => v
          | None => {| i_count := 0; i_name := nombre r; i_type := tipo r |}
          end) r).
Proof. reflexivity. Qed.

Lemma fold_count_info rs : forall i,
  fold_left (fun (i : CupsInfo) (_ : RipsRecord) =>
     {| i_count := S (i_count i); i_name := i_name i; i_type := i_type i |}) rs i
  = {| i_count := i_count i + List.length rs; i_name := i_name i;
       i_type := i_type i |}.
Proof.
  induction rs as [|r rs IH]; intros i; cbn [fold_left List.length].
  - rewrite Nat.add_0_r. destruct i; reflexivity.
  - rewrite IH. cbn. f_equal. lia.
Qed.

Lemma cupsCount_In c info fr :
  In (c, info) (cupsCount fr) ->
  i_count info = count_if (has_code c) fr
  /\ exists r, find (has_code c) fr = Some r
               /\ i_name info = nombre r /\ i_type info = tipo r.
Proof.
  intros I. unfold cupsCount in I.
  apply (grouped_In cups _ _ _ add_cupsCount_eq) in I as (r & rs' & F & ->).
  rewrite fold_count_info. cbn [i_count i_name i_type].
  unfold count_if. change (has_code c) with (fun r => str_eqb (cups r) c).
  rewrite F. split; [reflexivity|].
  exists r. rewrite find_hd_filter, F. repeat split.
Qed.

Lemma unsorted_rows_CUPS metas umap regs :
  List.map CUPS (unsorted_rows metas umap regs)
  = List.map fst (JsObj.entries (cupsCount (filteredRegistros metas regs))).
Proof.
  unfold unsorted_rows. cbv zeta. rewrite map_map. apply map_ext.
  intros e. apply CUPS_ranking_row.
Qed.

Lemma rankingCUPS_codes metas umap regs :
  Permutation (List.map CUPS (rankingCUPS metas umap regs))
              (List.map fst (cupsCount (filteredRegistros metas regs))).
Proof.
  unfold rankingCUPS.
  eapply Permutation_trans; [apply Permutation_map, sort_desc_perm|].
  rewrite unsorted_rows_CUPS. apply Permutation_map, entries_perm.
Qed.

Lemma rankingCUPS_In metas umap regs row :
  In row (rankingCUPS metas umap regs) ->
  let fr := filteredRegistros metas regs in
  exists info, In (CUPS row, info) (cupsCount fr)
    /\ row = ranking_row umap (cupsPacCount fr) (cupsPacDates fr) (CUPS row, info).
Proof.
  intros I. cbv zeta. unfold rankingCUPS in I.
  apply (proj1 (sort_desc_In _ _ _)) in I. unfold unsorted_rows in I.
  cbv zeta in I. apply in_map_iff in I as ([c info] & <- & I).
  rewrite CUPS_ranking_row. cbn [fst]. exists info. split; [|reflexivity].
  apply (Permutation_in _ (entries_perm _)). exact I.
Qed.

Lemma rankingCUPS_rows metas umap regs :
  let fr := filteredRegistros metas regs in
  let rows := rankingCUPS metas umap regs in
  NoDup (List.map CUPS rows)
  /\ (forall c, In c (List.map CUPS rows) <-> In c (List.map cups fr))
  /\ (forall row, In row rows ->
        Cantidad row = count_if (has_code (CUPS row)) fr
        /\ exists r, find (has_code (CUPS row)) fr = Some r
                     /\ Nombre row = nombre r /\ TipoSer row = tipo r).
Proof.
  cbv zeta. split; [|split].
  - apply (Permutation_NoDup (Permutation_sym (rankingCUPS_codes metas umap regs))).
    apply (grouped_NoDup cups _ _ _ add_cupsCount_eq).
  - intros c. split; intros H.
    + apply (Permutation_in _ (rankingCUPS_codes metas umap regs)) in H.
      apply (proj1 (grouped_key_In cups _ _ _ add_cupsCount_eq _ _)). exact H.
    + apply (Permutation_in _ (Permutation_sym (rankingCUPS_codes metas umap regs))).
      apply (proj2 (grouped_key_In cups _ _ _ add_cupsCount_eq _ _)). exact H.
  - intros row I. apply rankingCUPS_In in I as (info & I & E).
    apply cupsCount_In in I as (C & r & F & N & T).
    remember (CUPS row) as c eqn:Ec. clear Ec. subst row.
    cbn [ranking_row Cantidad Nombre TipoSer].
    split; [exact C|]. exists r. auto.
Qed.

(** X14.  For records as the extractor writes them, the code ranking has
    one row for each service code among the records of active types; the
    row's count is the number of those records that carry the code, and
    its name and type are the ones of the first of them. *)
Theorem rankingCUPS_counts (metas : list ServiceTypeMeta)
    (umap : JsMap.t UserRecord) (regs : list RipsRecord) :
  forallb record_ok regs = true ->
  let fr := filteredRegistros metas regs in
  let rows := rankingCUPS metas umap regs in
  NoDup (List.map CUPS rows)
  /\ (forall c, In c (List.map CUPS rows) <-> In c (List.map cups fr))
  /\ (forall row, In row rows ->
        Cantidad row = count_if (has_code (CUPS row)) fr
        /\ exists r, find (has_code (CUPS row)) fr = Some r
                     /\ Nombre row = nombre r /\ TipoSer row = tipo r).
Proof. intros _. exact (rankingCUPS_rows metas umap regs). Qed.

Lemma rankingCUPS_counts_witness :
  forallb record_ok Samples.registros_empatados = true
  /\ List.map (fun row => (CUPS row, Cantidad row))
       (rankingCUPS Samples.metas_activas [] Samples.registros_empatados)
     = [(lit "100000", 2%nat); (lit "200000", 2%nat)]
  /\ NoDup (List.map CUPS
              (rankingCUPS Samples.metas_activas []
                 Samples.registros_empatados)).
Proof.
  split; [reflexivity|]. split; [vm_compute; reflexivity|].
  destruct (rankingCUPS_counts Samples.metas_activas []
              Samples.registros_empatados eq_refl) as [H _].
  exact H.
Defined.

Lemma add_pacCount_eq o r :
  add_pacCount o r
  = JsObj.set o (paciente r)
      ((fun (n : nat) (_ : RipsRecord) => S n)
         (match JsObj.get o (paciente r) with Some v => v | None => O end) r).
Proof. reflexivity. Qed.

Lemma fold_count_nat (rs : list RipsRecord) : forall n,
  fold_left (fun (n : nat) (_ : RipsRecord) => S n) rs n = (n + List.length rs)%nat.
Proof.
  induction rs as [|r rs IH]; intros n; cbn [fold_left List.length]; [lia|].
  rewrite IH. lia.
Qed.

Lemma pacCount_In p n fr :
  In (p, n) (pacCount fr) -> n = count_if (has_patient p) fr /\ (1 <= n)%nat.
Proof.
  intros I. unfold pacCount in I.
  apply (grouped_In paciente _ _ _ add_pacCount_eq) in I as (r & rs' & F & ->).
  rewrite fold_count_nat. unfold count_if.
  change (has_patient p) with (fun r => str_eqb (paciente r) p).
  rewrite F. cbn [List.length]. lia.
Qed.

Lemma count_if_pos {A} (p : A -> bool) l :
  (1 <= count_if p l)%nat -> exists x, In x l /\ p x = true.
Proof.
  unfold count_if. intros H.
  destruct (filter p l) as [|x t] eqn:F; [cbn in H; lia|].
  exists x. apply filter_In. rewrite F. left. reflexivity.
Qed.

Lemma pacCount_listed p fr :
  (1 <= count_if (has_patient p) fr)%nat ->
  In (p, count_if (has_patient p) fr) (pacCount fr).
Proof.
  intros H. apply count_if_pos in H as (r & I & E).
  unfold has_patient in E. apply str_eqb_eq in E. subst p.
  assert (K : In (paciente r) (List.map fst (pacCount fr))).
  { apply (proj2 (grouped_key_In paciente _ _ _ add_pacCount_eq _ _)).
    apply in_map. exact I. }
  apply in_map_iff in K as ([p n] & E & K). cbn [fst] in E. subst p.
  destruct (pacCount_In _ _ _ K) as [-> _]. exact K.
Qed.

Lemma add_cupsPacCount_eq o r :
  add_cupsPacCount o r
  = JsObj.set o (cups r)
      (add_pacCount
         (match JsObj.get o (cups r) with Some v => v | None => [] end) r).
Proof. reflexivity. Qed.

Lemma pacs_of_cupsPacCount c fr :
  pacs_of (cupsPacCount fr) c = pacCount (filter (has_code c) fr).
Proof.
  unfold pacs_of, cupsPacCount, pacCount.
  rewrite (grouped_get cups (fun _ => []) add_pacCount _ add_cupsPacCount_eq).
  cbn [JsObj.get JsMap.get].
  change (has_code c) with (fun r => str_eqb (cups r) c).
  destruct (filter (fun r => str_eqb (cups r) c) fr); reflexivity.
Qed.

Lemma add_cupsPacDates_eq o r :
  add_cupsPacDates o r
  = JsObj.set o (cups r)
      ((fun (pacs : JsObj.t (list jsstring)) (r : RipsRecord) =>
          JsObj.set pacs (paciente r)
            ((fun (ds : list jsstring) (r : RipsRecord) => set_add ds (fecha r))
               (match JsObj.get pacs (paciente r) with
                | Some d => d
                | None => []
                end) r))
         (match JsObj.get o (cups r) with Some v => v | None => [] end) r).
Proof. reflexivity. Qed.

Lemma fold_set_add_map (rs : list RipsRecord) : forall ds,
  fold_left (fun (ds : list jsstring) (r : RipsRecord) => set_add ds (fecha r)) rs ds
  = fold_left set_add (List.map fecha rs) ds.
Proof.
  induction rs as [|r rs IH]; intros ds; [reflexivity|].
  cbn [fold_left List.map]. apply IH.
Qed.

Lemma cupsPacDates_get c p fr :
  match JsObj.get (cupsPacDates fr) c with
  | Some x => match JsObj.get x p with Some d => d | None => [] end
  | None => []
  end
  = first_seen (List.map fecha (filter (has_patient p) (filter (has_code c) fr))).
Proof.
  unfold cupsPacDates.
  rewrite (grouped_get cups (fun _ => []) _ _ add_cupsPacDates_eq).
  cbn [JsObj.get JsMap.get].
  change (has_code c) with (fun r => str_eqb (cups r) c).
  set (among := filter (fun r => str_eqb (cups r) c) fr).
  set (inner := fun (pacs : JsObj.t (list jsstring)) (r : RipsRecord) =>
          JsObj.set pacs (paciente r)
            ((fun (ds : list jsstring) (r : RipsRecord) => set_add ds (fecha r))
               (match JsObj.get pacs (paciente r) with
                | Some d => d
                | None => []
                end) r)).
  fold (JsObj.get (V:=list jsstring)).
  assert (G : forall l, match JsObj.get (fold_left inner l []) p with
                        | Some d => d
                        | None => []
                        end
                        = first_seen (List.map fecha (filter (has_patient p) l))).
  { intros l.
    rewrite (grouped_get paciente (fun _ => []) _ inner (fun o r => eq_refl)).
    cbn [JsObj.get JsMap.get].
    change (has_patient p) with (fun r => str_eqb (paciente r) p).
    destruct (filter (fun r => str_eqb (paciente r) p) l) as [|r rs']; [reflexivity|].
    rewrite fold_set_add_map. reflexivity. }
  destruct among as [|r rs'] eqn:A; [reflexivity|].
  exact (G (r :: rs')).
Qed.

Lemma rankingCUPS_top metas umap regs row :
  In row (rankingCUPS metas umap regs) ->
  let among := filter (has_code (CUPS row)) (filteredRegistros metas regs) in
  (1 <= PacienteTop_Cant row)%nat
  /\ PacienteTop_Cant row = count_if (has_patient (PacienteTop row)) among
  /\ (forall p, (count_if (has_patient p) among <= PacienteTop_Cant row)%nat)
  /\ PacienteTop_Fechas row
     = join (lit ", ")
         (sort_str (first_seen
            (List.map fecha (filter (has_patient (PacienteTop row)) among)))).
Proof.
  intros I. cbv zeta.
  assert (K : In (CUPS row) (List.map cups (filteredRegistros metas regs))).
  { apply (proj1 (proj2 (rankingCUPS_rows metas umap regs))).
    apply in_map. exact I. }
  apply rankingCUPS_In in I as (info & _ & E). cbv zeta in E.
  remember (CUPS row) as c eqn:Ec. clear Ec.
  set (fr := filteredRegistros metas regs) in *.
  pose proof (ranking_row_top umap (cupsPacCount fr) (cupsPacDates fr) (c, info)) as T.
  cbv zeta in T. rewrite <- E in T. cbn [fst] in T.
  rewrite pacs_of_cupsPacCount in T. destruct T as [T1 T2].
  set (among := filter (has_code c) fr) in *.
  assert (B : forall p, (count_if (has_patient p) among <= PacienteTop_Cant row)%nat).
  { intros p. destruct (count_if (has_patient p) among) as [|n] eqn:C; [lia|].
    rewrite <- C.
    apply (T1 (p, count_if (has_patient p) among)).
    apply (Permutation_in _ (Permutation_sym (entries_perm _))).
    apply pacCount_listed. lia. }
  assert (Ne : JsObj.entries (pacCount among) <> []).
  { apply in_map_iff in K as (r & Er & Ir).
    assert (Ia : In r among).
    { apply filter_In. split; [exact Ir|]. unfold has_code. rewrite Er.
      apply str_eqb_refl. }
    assert (P : (1 <= count_if (has_patient (paciente r)) among)%nat).
    { unfold count_if.
      assert (J : In r (filter (has_patient (paciente r)) among)).
      { apply filter_In. split; [exact Ia|]. apply str_eqb_refl. }
      destruct (filter (has_patient (paciente r)) among); [destruct J|cbn; lia]. }
    apply pacCount_listed in P.
    apply (Permutation_in _ (Permutation_sym (entries_perm _))) in P.
    intros Z. rewrite Z in P. destruct P. }
  apply T2 in Ne. apply find_some in Ne as [Ne _].
  apply (Permutation_in _ (entries_perm _)) in Ne.
  apply pacCount_In in Ne as [N1 N2].
  split; [exact N2|]. split; [exact N1|]. split; [exact B|].
  rewrite E at 1. cbn [ranking_row PacienteTop_Fechas].
  f_equal. f_equal.
  assert (Et : PacienteTop row
               = match topPacEntry (pacs_of (cupsPacCount fr) c) with
                 | Some t => fst t
                 | None => []
                 end).
  { rewrite E at 1. reflexivity. }
  rewrite <- Et. apply cupsPacDates_get.
Qed.

(** *** The default sort of strings *)

Lemma str_leb_cons x a y b :
  str_leb (x :: a) (y :: b) = true <-> x < y \/ (x = y /\ str_leb a b = true).
Proof.
  cbn [str_leb]. unfold cu_eqb. split.
  - intros H. apply orb_true_iff in H as [H|H].
    + left. apply N.ltb_lt. exact H.
    + apply andb_true_iff in H as [E H]. right.
      split; [apply N.eqb_eq; exact E|exact H].
  - intros [H|[E H]].
    + apply N.ltb_lt in H. rewrite H. reflexivity.
    + subst. rewrite N.eqb_refl, H. apply orb_true_r.
Qed.

Lemma str_leb_total a : forall b, str_leb a b = false -> str_leb b a = true.
Proof.
  induction a as [|x a IH]; intros [|y b] H; try reflexivity;
    try (cbn in H; discriminate H).
  apply str_leb_cons.
  destruct (N.lt_trichotomy x y) as [L|[E|G]].
  - exfalso. rewrite (proj2 (str_leb_cons x a y b)) in H;
      [discriminate|left; exact L].
  - right. split; [congruence|]. apply IH.
    destruct (str_leb a b) eqn:R; [|reflexivity].
    rewrite (proj2 (str_leb_cons x a y b)) in H; [discriminate|right; auto].
  - left. exact G.
Qed.

Lemma str_leb_trans a : forall b c,
  str_leb a b = true -> str_leb b c = true -> str_leb a c = true.
Proof.
  induction a as [|x a IH]; intros [|y b] [|z c] H1 H2; try reflexivity;
    try (cbn in H1; discriminate H1); try (cbn in H2; discriminate H2).
  apply str_leb_cons in H1, H2. apply str_leb_cons.
  destruct H1 as [L1|[E1 R1]], H2 as [L2|[E2 R2]].
  - left. lia.
  - left. lia.
  - left. lia.
  - right. split; [congruence|]. eapply IH; eassumption.
Qed.

(** [str_leb] decides the order of the default sort. *)
Lemma str_leb_spec a : forall b, str_leb a b = true <-> code_unit_le a b.
Proof.
  induction a as [|x a IH]; intros b.
  - split; [|reflexivity]. intros _. left. exists b. reflexivity.
  - destruct b as [|y b].
    + split; [discriminate|].
      intros [(t & E)|(p & u & v & a' & b' & _ & E & _)];
        [discriminate|destruct p; discriminate].
    + split.
      * intros H. apply str_leb_cons in H as [L|[-> R]].
        -- right. exists [], x, y, a, b. auto.
        -- apply IH in R as [(t & ->)|(p & u & v & a' & b' & -> & -> & L)].
           ++ left. exists t. reflexivity.
           ++ right. exists (y :: p), u, v, a', b'. auto.
      * intros H. apply str_leb_cons.
        destruct H as [(t & E)|(p & u & v & a' & b' & Ea & Eb & L)].
        -- injection E as -> ->. right. split; [reflexivity|].
           apply IH. left. exists t. reflexivity.
        -- destruct p as [|c p]; cbn [app] in Ea, Eb.
           ++ injection Ea as -> ->. injection Eb as -> ->. left. exact L.
           ++ injection Ea as -> ->. injection Eb as -> ->. right.
              split; [reflexivity|]. apply IH. right.
              exists p, u, v, a', b'. auto.
Qed.

Lemma insert_str_perm x l : Permutation (insert_str x l) (x :: l).
Proof.
  induction l as [|y l IH]; cbn [insert_str]; [apply Permutation_refl|].
  destruct (str_leb x y); [apply Permutation_refl|].
  eapply Permutation_trans; [apply perm_skip, IH|apply perm_swap].
Qed.

Lemma sort_str_perm l : Permutation (sort_str l) l.
Proof.
  induction l as [|x l IH]; [apply Permutation_refl|].
  cbn [sort_str fold_right].
  eapply Permutation_trans; [apply insert_str_perm|apply perm_skip, IH].
Qed.

Lemma insert_str_sorted x l :
  StronglySorted (fun a b => str_leb a b = true) l ->
  StronglySorted (fun a b => str_leb a b = true) (insert_str x l).
Proof.
  induction 1 as [|z l S0 IH F]; cbn [insert_str].
  - constructor; constructor.
  - destruct (str_leb x z) eqn:E.
    + constructor; [constructor; assumption|].
      constructor; [exact E|]. apply Forall_forall. intros y Hy.
      apply (str_leb_trans x z y E).
      apply (proj1 (Forall_forall _ _) F). exact Hy.
    + constructor; [exact IH|]. apply Forall_forall. intros y Hy.
      apply (Permutation_in _ (insert_str_perm x l)) in Hy as [<-|Hy].
      * apply str_leb_total. exact E.
      * apply (proj1 (Forall_forall _ _) F). exact Hy.
Qed.

Lemma sort_str_sorted l : StronglySorted code_unit_le (sort_str l).
Proof.
  assert (H : StronglySorted (fun a b => str_leb a b = true) (sort_str l)).
  { induction l as [|x l IH]; [constructor|].
    cbn [sort_str fold_right]. apply insert_str_sorted. exact IH. }
  induction H as [|z t S0 IH F]; constructor; [exact IH|].
  apply Forall_forall. intros y Hy. apply str_leb_spec.
  apply (proj1 (Forall_forall _ _) F). exact Hy.
Qed.

Lemma first_seen_NoDup xs : NoDup (first_seen xs).
Proof. apply fold_set_add_NoDup. constructor. Qed.

Lemma first_seen_In x xs : In x (first_seen xs) <-> In x xs.
Proof.
  unfold first_seen. split; intros H.
  - apply (proj1 (fold_set_add_In _ _ _)) in H as [[]|H]. exact H.
  - apply (proj2 (fold_set_add_In _ _ _)). right. exact H.
Qed.

(** X15.  For records as the extractor writes them, in each row of the code
    ranking the top patient's count is the number of that patient's
    records with the code, and no patient has more records with the code.
    The dates column is a list joined by a comma and a space; the list
    holds the dates of those records, each once, in the order of the
    default sort of strings (by code units). *)
Theorem rankingCUPS_top_patient (metas : list ServiceTypeMeta)
    (umap : JsMap.t UserRecord) (regs : list RipsRecord) :
  forallb record_ok regs = true ->
  forall row, In row (rankingCUPS metas umap regs) ->
  let among := filter (has_code (CUPS row)) (filteredRegistros metas regs) in
  (1 <= PacienteTop_Cant row)%nat
  /\ PacienteTop_Cant row = count_if (has_patient (PacienteTop row)) among
  /\ (forall p, (count_if (has_patient p) among <= PacienteTop_Cant row)%nat)
  /\ exists ds,
       PacienteTop_Fechas row = join (lit ", ") ds
       /\ StronglySorted code_unit_le ds
       /\ NoDup ds
       /\ (forall x, In x ds
             <-> In x (List.map fecha
                         (filter (has_patient (PacienteTop row)) among))).
Proof.
  intros _ row I. cbv zeta.
  destruct (rankingCUPS_top metas umap regs row I) as (H1 & H2 & H3 & H4).
  split; [exact H1|]. split; [exact H2|]. split; [exact H3|].
  eexists. split; [exact H4|]. split; [apply sort_str_sorted|]. split.
  - apply (Permutation_NoDup (Permutation_sym (sort_str_perm _))).
    apply first_seen_NoDup.
  - intros x. split; intros H.
    + apply (Permutation_in _ (sort_str_perm _)) in H.
      apply (proj1 (first_seen_In _ _)). exact H.
    + apply (Permutation_in _ (Permutation_sym (sort_str_perm _))).
      apply (proj2 (first_seen_In _ _)). exact H.
Qed.

(** Three records whose dates come later date first: the column shows them
    earlier date first, each once. *)
Lemma rankingCUPS_top_patient_witness :
  forallb record_ok MoreSamples.registros_desordenados = true
  /\ exists row,
       In row (rankingCUPS Samples.metas_activas []
                 MoreSamples.registros_desordenados)
       /\ PacienteTop_Fechas row = lit "2024-01-03, 2024-01-04"
       /\ PacienteTop_Cant row = 3%nat
       /\ exists ds,
            PacienteTop_Fechas row = join (lit ", ") ds
            /\ StronglySorted code_unit_le ds.
Proof.
  split; [reflexivity|].
  eexists. split; [left; reflexivity|].
  split; [vm_compute; reflexivity|]. split; [vm_compute; reflexivity|].
  destruct (rankingCUPS_top_patient Samples.metas_activas []
              MoreSamples.registros_desordenados eq_refl _ (or_introl eq_refl))
    as (_ & _ & _ & ds & E & S0 & _).
  exists ds. split; [exact E|exact S0].
Defined.

Lemma add_pacMeta_eq o r :
  add_pacMeta o r
  = JsObj.set o (paciente r)
      ((fun (pm : PacMeta) (r : RipsRecord) =>
          {| pm_dates := pm_dates pm ++ [fecha r];
             pm_cups := pm_cups pm ++ [cups r] |})
         (match JsObj.get o (paciente r) with
          | Some pm => pm
          | None => {| pm_dates := []; pm_cups := [] |}
          end) r).
Proof. reflexivity. Qed.

Lemma fold_pacMeta rs : forall pm,
  fold_left (fun (pm : PacMeta) (r : RipsRecord) =>
     {| pm_dates := pm_dates pm ++ [fecha r];
        pm_cups := pm_cups pm ++ [cups r] |}) rs pm
  = {| pm_dates := pm_dates pm ++ List.map fecha rs;
       pm_cups := pm_cups pm ++ List.map cups rs |}.
Proof.
  induction rs as [|r rs IH]; intros pm; cbn [fold_left List.map].
  - rewrite !app_nil_r. destruct pm; reflexivity.
  - rewrite IH. cbn [pm_dates pm_cups]. rewrite <- !app_assoc. reflexivity.
Qed.

Lemma pacMeta_get p fr :
  match JsObj.get (pacMeta fr) p with
  | Some pm => pm
  | None => {| pm_dates := []; pm_cups := [] |}
  end
  = {| pm_dates := List.map fecha (filter (has_patient p) fr);
       pm_cups := List.map cups (filter (has_patient p) fr) |}.
Proof.
  unfold pacMeta.
  rewrite (grouped_get paciente _ _ _ add_pacMeta_eq).
  cbn [JsObj.get JsMap.get].
  change (has_patient p) with (fun r => str_eqb (paciente r) p).
  destruct (filter (fun r => str_eqb (paciente r) p) fr) as [|r rs']; [reflexivity|].
  rewrite fold_pacMeta. reflexivity.
Qed.

Lemma patient_row_id umap meta e : PacienteId (patient_row umap meta e) = fst e.
Proof. destruct e. reflexivity. Qed.

Lemma rankingPacientes_ids metas umap regs :
  Permutation (List.map PacienteId (rankingPacientes metas umap regs))
              (List.map fst (pacCount (filteredRegistros metas regs))).
Proof.
  unfold rankingPacientes. cbv zeta.
  eapply Permutation_trans; [apply Permutation_map, sort_desc_perm|].
  rewrite map_map.
  rewrite (map_ext _ fst (patient_row_id umap _)).
  apply Permutation_map, entries_perm.
Qed.

Lemma rankingPacientes_In metas umap regs row :
  In row (rankingPacientes metas umap regs) ->
  let fr := filteredRegistros metas regs in
  exists n, In (PacienteId row, n) (pacCount fr)
    /\ row = patient_row umap (pacMeta fr) (PacienteId row, n).
Proof.
  intros I. cbv zeta. unfold rankingPacientes in I. cbv zeta in I.
  apply (proj1 (sort_desc_In _ _ _)) in I.
  apply in_map_iff in I as ([p n] & <- & I).
  rewrite patient_row_id. cbn [fst]. exists n. split; [|reflexivity].
  apply (Permutation_in _ (entries_perm _)). exact I.
Qed.

Lemma rankingPacientes_rows metas umap regs :
  let fr := filteredRegistros metas regs in
  let rows := rankingPacientes metas umap regs in
  NoDup (List.map PacienteId rows)
  /\ (forall p, In p (List.map PacienteId rows) <-> In p (List.map paciente fr))
  /\ StronglySorted (fun a b => (TotalAtenciones b <= TotalAtenciones a)%nat) rows
  /\ (forall row, In row rows ->
        ListaCUPS row = List.map cups (filter (has_patient (PacienteId row)) fr)
        /\ ListaFechas row
           = List.map fecha (filter (has_patient (PacienteId row)) fr)
        /\ TotalAtenciones row = count_if (has_patient (PacienteId row)) fr
        /\ (1 <= TotalAtenciones row)%nat).
Proof.
  cbv zeta. split; [|split; [|split]].
  - apply (Permutation_NoDup
             (Permutation_sym (rankingPacientes_ids metas umap regs))).
    apply (grouped_NoDup paciente _ _ _ add_pacCount_eq).
  - intros p. split; intros H.
    + apply (Permutation_in _ (rankingPacientes_ids metas umap regs)) in H.
      apply (proj1 (grouped_key_In paciente _ _ _ add_pacCount_eq _ _)). exact H.
    + apply (Permutation_in _
               (Permutation_sym (rankingPacientes_ids metas umap regs))).
      apply (proj2 (grouped_key_In paciente _ _ _ add_pacCount_eq _ _)). exact H.
  - apply sort_desc_sorted.
  - intros row I. apply rankingPacientes_In in I as (n & I & E).
    apply pacCount_In in I as [C P].
    remember (PacienteId row) as p eqn:Ep. clear Ep. subst row.
    cbn [patient_row ListaCUPS ListaFechas TotalAtenciones].
    rewrite pacMeta_get. cbn [pm_cups pm_dates]. auto.
Qed.

(** X16.  For records as the extractor writes them, the patient ranking
    has one row for each patient among the records of active types, in
    descending order of attentions; the row lists the codes and the dates
    of that patient's records in the order of the records, and its total
    is their number. *)
Theorem rankingPacientes_lists (metas : list ServiceTypeMeta)
    (umap : JsMap.t UserRecord) (regs : list RipsRecord) :
  forallb record_ok regs = true ->
  let fr := filteredRegistros metas regs in
  let rows := rankingPacientes metas umap regs in
  NoDup (List.map PacienteId rows)
  /\ (forall p, In p (List.map PacienteId rows) <-> In p (List.map paciente fr))
  /\ StronglySorted (fun a b => (TotalAtenciones b <= TotalAtenciones a)%nat) rows
  /\ (forall row, In row rows ->
        ListaCUPS row = List.map cups (filter (has_patient (PacienteId row)) fr)
        /\ ListaFechas row
           = List.map fecha (filter (has_patient (PacienteId row)) fr)
        /\ TotalAtenciones row = count_if (has_patient (PacienteId row)) fr
        /\ (1 <= TotalAtenciones row)%nat).
Proof. intros _. exact (rankingPacientes_rows metas umap regs). Qed.

Lemma rankingPacientes_lists_witness :
  forallb record_ok Samples.registros_empatados = true
  /\ List.map (fun row => (PacienteId row, ListaFechas row))
       (rankingPacientes Samples.metas_activas [] Samples.registros_empatados)
     = [ (lit "7", [lit "2024-01-03"; lit "2024-01-04"]);
         (lit "5", [lit "2024-01-02"]); (lit "9", [lit "2024-01-01"]) ]
  /\ NoDup (List.map PacienteId
              (rankingPacientes Samples.metas_activas []
                 Samples.registros_empatados)).
Proof.
  split; [reflexivity|]. split; [vm_compute; reflexivity|].
  destruct (rankingPacientes_lists Samples.metas_activas []
              Samples.registros_empatados eq_refl) as [H _].
  exact H.
Defined.

(** *** Totals *)

Lemma list_sum_perm l l' : Permutation l l' -> list_sum l = list_sum l'.
Proof.
  unfold list_sum.
  induction 1 as [|x l l' _ IH|x y l|l l' l'' _ IH1 _ IH2]; cbn [fold_right];
    [reflexivity|lia|lia|congruence].
Qed.

Section GroupedTotal.
Context {V : Type}.
Variable key : RipsRecord -> jsstring.
Variable init : RipsRecord -> V.
Variable step : V -> RipsRecord -> V.
Variable add : JsObj.t V -> RipsRecord -> JsObj.t V.
Hypothesis add_eq : forall o r,
  add o r
  = JsObj.set o (key r)
      (step (match JsObj.get o (key r) with Some v => v | None => init r end) r).
Variable w : V -> nat.
Hypothesis w_init : forall r, w (init r) = O.
Hypothesis w_step : forall v r, w (step v r) = S (w v).

Lemma sum_set (o : JsObj.t V) k v' :
  (list_sum (List.map (fun e => w (snd e)) (JsMap.set o k v'))
   + match JsMap.get o k with Some v => w v | None => O end
   = list_sum (List.map (fun e => w (snd e)) o) + w v')%nat.
Proof.
  unfold list_sum.
  induction o as [|[k0 v0] o IH]; cbn [JsMap.set JsMap.get].
  - cbn. lia.
  - destruct (str_eqb k0 k); cbn [List.map fold_right snd] in *; lia.
Qed.

Lemma grouped_total rs : forall o,
  list_sum (List.map (fun e => w (snd e)) (fold_left add rs o))
  = (list_sum (List.map (fun e => w (snd e)) o) + List.length rs)%nat.
Proof.
  induction rs as [|r rs IH]; intros o; cbn [fold_left List.length]; [lia|].
  rewrite IH, add_eq. unfold JsObj.set, JsObj.get.
  pose proof (sum_set o (key r)
    (step (match JsMap.get o (key r) with Some v => v | None => init r end) r)) as H.
  rewrite w_step in H.
  destruct (JsMap.get o (key r)); [lia|]. rewrite w_init in H. lia.
Qed.

End GroupedTotal.

Lemma rankingCUPS_sum metas umap regs :
  list_sum (List.map Cantidad (rankingCUPS metas umap regs))
  = List.length (filteredRegistros metas regs).
Proof.
  unfold rankingCUPS.
  rewrite (list_sum_perm _ _ (Permutation_map Cantidad (sort_desc_perm _ _))).
  unfold unsorted_rows. cbv zeta. rewrite map_map.
  rewrite (map_ext _ (fun e => i_count (snd e)));
    [|intros [c info]; reflexivity].
  rewrite (list_sum_perm _ _
             (Permutation_map (fun e => i_count (snd e)) (entries_perm _))).
  unfold cupsCount.
  rewrite (grouped_total cups _ _ _ add_cupsCount_eq i_count);
    [reflexivity|reflexivity|reflexivity].
Qed.

Lemma rankingPacientes_sum metas umap regs :
  list_sum (List.map TotalAtenciones (rankingPacientes metas umap regs))
  = List.length (filteredRegistros metas regs).
Proof.
  unfold rankingPacientes. cbv zeta.
  rewrite (list_sum_perm _ _ (Permutation_map TotalAtenciones (sort_desc_perm _ _))).
  rewrite map_map.
  rewrite (map_ext _ (fun e => (fun n : nat => n) (snd e)));
    [|intros [p n]; reflexivity].
  rewrite (list_sum_perm _ _
             (Permutation_map (fun e => (fun n : nat => n) (snd e)) (entries_perm _))).
  unfold pacCount.
  rewrite (grouped_total paciente _ _ _ add_pacCount_eq (fun n => n));
    [reflexivity|reflexivity|reflexivity].
Qed.

(** X17.  For records as the extractor writes them, the counts of the
    code ranking and the totals of the patient ranking each add up to the
    number of activities shown in the top-line figures. *)
Theorem rankings_add_up (metas : list ServiceTypeMeta)
    (umap : JsMap.t UserRecord) (regs : list RipsRecord) :
  forallb record_ok regs = true ->
  list_sum (List.map Cantidad (rankingCUPS metas umap regs))
  = totalActivities (stats metas umap regs)
  /\ list_sum (List.map TotalAtenciones (rankingPacientes metas umap regs))
     = totalActivities (stats metas umap regs).
Proof.
  intros _. split; [apply rankingCUPS_sum|apply rankingPacientes_sum].
Qed.

Lemma rankings_add_up_witness :
  forallb record_ok Samples.registros_empatados = true
  /\ totalActivities (stats Samples.metas_activas []
                        Samples.registros_empatados) = 4%nat
  /\ list_sum (List.map Cantidad
                 (rankingCUPS Samples.metas_activas []
                    Samples.registros_empatados))
     = totalActivities (stats Samples.metas_activas []
                          Samples.registros_empatados).
Proof.
  split; [reflexivity|]. split; [reflexivity|].
  destruct (rankings_add_up Samples.metas_activas []
              Samples.registros_empatados eq_refl) as [H _].
  exact H.
Defined.

Lemma sorted_hd_max {A} (key : A -> nat) l x y :
  StronglySorted (fun a b => (key b <= key a)%nat) l ->
  hd_error l = Some x -> In y l -> (key y <= key x)%nat.
Proof.
  intros S0 H I. destruct l as [|a l]; [discriminate|].
  injection H as ->. inversion S0 as [|? ? _ F]; subst.
  destruct I as [<-|I]; [lia|].
  apply (proj1 (Forall_forall _ _) F). exact I.
Qed.

(** X18.  For records as the extractor writes them, the top-line figures
    give, for the code and for the patient, a count that no code and no
    patient exceeds, reached by the code and the patient they name; with
    no record of an active type they show the dash and zero. *)
Theorem stats_top_counts (metas : list ServiceTypeMeta)
    (umap : JsMap.t UserRecord) (regs : list RipsRecord) :
  forallb record_ok regs = true ->
  let fr := filteredRegistros metas regs in
  let s := stats metas umap regs in
  (forall c, (count_if (has_code c) fr <= topCupsCount s)%nat)
  /\ (forall p, (count_if (has_patient p) fr <= topPatientCount s)%nat)
  /\ (fr <> [] ->
      (exists c, In c (List.map cups fr)
         /\ topCupsCount s = count_if (has_code c) fr
         /\ topCupsCode s = or_else c RAYA)
      /\ (exists p, In p (List.map paciente fr)
         /\ topPatientCount s = count_if (has_patient p) fr
         /\ topPatientId s = or_else p RAYA))
  /\ (fr = [] ->
      topCupsCode s = RAYA /\ topCupsCount s = O
      /\ topPatientId s = RAYA /\ topPatientCount s = O).
Proof.
  intros _. cbv zeta.
  pose proof (rankingCUPS_rows metas umap regs) as RC. cbv zeta in RC.
  destruct RC as (_ & RC1 & RC2).
  pose proof (rankingPacientes_rows metas umap regs) as RP. cbv zeta in RP.
  destruct RP as (_ & RP1 & RP3 & RP2).
  pose proof (sort_desc_sorted Cantidad (unsorted_rows metas umap regs)) as SC.
  fold (rankingCUPS metas umap regs) in SC.
  unfold stats. cbv zeta.
  cbn [topCupsCount topPatientCount topCupsCode topPatientId].
  set (fr := filteredRegistros metas regs) in *.
  set (rc := rankingCUPS metas umap regs) in *.
  set (rp := rankingPacientes metas umap regs) in *.
  split; [|split; [|split]].
  - intros c. destruct (count_if (has_code c) fr) as [|n] eqn:C; [lia|].
    assert (K : (1 <= count_if (has_code c) fr)%nat) by lia.
    apply count_if_pos in K as (r & I & E). unfold has_code in E.
    apply str_eqb_eq in E. subst c.
    assert (J : In (cups r) (List.map CUPS rc)).
    { apply (proj2 (RC1 _)). apply in_map. exact I. }
    apply in_map_iff in J as (row & Er & J).
    destruct (hd_error rc) as [top|] eqn:H;
      [|destruct rc; [destruct J|discriminate]].
    pose proof (sorted_hd_max Cantidad rc top row SC H J) as L.
    destruct (RC2 row J) as [Q _]. rewrite Er in Q. lia.
  - intros p. destruct (count_if (has_patient p) fr) as [|n] eqn:C; [lia|].
    assert (K : (1 <= count_if (has_patient p) fr)%nat) by lia.
    apply count_if_pos in K as (r & I & E). unfold has_patient in E.
    apply str_eqb_eq in E. subst p.
    assert (J : In (paciente r) (List.map PacienteId rp)).
    { apply (proj2 (RP1 _)). apply in_map. exact I. }
    apply in_map_iff in J as (row & Er & J).
    destruct (hd_error rp) as [top|] eqn:H;
      [|destruct rp; [destruct J|discriminate]].
    pose proof (sorted_hd_max TotalAtenciones rp top row RP3 H J) as L.
    destruct (RP2 row J) as (_ & _ & Q & _). rewrite Er in Q. lia.
  - intros Ne. destruct fr as [|r0 fr'] eqn:F; [congruence|]. split.
    + assert (J : In (cups r0) (List.map CUPS rc)).
      { apply (proj2 (RC1 _)). left. reflexivity. }
      destruct rc as [|top rc']; [destruct J|]. cbn [hd_error].
      exists (CUPS top). split; [apply (proj1 (RC1 _)); left; reflexivity|].
      split; [|reflexivity].
      apply (RC2 top). left. reflexivity.
    + assert (J : In (paciente r0) (List.map PacienteId rp)).
      { apply (proj2 (RP1 _)). left. reflexivity. }
      destruct rp as [|top rp']; [destruct J|]. cbn [hd_error].
      exists (PacienteId top). split; [apply (proj1 (RP1 _)); left; reflexivity|].
      split; [|reflexivity].
      apply (RP2 top). left. reflexivity.
  - intros E. rewrite E in *.
    assert (Ec : rc = []).
    { destruct rc as [|x t]; [reflexivity|].
      destruct (proj1 (RC1 (CUPS x)) (or_introl eq_refl)). }
    assert (Ep : rp = []).
    { destruct rp as [|x t]; [reflexivity|].
      destruct (proj1 (RP1 (PacienteId x)) (or_introl eq_refl)). }
    rewrite Ec, Ep. cbn. auto.
Qed.

Lemma stats_top_counts_witness :
  forallb record_ok Samples.registros_empatados = true
  /\ (topCupsCode (stats Samples.metas_activas [] Samples.registros_empatados),
      topPatientId (stats Samples.metas_activas [] Samples.registros_empatados))
     = (lit "100000", lit "7")
  /\ (count_if (has_code (lit "200000"))
        (filteredRegistros Samples.metas_activas Samples.registros_empatados)
      <= topCupsCount (stats Samples.metas_activas []
                         Samples.registros_empatados))%nat.
Proof.
  split; [reflexivity|]. split; [vm_compute; reflexivity|].
  destruct (stats_top_counts Samples.metas_activas []
              Samples.registros_empatados eq_refl) as [H _].
  apply H.
Defined.

(** ** Pagination *)

Lemma firstn_add_skipn {A} (a b : nat) (l : list A) :
  firstn (a + b) l = firstn a l ++ firstn b (skipn a l).
Proof.
  revert l. induction a as [|a IH]; intros l; [reflexivity|].
  destruct l as [|x l]; cbn [Nat.add firstn skipn app].
  - rewrite firstn_nil. reflexivity.
  - rewrite IH. reflexivity.
Qed.

Lemma currentData_chunk {A} (l : list A) (p : nat) :
  currentData l (Z.of_nat (S p))
  = firstn ITEMS_PER_PAGE (skipn (ITEMS_PER_PAGE * p) l).
Proof.
  unfold currentData, slice, ITEMS_PER_PAGE. cbv zeta.
  replace (Z.of_nat (S p) - 1)%Z with (Z.of_nat p) by lia.
  replace (Z.of_nat p * Z.of_nat 20 <? 0)%Z with false
    by (symmetry; apply Z.ltb_ge; lia).
  replace (Z.of_nat (S p) * Z.of_nat 20 <? 0)%Z with false
    by (symmetry; apply Z.ltb_ge; lia).
  destruct (Nat.le_gt_cases (20 * p) (List.length l)) as [L|L].
  - replace (Z.to_nat (Z.min (Z.of_nat p * Z.of_nat 20) (Z.of_nat (List.length l))))
      with (20 * p)%nat by lia.
    set (rest := skipn (20 * p) l).
    assert (Lr : List.length rest = (List.length l - 20 * p)%nat)
      by apply length_skipn.
    destruct (Nat.le_gt_cases 20 (List.length rest)) as [M|M].
    + f_equal. lia.
    + rewrite (firstn_all2 (n:=20)) by lia.
      apply firstn_all2. lia.
  - rewrite (skipn_all2 (n:=(20 * p)%nat)) by lia. rewrite firstn_nil.
    replace (Z.to_nat _) with O by lia. reflexivity.
Qed.

Lemma chunks_concat {A} (l : list A) n : forall a,
  List.concat (List.map (fun p => firstn ITEMS_PER_PAGE (skipn (ITEMS_PER_PAGE * p) l))
                   (seq a n))
  = firstn (ITEMS_PER_PAGE * n) (skipn (ITEMS_PER_PAGE * a) l).
Proof.
  induction n as [|n IH]; intros a.
  - rewrite Nat.mul_0_r. reflexivity.
  - cbn [seq List.map List.concat]. rewrite IH.
    replace (ITEMS_PER_PAGE * S n)%nat
      with (ITEMS_PER_PAGE + ITEMS_PER_PAGE * n)%nat by lia.
    rewrite firstn_add_skipn, skipn_skipn. do 3 f_equal. lia.
Qed.

Lemma totalPages_covers {A} (l : list A) :
  (List.length l <= ITEMS_PER_PAGE * totalPages l)%nat
  /\ (ITEMS_PER_PAGE * totalPages l < List.length l + ITEMS_PER_PAGE)%nat.
Proof.
  unfold totalPages, ITEMS_PER_PAGE. cbn [Nat.sub].
  pose proof (Nat.div_mod_eq (List.length l + 19) 20) as D.
  pose proof (Nat.mod_upper_bound (List.length l + 19) 20) as U.
  lia.
Qed.

(** X19.  The pages 1 to [totalPages] of a list, one after another, give
    the list back; no page of any number, in range or not, holds more than
    twenty rows, and every page in range holds at least one. *)
Theorem pages_cover_the_list {A : Type} (l : list A) :
  List.concat (List.map (fun p => currentData l (Z.of_nat p)) (seq 1 (totalPages l))) = l
  /\ (forall page : Z, (List.length (currentData l page) <= ITEMS_PER_PAGE)%nat)
  /\ (forall page : Z, (1 <= page <= Z.of_nat (totalPages l))%Z ->
        currentData l page <> []).
Proof.
  split; [|split].
  - rewrite <- seq_shift, map_map.
    rewrite (map_ext _ _ (currentData_chunk l)).
    rewrite chunks_concat. rewrite Nat.mul_0_r. cbn [skipn].
    apply firstn_all2. apply totalPages_covers.
  - intros page. unfold currentData, slice, ITEMS_PER_PAGE. cbv zeta.
    eapply Nat.le_trans; [apply firstn_le_length|].
    destruct (Z.ltb_spec ((page - 1) * Z.of_nat 20) 0);
      destruct (Z.ltb_spec (page * Z.of_nat 20) 0); lia.
  - intros page [P1 P2].
    replace page with (Z.of_nat (S (Z.to_nat (page - 1)))) by lia.
    rewrite currentData_chunk.
    pose proof (totalPages_covers l) as [_ T].
    set (p := Z.to_nat (page - 1)).
    assert (Lp : (ITEMS_PER_PAGE * p < List.length l)%nat).
    { unfold ITEMS_PER_PAGE in *. lia. }
    intros E. apply (f_equal (@List.length A)) in E.
    rewrite length_firstn, length_skipn in E. cbn [List.length] in E.
    unfold ITEMS_PER_PAGE in *. lia.
Qed.

(** X20.  From a page in range the two buttons lead to a page in range,
    and the second one is disabled exactly where it would not move.  With
    no rows at all the rankings leave it enabled on page 1 and it leads to
    page 0; the list of records disables it there. *)
Theorem page_buttons {A : Type} (l : list A) :
  let total := totalPages l in
  (forall p : Z, (1 <= p <= Z.of_nat total)%Z ->
     (1 <= prevPage p <= Z.of_nat total)%Z
     /\ (1 <= nextPage total p <= Z.of_nat total)%Z
     /\ (next_disabled total p = true <-> nextPage total p = p))
  /\ (l = [] <-> next_disabled total 1 = false /\ nextPage total 1 = 0%Z)
  /\ (l = [] -> next_disabled_rips total 1 = true).
Proof.
  cbv zeta. pose proof (totalPages_covers l) as [T1 T2].
  unfold ITEMS_PER_PAGE in *.
  split; [|split].
  - intros p P. unfold prevPage, nextPage, next_disabled.
    split; [lia|]. split; [lia|].
    split; intros H.
    + apply Z.eqb_eq in H. lia.
    + apply Z.eqb_eq. lia.
  - unfold nextPage, next_disabled. split.
    + intros ->. split; reflexivity.
    + intros [_ H]. destruct l as [|x l]; [reflexivity|].
      cbn [List.length] in *. lia.
  - intros ->. reflexivity.
Qed.

(** ** The organised export *)

Section OrganizadosFacts.
Variable toUpperCase : jsstring -> jsstring.

Lemma organizar_from (regs : list RipsRecord) : forall h,
  let cls := fun r => toUpperCase (tipo r) in
  fold_left (repartir toUpperCase) regs h
  = {| consultas := consultas h ++ filter (fun r => es_consulta (cls r)) regs;
       procedimientos :=
         procedimientos h
         ++ filter (fun r => negb (es_consulta (cls r)) && es_procedimiento (cls r))
                   regs;
       otros :=
         otros h
         ++ filter (fun r => negb (es_consulta (cls r))
                             && negb (es_procedimiento (cls r))) regs |}.
Proof.
  cbv zeta. induction regs as [|r regs IH]; intros h; cbn [fold_left filter].
  - rewrite !app_nil_r. destruct h; reflexivity.
  - rewrite IH. unfold repartir. cbv zeta.
    destruct (es_consulta (toUpperCase (tipo r)));
      [|destruct (es_procedimiento (toUpperCase (tipo r)))];
      cbn [consultas procedimientos otros negb andb];
      rewrite <- ?app_assoc; reflexivity.
Qed.

(** X21.  The organised export puts every record on exactly one of its
    three sheets, in the order of the records: on the first when its type
    in capitals names a consultation, otherwise on the second when it
    names a procedure, otherwise on the third. *)
Theorem organizar_sheets (regs : list RipsRecord) :
  let cls := fun r => toUpperCase (tipo r) in
  let h := organizar toUpperCase regs in
  consultas h = filter (fun r => es_consulta (cls r)) regs
  /\ procedimientos h
     = filter (fun r => negb (es_consulta (cls r)) && es_procedimiento (cls r)) regs
  /\ otros h
     = filter (fun r => negb (es_consulta (cls r))
                        && negb (es_procedimiento (cls r))) regs
  /\ (List.length (consultas h) + List.length (procedimientos h)
      + List.length (otros h) = List.length regs)%nat.
Proof.
  cbv zeta. unfold organizar. rewrite organizar_from.
  cbn [consultas procedimientos otros app].
  repeat split.
  induction regs as [|r regs IH]; [reflexivity|].
  cbn [filter].
  destruct (es_consulta (toUpperCase (tipo r)));
    [|destruct (es_procedimiento (toUpperCase (tipo r)))];
    cbn [negb andb List.length]; lia.
Qed.

End OrganizadosFacts.

(** ** [edadDetallada] *)

Section DetalladaFacts.
Import Edad.
Local Open Scope Z_scope.
Variable Date_getTime : jsstring -> option Z.
Variable ahora : Z.

(** X22.  For a birth date the host reads, [edadDetallada] shows days up to
    the 29th day; from the 30th day to the 730th the number [m] of whole
    months of 30.4375 days that the days hold (0 on the 30th day, at most
    23); and from the 731st day on that number as years (two at least) and
    the months left over when there are any.  A birth date in the future
    gives the empty string. *)
Theorem edadDetallada_thresholds (fn : jsstring) (f : Z) :
  truthy fn = true ->
  Date_getTime fn = Some f ->
  Z.abs f <= 2 ^ 51 ->
  Z.abs ahora <= 2 ^ 51 ->
  let days := diffDays f ahora in
  let shown := edadDetallada Date_getTime ahora fn in
  (days < 0 -> shown = [])
  /\ (0 <= days < 30 -> shown = dec days ++ DIAS)
  /\ (30 <= days <= 730 ->
      exists m, m = 16 * days / 487
        /\ 487 * m <= 16 * days < 487 * (m + 1)
        /\ 0 <= m < 24 /\ (m = 0 <-> days = 30)
        /\ shown = dec m ++ MESES)
  /\ (731 <= days ->
      exists m y r, m = 16 * days / 487
        /\ 487 * m <= 16 * days < 487 * (m + 1)
        /\ m = 12 * y + r /\ 0 <= r < 12 /\ 2 <= y
        /\ shown = dec y ++ ANIOS
                   ++ (if r =? 0 then [] else [32%N] ++ dec r ++ MESES)).
Proof.
  intros T G _ _. cbv zeta. unfold edadDetallada. rewrite T, G. cbn [negb].
  cbv zeta. set (days := diffDays f ahora).
  split; [|split; [|split]].
  - intros D. replace (days <? 0) with true by (symmetry; apply Z.ltb_lt; lia).
    reflexivity.
  - intros D. replace (days <? 0) with false by (symmetry; apply Z.ltb_ge; lia).
    replace (days <? 30) with true by (symmetry; apply Z.ltb_lt; lia).
    reflexivity.
  - intros D. replace (days <? 0) with false by (symmetry; apply Z.ltb_ge; lia).
    replace (days <? 30) with false by (symmetry; apply Z.ltb_ge; lia).
    pose proof (Z.div_mod (16 * days) 487 ltac:(lia)) as Q.
    pose proof (Z.mod_pos_bound (16 * days) 487 ltac:(lia)) as R.
    replace (16 * days / 487 <? 24) with true by (symmetry; apply Z.ltb_lt; lia).
    exists (16 * days / 487).
    split; [reflexivity|]. split; [lia|]. split; [lia|]. split; [lia|reflexivity].
  - intros D. replace (days <? 0) with false by (symmetry; apply Z.ltb_ge; lia).
    replace (days <? 30) with false by (symmetry; apply Z.ltb_ge; lia).
    pose proof (Z.div_mod (16 * days) 487 ltac:(lia)) as Q.
    pose proof (Z.mod_pos_bound (16 * days) 487 ltac:(lia)) as R.
    replace (16 * days / 487 <? 24) with false by (symmetry; apply Z.ltb_ge; lia).
    set (months := 16 * days / 487) in *.
    pose proof (Z.div_mod months 12 ltac:(lia)) as Q2.
    pose proof (Z.mod_pos_bound months 12 ltac:(lia)) as R2.
    exists months, (months / 12), (months mod 12).
    split; [reflexivity|]. split; [lia|]. split; [lia|]. split; [lia|].
    split; [lia|reflexivity].
Qed.

End DetalladaFacts.

(** Four hundred days after the birth date: 13 months. *)
Lemma edadDetallada_thresholds_witness :
  truthy (lit "1970-01-01") = true
  /\ Edad.diffDays 0 34560000000 = 400%Z
  /\ Edad.edadDetallada (fun _ => Some 0%Z) 34560000000 (lit "1970-01-01")
     = lit "13 meses".
Proof.
  split; [reflexivity|]. split; [reflexivity|].
  destruct (edadDetallada_thresholds (fun _ => Some 0%Z) 34560000000%Z
              (lit "1970-01-01") 0%Z eq_refl eq_refl
              ltac:(vm_compute; discriminate) ltac:(vm_compute; discriminate))
    as (_ & _ & H & _).
  destruct (H ltac:(vm_compute; split; discriminate)) as (m & Em & _ & _ & _ & E).
  rewrite E, Em. vm_compute. reflexivity.
Defined.

(** ** The audit after one group is cleaned *)

Lemma filter_filter_le {A} (p q : A -> bool) l :
  (List.length (filter p (filter q l)) <= List.length (filter p l))%nat.
Proof.
  induction l as [|x l IH]; [cbn; lia|].
  cbn [filter]. destruct (q x); cbn [filter]; destruct (p x); cbn [List.length]; lia.
Qed.

Lemma filter_outside {A} (p q t : A -> bool) l :
  (forall x, p x = true -> t x = false) ->
  filter p (filter q l) = filter p (filter q (filter (fun x => negb (t x)) l)).
Proof.
  intros H. induction l as [|x l IH]; [reflexivity|].
  cbn [filter]. destruct (t x) eqn:T; cbn [negb filter].
  - destruct (q x); cbn [filter]; [|exact IH].
    destruct (p x) eqn:P; [|exact IH]. rewrite (H x P) in T. discriminate.
  - destruct (q x); cbn [filter]; [|exact IH].
    destruct (p x); [f_equal|]; exact IH.
Qed.

Lemma removeDuplicate_incl dupId rs x :
  In x (fst (removeDuplicate dupId rs)) -> In x rs.
Proof.
  unfold removeDuplicate. intros I.
  destruct (filter_kept_spec (is_target dupId) rs false 0) as (A & B & _).
  cbv zeta in A, B.
  destruct (is_target dupId x) eqn:T.
  - assert (J : In x (filter (is_target dupId) (fst (filter_kept (is_target dupId) false 0 rs)))).
    { apply filter_In. split; assumption. }
    rewrite B in J.
    destruct (filter (is_target dupId) rs) as [|y t] eqn:F; [destruct J|].
    destruct J as [<-|[]].
    assert (K : In y (filter (is_target dupId) rs)) by (rewrite F; left; reflexivity).
    apply filter_In in K. apply K.
  - assert (J : In x (filter (fun r => negb (is_target dupId r))
                        (fst (filter_kept (is_target dupId) false 0 rs)))).
    { apply filter_In. split; [assumption|]. rewrite T. reflexivity. }
    rewrite A in J. apply filter_In in J. apply J.
Qed.

Lemma duplicatesList_cleaned metas umap regs d :
  In d (duplicatesList metas umap regs) ->
  forallb extractor_shaped regs = true ->
  no_pipe (dup_fecha d) = true ->
  let regs' := fst (removeDuplicate (dup_id d) regs) in
  (forall d', In d' (duplicatesList metas umap regs') -> dup_id d' <> dup_id d)
  /\ (forall k, k <> dup_id d ->
        count_if (has_key k) (filteredRegistros metas regs')
        = count_if (has_key k) (filteredRegistros metas regs)).
Proof.
  intros I Sh Fd. cbv zeta.
  unfold duplicatesList in I.
  apply duplicate_item_In in I as (e & G & _ & _ & _ & _ & Ef & _).
  pose proof (duplicateMap_record _ _ [] e G) as Fr. cbn [JsMap.get] in Fr.
  apply find_some in Fr as [Ir K]. unfold has_key in K. apply str_eqb_eq in K.
  set (r0 := d_record e) in *. rewrite Ef in Fd.
  assert (I0 : In r0 regs).
  { unfold filteredRegistros in Ir. apply filter_In in Ir. apply Ir. }
  pose proof (proj1 (forallb_forall _ _) Sh) as Shaped.
  assert (S0 : extractor_shaped r0 = true) by (apply Shaped; exact I0).
  assert (T : forall x, is_target (dup_id d) x = same_triple x r0).
  { intros x. rewrite <- K. apply is_target_dupKey; [| |exact Fd];
      unfold extractor_shaped in S0; apply andb_true_iff in S0; apply S0. }
  destruct (filter_kept_spec (is_target (dup_id d)) regs false 0) as (A & B & _).
  cbv zeta in A, B. fold (removeDuplicate (dup_id d) regs) in A, B.
  set (regs' := fst (removeDuplicate (dup_id d) regs)) in *.
  split.
  - intros d' I' E. unfold duplicatesList in I'.
    apply duplicate_item_In in I' as (e' & G' & C' & _).
    rewrite (duplicateMap_get_count _ _ _ G'), E in C'.
    unfold filteredRegistros, count_if in C'.
    pose proof (filter_filter_le (has_key (dup_id d))
                  (fun r => existsb (str_eqb (tipo r)) (activeTypes metas)) regs') as L.
    assert (X : filter (has_key (dup_id d)) regs'
                = filter (is_target (dup_id d)) regs').
    { apply filter_ext_in. intros x Ix. rewrite T. unfold has_key.
      assert (Sx : extractor_shaped x = true).
      { apply Shaped. apply (removeDuplicate_incl (dup_id d)). exact Ix. }
      destruct (same_triple x r0) eqn:Q.
      - apply same_triple_iff in Q. apply str_eqb_eq. rewrite <- K.
        apply (proj2 (dupKey_inj x r0 Sx S0)). exact Q.
      - destruct (str_eqb (dupKey x) (dup_id d)) eqn:Z; [|reflexivity].
        apply str_eqb_eq in Z. rewrite <- K in Z.
        apply (proj1 (dupKey_inj x r0 Sx S0)) in Z.
        apply same_triple_iff in Z. congruence. }
    rewrite X, B in L.
    assert (M : (List.length (firstn 1 (filter (is_target (dup_id d)) regs)) <= 1)%nat)
      by apply firstn_le_length.
    lia.
  - intros k Nk. unfold count_if, filteredRegistros.
    assert (O : forall x, has_key k x = true -> is_target (dup_id d) x = false).
    { intros x Hx. rewrite T. unfold has_key in Hx. apply str_eqb_eq in Hx.
      destruct (same_triple x r0) eqn:Q; [|reflexivity].
      apply same_triple_iff in Q. exfalso. apply Nk. rewrite <- Hx, <- K.
      unfold dupKey. unfold triple in Q. injection Q as -> -> ->. reflexivity. }
    rewrite (filter_outside (has_key k) _ (is_target (dup_id d)) regs' O).
    rewrite (filter_outside (has_key k) _ (is_target (dup_id d)) regs O).
    rewrite A. reflexivity.
Qed.

(** X24.  When the records are as the extractor writes them, cleaning the
    group of an item of the duplicate audit takes that item off the audit
    and leaves the number of active records of every other key as it
    was. *)
Theorem duplicatesList_after_removeDuplicate (metas : list ServiceTypeMeta)
    (umap : JsMap.t UserRecord) (regs : list RipsRecord) (d : DuplicateItem) :
  In d (duplicatesList metas umap regs) ->
  forallb extractor_shaped regs = true ->
  no_pipe (dup_fecha d) = true ->
  let regs' := fst (removeDuplicate (dup_id d) regs) in
  (forall d', In d' (duplicatesList metas umap regs') -> dup_id d' <> dup_id d)
  /\ (forall k, k <> dup_id d ->
        count_if (has_key k) (filteredRegistros metas regs')
        = count_if (has_key k) (filteredRegistros metas regs)).
Proof. exact (duplicatesList_cleaned metas umap regs d). Qed.

Lemma duplicatesList_after_removeDuplicate_witness :
  In MoreSamples.duplicado_A
     (duplicatesList Samples.metas_activas [] MoreSamples.registros_repetidos)
  /\ count_if (has_key (dupKey Samples.reg_B))
       (filteredRegistros Samples.metas_activas
          (fst (removeDuplicate (dup_id MoreSamples.duplicado_A)
                  MoreSamples.registros_repetidos)))
     = count_if (has_key (dupKey Samples.reg_B))
         (filteredRegistros Samples.metas_activas MoreSamples.registros_repetidos).
Proof.
  split; [left; reflexivity|].
  apply (duplicatesList_after_removeDuplicate Samples.metas_activas []
           MoreSamples.registros_repetidos MoreSamples.duplicado_A
           (or_introl eq_refl) eq_refl eq_refl).
  intros E. vm_compute in E. discriminate E.
Defined.

(** ** Ages in months and in years *)

(** X23.  For calendar months 0 to 11 the age in months lies between
    twelve times the age in years and twelve more; so PRIMERA INFANCIA goes
    to ages of at most 5 years, and the bracket labelled 6-11 takes the
    ages 5 to 11: a child of 5 years whose 61st month has begun is in
    it. *)
Theorem edadMeses_edadAnios (Date_parse : jsstring -> option LocalDate)
    (hoy : LocalDate) (fn : jsstring) (f : LocalDate) :
  truthy fn = true ->
  Date_parse fn = Some f ->
  (0 <= month hoy <= 11)%Z ->
  (0 <= month f <= 11)%Z ->
  exists m a : Z,
    edadMeses Date_parse hoy fn = Some m
    /\ edadAnios Date_parse hoy fn = Some a
    /\ (12 * a <= m <= 12 * a + 12)%Z
    /\ (grupoEtarioDesdeFN Date_parse hoy fn = PRIMERA_INFANCIA -> (a <= 5)%Z)
    /\ (grupoEtarioDesdeFN Date_parse hoy fn = INFANCIA -> (5 <= a <= 11)%Z)
    /\ ((a <= 4)%Z -> grupoEtarioDesdeFN Date_parse hoy fn = PRIMERA_INFANCIA).
Proof.
  intros T P Mh Mf.
  unfold grupoEtarioDesdeFN, edadMeses, edadAnios. rewrite T, P. cbn [negb].
  cbv zeta.
  set (m := ((fullYear hoy - fullYear f) * 12 + (month hoy - month f))%Z).
  destruct ((month hoy <? month f)%Z
            || (month hoy =? month f)%Z && (date hoy <? date f)%Z) eqn:B.
  - exists m, (fullYear hoy - fullYear f - 1)%Z.
    assert (R : (12 * (fullYear hoy - fullYear f - 1) <= m
                 <= 12 * (fullYear hoy - fullYear f - 1) + 12)%Z).
    { apply orb_true_iff in B as [B|B].
      - apply Z.ltb_lt in B. lia.
      - apply andb_true_iff in B as [B _]. apply Z.eqb_eq in B. lia. }
    split; [reflexivity|]. split; [reflexivity|]. split; [exact R|].
    destruct (m <=? 60)%Z eqn:E60.
    + apply Z.leb_le in E60.
      split; [lia|]. split; [discriminate|reflexivity].
    + apply Z.leb_gt in E60.
      split; [|split; [|lia]];
        destruct (fullYear hoy - fullYear f - 1 <=? 11)%Z eqn:E11;
        try (apply Z.leb_le in E11); try discriminate; try lia;
        destruct (fullYear hoy - fullYear f - 1 <=? 17)%Z; try discriminate;
        destruct (fullYear hoy - fullYear f - 1 <=? 28)%Z; try discriminate;
        destruct (fullYear hoy - fullYear f - 1 <=? 59)%Z; discriminate.
  - exists m, (fullYear hoy - fullYear f)%Z.
    assert (R : (12 * (fullYear hoy - fullYear f) <= m
                 <= 12 * (fullYear hoy - fullYear f) + 12)%Z).
    { apply orb_false_iff in B as [B _]. apply Z.ltb_ge in B. lia. }
    split; [reflexivity|]. split; [reflexivity|]. split; [exact R|].
    destruct (m <=? 60)%Z eqn:E60.
    + apply Z.leb_le in E60.
      split; [lia|]. split; [discriminate|reflexivity].
    + apply Z.leb_gt in E60.
      split; [|split; [|lia]];
        destruct (fullYear hoy - fullYear f <=? 11)%Z eqn:E11;
        try (apply Z.leb_le in E11); try discriminate; try lia;
        destruct (fullYear hoy - fullYear f <=? 17)%Z; try discriminate;
        destruct (fullYear hoy - fullYear f <=? 28)%Z; try discriminate;
        destruct (fullYear hoy - fullYear f <=? 59)%Z; discriminate.
Qed.

Lemma edadMeses_edadAnios_witness :
  Samples.Date_de_muestra (lit "2019-02-15")
  = Some {| fullYear := 2019; month := 1; date := 15 |}
  /\ exists m a : Z,
       edadMeses Samples.Date_de_muestra Samples.hoy_de_muestra (lit "2019-02-15")
       = Some m
       /\ edadAnios Samples.Date_de_muestra Samples.hoy_de_muestra (lit "2019-02-15")
          = Some a
       /\ (12 * a <= m <= 12 * a + 12)%Z.
Proof.
  split; [reflexivity|].
  destruct (edadMeses_edadAnios Samples.Date_de_muestra Samples.hoy_de_muestra
              (lit "2019-02-15") {| fullYear := 2019; month := 1; date := 15 |}
              eq_refl eq_refl
              ltac:(vm_compute; split; discriminate)
              ltac:(vm_compute; split; discriminate))
    as (m & a & M & A & R & _).
  exists m, a. auto.
Defined.
